(** * Go-modules resolver of cachi2: a shallow embedding

    Source: [cachi2/core/package_managers/gomod.py].

    Python [str] values are modelled as [string], read as sequences of
    code points below 256.  Exceptions are modelled by the [result] type:
    a function that may raise returns [Raise e] instead of a value. *)

From Stdlib Require Import String Ascii List Bool Arith ZArith NArith Lia.
From Stdlib Require Import DecimalString DecimalN.
Import ListNotations.

Local Open Scope string_scope.
Local Open Scope list_scope.

(** ** Exceptions *)

Inductive Error : Type :=
| PackageRejected (reason solution docs : string)
| UnexpectedFormat (msg solution : string)
| PathOutsideRoot (solution : option string)
| FetchError (msg : string)
| GitCommandError
| GoModError (msg : string)
| RuntimeError (msg : string)
| KeyError (key : string)
| IndexError
| OSError
| ValueError.

Inductive result (A : Type) : Type :=
| Ok (a : A)
| Raise (e : Error).

Arguments Ok {A} a.
Arguments Raise {A} e.

Definition bind {A B : Type} (r : result A) (k : A -> result B) : result B :=
  match r with
  | Ok a => k a
  | Raise e => Raise e
  end.

Notation "x <- r ;; k" := (bind r (fun x => k))
  (at level 61, r at next level, right associativity).

(** ** Data model *)

(** [class ParsedModule]: [replace] is itself a parsed module. *)
#[warnings="-register-all"]
Inductive ParsedModule : Type :=
| mkParsedModule (path : string) (version : option string) (main : bool)
                 (replace : option ParsedModule).

Definition pm_path (m : ParsedModule) : string :=
  match m with mkParsedModule p _ _ _ => p end.
Definition pm_version (m : ParsedModule) : option string :=
  match m with mkParsedModule _ v _ _ => v end.
Definition pm_main (m : ParsedModule) : bool :=
  match m with mkParsedModule _ _ b _ => b end.
Definition pm_replace (m : ParsedModule) : option ParsedModule :=
  match m with mkParsedModule _ _ _ r => r end.

(** [class ParsedPackage]. *)
Record ParsedPackage : Type := mkParsedPackage {
  import_path : string;
  standard : bool;
  pp_module : option ParsedModule
}.

(** [class Module(NamedTuple)]. *)
Record Module : Type := mkModule {
  name : string;
  original_name : string;
  real_path : string;
  version : string;
  main : bool
}.

(** Truth value of an [Optional[str]]: [None] and the empty string are
    false. *)
Definition truthy (o : option string) : bool :=
  match o with
  | Some s => negb (s =? "")
  | None => false
  end.

(** ** Insertion-ordered dictionaries

    A Python [dict] keeps its keys in order of first insertion; [values()]
    walks them in that order. *)

Section Dict.
Context {K V : Type} (K_eqb : K -> K -> bool).

Definition dict := list (K * V).

Definition dict_get (d : dict) (k : K) : option V :=
  match find (fun kv => K_eqb (fst kv) k) d with
  | Some kv => Some (snd kv)
  | None => None
  end.

Definition dict_mem (d : dict) (k : K) : bool :=
  existsb (fun kv => K_eqb (fst kv) k) d.

(** [d.setdefault(k, v)]: insert only when the key is new. *)
Definition setdefault (d : dict) (k : K) (v : V) : dict :=
  if dict_mem d k then d else d ++ [(k, v)].

(** [d[k] = v]: overwrite in place, or append a new key. *)
Fixpoint dict_set (d : dict) (k : K) (v : V) : dict :=
  match d with
  | [] => [(k, v)]
  | (k', v') :: d' =>
      if K_eqb k' k then (k', v) :: d' else (k', v') :: dict_set d' k v
  end.

Definition dict_keys (d : dict) : list K := map fst d.
Definition dict_values (d : dict) : list V := map snd d.
End Dict.

(** ** Merge of the two module views *)

Definition Key : Type := string * option string.

Definition opt_eqb (a b : option string) : bool :=
  match a, b with
  | Some x, Some y => x =? y
  | None, None => true
  | _, _ => false
  end.

Definition Key_eqb (a b : Key) : bool :=
  (fst a =? fst b) && opt_eqb (snd a) (snd b).

(** [get_unique_key] of [_deduplicate_resolved_modules]. *)
Definition get_unique_key (module : ParsedModule) : Key :=
  match pm_replace module with
  | None => (pm_path module, pm_version module)
  | Some replace =>
      if truthy (pm_version replace)
      then (pm_path replace, pm_version replace)
      else (pm_path module, Some (pm_path replace))
  end.

Definition _deduplicate_resolved_modules
    (package_modules downloaded_modules : list ParsedModule)
  : list ParsedModule :=
  let modules_by_name_and_version :=
    fold_left
      (fun d module => setdefault Key_eqb d (get_unique_key module) module)
      (package_modules ++ downloaded_modules) []
  in
  dict_values modules_by_name_and_version.

(** ** Python string operations *)

Definition LF : ascii := "010"%char.
Definition CR : ascii := "013"%char.
Definition DQUOTE : ascii := "034"%char.
Definition NL : string := String LF EmptyString.
Definition quoted (s : string) : string :=
  String DQUOTE (s ++ String DQUOTE EmptyString).

(** [str.isspace] on one character (code points below 256). *)
Definition isspace (c : ascii) : bool :=
  let n := nat_of_ascii c in
  (((9 <=? n) && (n <=? 13)) || ((28 <=? n) && (n <=? 32))
   || (n =? 133) || (n =? 160))%nat.

(** Line boundaries of [str.splitlines] (code points below 256). *)
Definition islinebreak (c : ascii) : bool :=
  let n := nat_of_ascii c in
  (((10 <=? n) && (n <=? 13)) || ((28 <=? n) && (n <=? 30))
   || (n =? 133))%nat.

(** [s.startswith(p)]. *)
Fixpoint startswith (s p : string) {struct p} : bool :=
  match p with
  | EmptyString => true
  | String a p' =>
      match s with
      | String b s' => Ascii.eqb a b && startswith s' p'
      | EmptyString => false
      end
  end.

Fixpoint drop (n : nat) (s : string) : string :=
  match n, s with
  | O, _ => s
  | S n', String _ s' => drop n' s'
  | S _, EmptyString => EmptyString
  end.

(** [s.removeprefix(p)]. *)
Definition removeprefix (s p : string) : string :=
  if startswith s p then drop (String.length p) s else s.

(** [s.split()]: maximal runs of non-whitespace characters. *)
Fixpoint py_split (s : string) : list string :=
  match s with
  | EmptyString => []
  | String c s' =>
      if isspace c then py_split s'
      else
        match s' with
        | EmptyString => [String c EmptyString]
        | String c' _ =>
            if isspace c' then String c EmptyString :: py_split s'
            else
              match py_split s' with
              | w :: ws => String c w :: ws
              | [] => [String c EmptyString]
              end
        end
  end.

(** [s.splitlines()]: [skip_lf] is set right after a carriage return, whose
    following line feed belongs to the same line boundary. *)
Fixpoint splitlines_from (skip_lf : bool) (s : string) : list string :=
  match s with
  | EmptyString => []
  | String c s' =>
      if skip_lf && Ascii.eqb c LF then splitlines_from false s'
      else if islinebreak c then
        EmptyString :: splitlines_from (Ascii.eqb c CR) s'
      else
        match splitlines_from false s' with
        | w :: ws => String c w :: ws
        | [] => [String c EmptyString]
        end
  end.

Definition py_splitlines (s : string) : list string := splitlines_from false s.

(** [s.replace(old, new)] for a non-empty [old]: leftmost, non-overlapping
    occurrences; [skip] counts the characters of the current occurrence
    still to be passed over. *)
Fixpoint replace_from (old new : string) (skip : nat) (s : string) : string :=
  match s with
  | EmptyString => EmptyString
  | String c s' =>
      match skip with
      | S k => replace_from old new k s'
      | O =>
          if startswith s old
          then new ++ replace_from old new (String.length old - 1) s'
          else String c (replace_from old new 0 s')
      end
  end.

(** With an empty [old], Python puts [new] before every character and at
    the end. *)
Fixpoint intersperse (new s : string) : string :=
  match s with
  | EmptyString => new
  | String c s' => new ++ String c (intersperse new s')
  end.

Definition py_replace (s old new : string) : string :=
  match old with
  | EmptyString => intersperse new s
  | _ => replace_from old new 0 s
  end.

Fixpoint contains_char (c : ascii) (s : string) : bool :=
  match s with
  | EmptyString => false
  | String c' s' => Ascii.eqb c c' || contains_char c s'
  end.

Definition hex_digit (n : nat) : ascii :=
  ascii_of_nat (if (n <? 10)%nat then 48 + n else 87 + n).

(** One character of [repr(s)] with [quote] as the chosen delimiter. *)
Definition repr_char (quote c : ascii) : string :=
  let n := nat_of_ascii c in
  if Ascii.eqb c quote || Ascii.eqb c "\"%char
  then String "\"%char (String c EmptyString)
  else if (n =? 9)%nat then "\t"
  else if (n =? 10)%nat then "\n"
  else if (n =? 13)%nat then "\r"
  else if ((n <? 32) || ((127 <=? n) && (n <=? 160)) || (n =? 173))%nat
  then String "\"%char
         (String "x"%char
            (String (hex_digit (n / 16))
               (String (hex_digit (n mod 16)) EmptyString)))
  else String c EmptyString.

Fixpoint repr_body (quote : ascii) (s : string) : string :=
  match s with
  | EmptyString => EmptyString
  | String c s' => repr_char quote c ++ repr_body quote s'
  end.

(** [repr(s)], the [!r] conversion of an f-string. *)
Definition repr (s : string) : string :=
  let quote :=
    if contains_char "'"%char s && negb (contains_char DQUOTE s)
    then DQUOTE else "'"%char in
  String quote (repr_body quote s ++ String quote EmptyString).

(** ** Rooted paths *)

(** What the resolver can observe of a path on disk.  [RegularFile text]
    carries what [Path.read_text()] returns for the file. *)
Inductive PathKind : Type :=
| Absent
| Directory
| RegularFile (text : string).

(** A path joined within the root: its location relative to the root
    ([None] when it is the root itself) and what lies there. *)
Record Resolved : Type := mkResolved {
  subpath_from_root : option string;
  kind : PathKind
}.

(** Modelled from the spec: the rooted-path guard [RootedPath] of
    [cachi2.core.rooted_path] is not among the sources.  Per section 4.1 a
    path joined into the root is resolved (symbolic links and [..]) and is
    rejected with the distinct error [PathOutsideRoot] when the result is
    not a descendant of the root.  [lookup] gives the resolved target of a
    relative path, [None] standing for a target outside the root. *)
Record RootedPath : Type := mkRootedPath {
  rp_subpath : option string;
  lookup : string -> option Resolved
}.

Definition join_within_root (dir : RootedPath) (rel : string)
  : result Resolved :=
  match lookup dir rel with
  | Some r => Ok r
  | None => Raise (PathOutsideRoot None)
  end.

(** [Path.exists()], [Path.is_dir()], [Path.read_text()]. *)
Definition path_exists (r : Resolved) : bool :=
  match kind r with Absent => false | _ => true end.

Definition is_dir (r : Resolved) : bool :=
  match kind r with Directory => true | _ => false end.

Definition read_text (r : Resolved) : result string :=
  match kind r with
  | RegularFile text => Ok text
  | _ => Raise OSError
  end.

Definition mem (x : string) (l : list string) : bool :=
  existsb (String.eqb x) l.

(** ** Vendoring arbiter *)

Definition GOMOD_DOC : string :=
  "https://github.com/containerbuildsystem/cachi2/blob/main/docs/gomod.md".
Definition VENDORING_DOC : string := GOMOD_DOC ++ "#vendoring".

Definition vendor_flags_reason : string :=
  "The " ++ quoted "gomod-vendor" ++ " or " ++ quoted "gomod-vendor-check"
  ++ " flag must be set when your repository has vendored dependencies.".

Definition vendor_flags_solution : string :=
  "Consider removing the vendor/ directory and letting Cachi2 download dependencies instead."
  ++ NL
  ++ "If you do want to keep using vendoring, please pass one of the required flags.".

Definition _should_vendor_deps
    (flags : list string) (app_dir : RootedPath) (strict : bool)
  : result (bool * bool) :=
  vendor <- join_within_root app_dir "vendor" ;;
  if mem "gomod-vendor-check" flags then Ok (true, negb (path_exists vendor))
  else if mem "gomod-vendor" flags then Ok (true, true)
  else if strict && is_dir vendor then
    Raise (PackageRejected vendor_flags_reason vendor_flags_solution
             VENDORING_DOC)
  else Ok (false, false).

(** ** Validation of local replacements *)

Definition replaced_paths (modules : list ParsedModule)
  : list (string * string) :=
  flat_map
    (fun module =>
       match pm_replace module with
       | Some replace =>
           if startswith (pm_path replace) "."
           then [(pm_path module, pm_path replace)]
           else []
       | None => []
       end)
    modules.

Definition local_replacement_solution (name path : string) : string :=
  "The module '" ++ name ++ "' is being replaced by the local path '" ++ path
  ++ "', which falls outside of the repository root. Refusing to proceed.".

Fixpoint check_replaced_paths
    (pairs : list (string * string)) (app_path : RootedPath) : result unit :=
  match pairs with
  | [] => Ok tt
  | (name, path) :: rest =>
      match join_within_root app_path path with
      | Ok _ => check_replaced_paths rest app_path
      | Raise (PathOutsideRoot _) =>
          Raise (PathOutsideRoot
                   (Some (local_replacement_solution name path)))
      | Raise e => Raise e
      end
  end.

Definition _validate_local_replacements
    (modules : list ParsedModule) (app_path : RootedPath) : result unit :=
  check_replaced_paths (replaced_paths modules) app_path.

(** ** Vendor parser *)

Definition vendor_solution : string :=
  "Does `go mod vendor` make any changes to modules.txt?" ++ NL
  ++ "If not, please let the maintainers know that Cachi2 fails to parse valid modules.txt".

Definition fail_for_unexpected_format {A : Type} (msg : string) : result A :=
  Raise (UnexpectedFormat ("vendor/modules.txt: " ++ msg) vendor_solution).

Definition parse_module_line (line : string) : result ParsedModule :=
  let parts := py_split (removeprefix line "# ") in
  let unexpected :=
    fail_for_unexpected_format
      ("unexpected module line format: " ++ repr line) in
  match parts with
  | [name; version] =>
      Ok (mkParsedModule name (Some version) false None)
  | [name; p1; path] =>
      if p1 =? "=>"
      then Ok (mkParsedModule name None false
                 (Some (mkParsedModule path None false None)))
      else unexpected
  | [name; p1; p2; p3] =>
      if p1 =? "=>"
      then Ok (mkParsedModule name None false
                 (Some (mkParsedModule p2 (Some p3) false None)))
      else if p2 =? "=>"
      then Ok (mkParsedModule name (Some p1) false
                 (Some (mkParsedModule p3 None false None)))
      else unexpected
  | [name; version; p2; new_name; new_version] =>
      if p2 =? "=>"
      then Ok (mkParsedModule name (Some version) false
                 (Some (mkParsedModule new_name (Some new_version) false
                          None)))
      else unexpected
  | _ => unexpected
  end.

(** [l[-1] = v]. *)
Fixpoint set_last (l : list bool) (v : bool) : result (list bool) :=
  match l with
  | [] => Raise IndexError
  | [_] => Ok [v]
  | b :: l' => l'' <- set_last l' v ;; Ok (b :: l'')
  end.

(** One turn of the loop over the lines; the state is the pair of lists
    [modules], [module_has_packages]. *)
Definition vendor_step
    (st : list ParsedModule * list bool) (line : string)
  : result (list ParsedModule * list bool) :=
  let '(modules, module_has_packages) := st in
  if startswith line "# " then
    m <- parse_module_line line ;;
    Ok (modules ++ [m], module_has_packages ++ [false])
  else if negb (startswith line "#") then
    match modules with
    | [] =>
        fail_for_unexpected_format ("package has no parent module: " ++ line)
    | _ =>
        has <- set_last module_has_packages true ;;
        Ok (modules, has)
    end
  else if negb (startswith line "##") then
    fail_for_unexpected_format ("unexpected format: " ++ repr line)
  else Ok st.

Fixpoint vendor_loop
    (st : list ParsedModule * list bool) (lines : list string)
  : result (list ParsedModule * list bool) :=
  match lines with
  | [] => Ok st
  | line :: rest => st' <- vendor_step st line ;; vendor_loop st' rest
  end.

(** The generator returned at the end: modules zipped with their flags. *)
Definition with_packages (st : list ParsedModule * list bool)
  : list ParsedModule :=
  map fst (filter snd (combine (fst st) (snd st))).

Definition parse_vendor_lines (lines : list string)
  : result (list ParsedModule) :=
  st <- vendor_loop ([], []) lines ;; Ok (with_packages st).

Definition _parse_vendor (module_dir : RootedPath)
  : result (list ParsedModule) :=
  modules_txt <- join_within_root module_dir "vendor/modules.txt" ;;
  if negb (path_exists modules_txt) then Ok []
  else
    text <- read_text modules_txt ;;
    parse_vendor_lines (py_splitlines text).

Definition vendor_inconsistent_reason : string :=
  "The content of the vendor directory is not consistent with go.mod. "
  ++ "Please check the logs for more details.".

Definition vendor_inconsistent_solution : string :=
  "Please try running `go mod vendor` and committing the changes." ++ NL
  ++ "Note that you may need to `git add --force` ignored files in the vendor/ dir."
  ++ NL
  ++ "Also consider whether you really want the -check variant of the flag.".

(** [_vendor_deps]: [run_vendor] is the outcome of the retried
    [go mod vendor] command, giving the module directory as the command
    leaves it; [vendor_changed] is the outcome of [_vendor_changed] on it. *)
Definition _vendor_deps
    (run_vendor : result RootedPath)
    (vendor_changed : RootedPath -> result bool)
    (can_make_changes : bool)
  : result (list ParsedModule) :=
  app_dir <- run_vendor ;;
  changed <- (if negb can_make_changes then vendor_changed app_dir
              else Ok false) ;;
  if changed then
    Raise (PackageRejected vendor_inconsistent_reason
             vendor_inconsistent_solution VENDORING_DOC)
  else _parse_vendor app_dir.

(** ** Numbers in strings *)

Definition isdigit (c : ascii) : bool :=
  let n := nat_of_ascii c in ((48 <=? n) && (n <=? 57))%nat.

Definition digit_value (c : ascii) : N := N.of_nat (nat_of_ascii c - 48).

(** The number written by a string of decimal digits. *)
Fixpoint int_from (acc : N) (s : string) : N :=
  match s with
  | EmptyString => acc
  | String c s' => int_from (acc * 10 + digit_value c)%N s'
  end.

Definition int_of_digits (s : string) : N := int_from 0%N s.

(** [sys.int_max_str_digits], as CPython sets it by default. *)
Definition int_max_str_digits : N := 4300.

(** [int(s)] for a string of decimal digits: with more digits than
    [int_max_str_digits] the conversion raises [ValueError]. *)
Definition py_int (s : string) : result N :=
  if (int_max_str_digits <? N.of_nat (String.length s))%N
  then Raise ValueError
  else Ok (int_of_digits s).

(** [str(n)], also the [%d] and f-string rendering of an [int]. *)
Definition dec (n : N) : string := NilEmpty.string_of_uint (N.to_uint n).

Fixpoint all_chars (p : ascii -> bool) (s : string) : bool :=
  match s with
  | EmptyString => true
  | String c s' => p c && all_chars p s'
  end.

(** ** Major version named by the module path

    [re.match(r"(?:.+/v)(?P<major_version>\d+)$", module_name)]: [.] is any
    character but a line feed, [$] is the end of the string or the
    position before a final line feed. *)

(** [\d+$] at the start of [s]: the digits matched. *)
Fixpoint digits_to_end (s : string) : option string :=
  match s with
  | EmptyString => Some EmptyString
  | String c s' =>
      if isdigit c then
        match digits_to_end s' with
        | Some ds => Some (String c ds)
        | None => None
        end
      else if Ascii.eqb c LF then
        match s' with EmptyString => Some EmptyString | _ => None end
      else None
  end.

(** [/v\d+$] at the start of [s]. *)
Definition slash_v_digits (s : string) : option string :=
  match s with
  | String "/" (String "v" r) =>
      match digits_to_end r with
      | Some (String c ds) => Some (String c ds)
      | _ => None
      end
  | _ => None
  end.

(** The rest of the match once [.+] has taken at least one character:
    the greedy [.+] first tries to take more. *)
Fixpoint major_after_prefix (s : string) : option string :=
  match s with
  | EmptyString => None
  | String c s' =>
      let here := slash_v_digits s in
      if Ascii.eqb c LF then here
      else
        match major_after_prefix s' with
        | Some ds => Some ds
        | None => here
        end
  end.

Definition match_major_version (module_name : string) : option string :=
  match module_name with
  | EmptyString => None
  | String c s' => if Ascii.eqb c LF then None else major_after_prefix s'
  end.

(** [module_major_version]: [None] without a match, otherwise
    [int(match.groupdict()["major_version"])]. *)
Definition module_major_version_of (module_name : string)
  : result (option N) :=
  match match_major_version module_name with
  | Some ds => n <- py_int ds ;; Ok (Some n)
  | None => Ok None
  end.

(** [if module_major_version:] is false for [None] and for [0]. *)
Definition major_versions_to_try (module_major_version : option N)
  : list N :=
  match module_major_version with
  | Some n => if (n =? 0)%N then [1%N; 0%N] else [n]
  | None => [1%N; 0%N]
  end.

(** ** Semantic versions (the [semver] package) *)

Record Version : Type := mkVersion {
  major : N;
  minor : N;
  patch : N;
  prerelease : option string;
  build : option string
}.

(** [s.split(sep)] for a one-character separator. *)
Fixpoint split_on (sep : ascii) (s : string) : list string :=
  match s with
  | EmptyString => [EmptyString]
  | String c s' =>
      if Ascii.eqb c sep then EmptyString :: split_on sep s'
      else
        match split_on sep s' with
        | w :: ws => String c w :: ws
        | [] => [String c EmptyString]
        end
  end.

(** Cut at the first occurrence of [sep]. *)
Fixpoint break_at (sep : ascii) (s : string) : string * option string :=
  match s with
  | EmptyString => (EmptyString, None)
  | String c s' =>
      if Ascii.eqb c sep then (EmptyString, Some s')
      else let '(a, b) := break_at sep s' in (String c a, b)
  end.

Definition isalnum_hyphen (c : ascii) : bool :=
  let n := nat_of_ascii c in
  (isdigit c || ((65 <=? n) && (n <=? 90)) || ((97 <=? n) && (n <=? 122))
   || (n =? 45))%nat.

(** [0|[1-9]\d*] *)
Definition is_numeric_id (s : string) : bool :=
  match s with
  | EmptyString => false
  | String "0" EmptyString => true
  | String c s' => isdigit c && negb (Ascii.eqb c "0") && all_chars isdigit s'
  end.

(** [0|[1-9]\d*|\d*[a-zA-Z-][0-9a-zA-Z-]*] *)
Definition is_prerelease_id (s : string) : bool :=
  match s with
  | EmptyString => false
  | _ =>
      all_chars isalnum_hyphen s
      && (negb (all_chars isdigit s) || is_numeric_id s)
  end.

(** [[0-9a-zA-Z-]+] *)
Definition is_build_id (s : string) : bool :=
  match s with
  | EmptyString => false
  | _ => all_chars isalnum_hyphen s
  end.

(** The string without its final line feed, if it has one. *)
Fixpoint strip_final_lf (s : string) : string :=
  match s with
  | EmptyString => EmptyString
  | String c s' =>
      match s' with
      | EmptyString => if Ascii.eqb c LF then EmptyString else s
      | _ => String c (strip_final_lf s')
      end
  end.

(** [Version.parse]: the string must match the package's pattern
    [major.minor.patch(-prerelease)?(+build)?$], read here identifier by
    identifier: the first [+] opens the build part, the first [-] before
    it the prerelease part. *)
Definition Version_parse (s : string) : result Version :=
  let '(front, build_part) := break_at "+" (strip_final_lf s) in
  let '(core, pre_part) := break_at "-" front in
  let build_ok :=
    match build_part with
    | Some b => forallb is_build_id (split_on "." b)
    | None => true
    end in
  let pre_ok :=
    match pre_part with
    | Some p => forallb is_prerelease_id (split_on "." p)
    | None => true
    end in
  match split_on "." core with
  | [ma; mi; pa] =>
      if is_numeric_id ma && is_numeric_id mi && is_numeric_id pa
         && pre_ok && build_ok
      then Ok (mkVersion (int_of_digits ma) (int_of_digits mi)
                 (int_of_digits pa) pre_part build_part)
      else Raise ValueError
  | _ => Raise ValueError
  end.

(** [str(version)]. *)
Definition Version_str (v : Version) : string :=
  dec (major v) ++ "." ++ dec (minor v) ++ "." ++ dec (patch v)
  ++ (if truthy (prerelease v)
      then "-" ++ match prerelease v with Some p => p | None => "" end
      else "")
  ++ (if truthy (build v)
      then "+" ++ match build v with Some b => b | None => "" end
      else "").

(** [version.bump_patch()]: prerelease and build are dropped. *)
Definition bump_patch (v : Version) : Version :=
  mkVersion (major v) (minor v) (patch v + 1)%N None None.

(** Precedence of prerelease strings, [Version._nat_cmp]: identifiers are
    compared pairwise, numeric ones as numbers and below the others; when
    all pairs agree the lengths of the two strings decide. *)
Definition cmp_prerelease_tag (a b : string) : comparison :=
  let numeric s :=
    match s with EmptyString => false | _ => all_chars isdigit s end in
  match numeric a, numeric b with
  | true, true => N.compare (int_of_digits a) (int_of_digits b)
  | true, false => Lt
  | false, true => Gt
  | false, false => String.compare a b
  end.

Fixpoint cmp_zip (a b : list string) : comparison :=
  match a, b with
  | x :: a', y :: b' =>
      match cmp_prerelease_tag x y with
      | Eq => cmp_zip a' b'
      | c => c
      end
  | _, _ => Eq
  end.

Definition _nat_cmp (a b : option string) : comparison :=
  let a := match a with Some s => s | None => "" end in
  let b := match b with Some s => s | None => "" end in
  match cmp_zip (split_on "." a) (split_on "." b) with
  | Eq => Nat.compare (String.length a) (String.length b)
  | c => c
  end.

(** [Version.compare]. *)
Definition Version_compare (v1 v2 : Version) : comparison :=
  match N.compare (major v1) (major v2) with
  | Eq =>
      match N.compare (minor v1) (minor v2) with
      | Eq =>
          match N.compare (patch v1) (patch v2) with
          | Eq =>
              match _nat_cmp (prerelease v1) (prerelease v2) with
              | Eq => Eq
              | c =>
                  if negb (truthy (prerelease v1)) then Gt
                  else if negb (truthy (prerelease v2)) then Lt
                  else c
              end
          | c => c
          end
      | c => c
      end
  | c => c
  end.

Definition Version_gt (v1 v2 : Version) : bool :=
  match Version_compare v1 v2 with Gt => true | _ => false end.

(** ** Commit times

    [datetime.utcfromtimestamp(seconds).strftime("%Y%m%d%H%M%S")]: the
    proleptic Gregorian calendar counted from 1970-01-01; years beyond 9999
    are an error. *)

Definition is_leap (y : N) : bool :=
  (((y mod 4 =? 0) && negb (y mod 100 =? 0)) || (y mod 400 =? 0))%N.

Definition days_in_year (y : N) : N := if is_leap y then 366%N else 365%N.

Definition month_lengths (y : N) : list N :=
  [31; if is_leap y then 29 else 28; 31; 30; 31; 30; 31; 31; 30; 31; 30; 31]%N.

(** Year holding day number [days] counted from the first day of [y], and
    the day's position within that year. *)
Fixpoint year_of_day (fuel : nat) (y days : N) : N * N :=
  match fuel with
  | O => (y, days)
  | S fuel' =>
      if (days <? days_in_year y)%N then (y, days)
      else year_of_day fuel' (y + 1)%N (days - days_in_year y)%N
  end.

(** Month (from [m]) and day of the month (from 1) of day [days] of a year
    whose remaining months have the given lengths. *)
Fixpoint month_of_day (lengths : list N) (m days : N) : N * N :=
  match lengths with
  | [] => (m, days + 1)%N
  | len :: rest =>
      if (days <? len)%N then (m, days + 1)%N
      else month_of_day rest (m + 1)%N (days - len)%N
  end.

Record datetime : Type := mkDatetime {
  year : N; month : N; day : N; hour : N; minute : N; second : N
}.

Definition utcfromtimestamp (seconds : N) : result datetime :=
  let days := (seconds / 86400)%N in
  let rest := (seconds mod 86400)%N in
  let '(y, doy) := year_of_day (N.to_nat 8030) 1970%N days in
  if (9999 <? y)%N then Raise ValueError
  else
    let '(m, d) := month_of_day (month_lengths y) 1%N doy in
    Ok (mkDatetime y m d (rest / 3600)%N ((rest mod 3600) / 60)%N
          (rest mod 60)%N).

(** A number zero-padded to [width] digits. *)
Definition zero_pad (width : nat) (n : N) : string :=
  let s := dec n in
  let fix zeros (k : nat) : string :=
    match k with O => EmptyString | S k' => String "0" (zeros k') end in
  zeros (width - String.length s) ++ s.

Definition strftime_YmdHMS (dt : datetime) : string :=
  zero_pad 4 (year dt) ++ zero_pad 2 (month dt) ++ zero_pad 2 (day dt)
  ++ zero_pad 2 (hour dt) ++ zero_pad 2 (minute dt) ++ zero_pad 2 (second dt).

(** ** The repository as the reifier sees it (GitPython) *)

(** [git.objects.Commit]: [committed_date] counts seconds since the epoch;
    GitPython reads it as a run of digits, hence never negative. *)
Record Commit : Type := mkCommit {
  hexsha : string;
  committed_date : N
}.

(** An opened [git.Repo].  A tag object is identified with its name. *)
Record Repo : Type := mkRepo {
  (** [repo.remote().fetch(force=True, tags=True)]: [None] on success,
      else the name of the exception type raised *)
  fetch_tags : option string;
  (** [repo.rev_parse("HEAD").hexsha] *)
  rev_parse_HEAD : result string;
  (** [repo.commit(sha)] *)
  repo_commit : string -> result Commit;
  (** output of [git tag --points-at <sha>] *)
  git_tag_points_at : string -> result string;
  (** output of [git for-each-ref ... refs/tags --merged <sha>] *)
  git_tags_merged : string -> result string
}.

(** The string held by an optional string, [""] for [None]. *)
Definition str_of (subpath : option string) : string :=
  match subpath with Some s => s | None => "" end.

Definition _get_semantic_version_from_tag
    (tag_name : string) (subpath : option string) : result Version :=
  let semantic_version :=
    if truthy subpath
    then py_replace tag_name (str_of subpath ++ "/v")%string ""
    else drop 1 tag_name in
  Version_parse semantic_version.

(** The loop of [_get_highest_semver_tag] over the filtered tag names;
    [highest] holds the best tag so far with its version. *)
Fixpoint highest_semver
    (major_version : N) (subpath : option string)
    (highest : option (string * Version)) (filtered_tags : list string)
  : option (string * Version) :=
  match filtered_tags with
  | [] => highest
  | tag_name :: rest =>
      let next :=
        match _get_semantic_version_from_tag tag_name subpath with
        | Raise _ => highest
        | Ok semantic_version =>
            if negb (major semantic_version =? major_version)%N then highest
            else
              match highest with
              | None => Some (tag_name, semantic_version)
              | Some (_, best) =>
                  if Version_gt semantic_version best
                  then Some (tag_name, semantic_version)
                  else highest
              end
        end in
      highest_semver major_version subpath next rest
  end.

Definition _get_highest_semver_tag
    (repo : Repo) (target_commit : Commit) (major_version : N)
    (all_reachable : bool) (subpath : option string)
  : result (option string) :=
  output <- (if all_reachable
             then git_tags_merged repo (hexsha target_commit)
             else git_tag_points_at repo (hexsha target_commit)) ;;
  let tag_names := py_splitlines output in
  let prefix :=
    if truthy subpath then (str_of subpath ++ "/v")%string
    else "v" in
  let filtered_tags :=
    filter (fun tag_name => startswith tag_name prefix) tag_names in
  match highest_semver major_version subpath None filtered_tags with
  | Some (tag, _) => Ok (Some tag)
  | None => Ok None
  end.

Definition _get_golang_pseudo_version
    (commit : Commit) (tag : option string)
    (module_major_version : option N) (subpath : option string)
  : result string :=
  committed_dt <- utcfromtimestamp (committed_date commit) ;;
  let commit_timestamp := strftime_YmdHMS committed_dt in
  let commit_hash := substring 0 12 (hexsha commit) in
  match tag with
  | None =>
      let shown :=
        match module_major_version with
        | Some n => if (n =? 0)%N then "0" else dec n
        | None => "0"
        end in
      Ok ("v" ++ shown ++ ".0.0-" ++ commit_timestamp ++ "-"
          ++ commit_hash)%string
  | Some tag_name =>
      tag_semantic_version <- _get_semantic_version_from_tag tag_name subpath ;;
      let '(version_seperator, pseudo_semantic_version) :=
        if truthy (prerelease tag_semantic_version)
        then (".", tag_semantic_version)
        else ("-", bump_patch tag_semantic_version) in
      Ok ("v" ++ Version_str pseudo_semantic_version ++ version_seperator
          ++ "0." ++ commit_timestamp ++ "-" ++ commit_hash)%string
  end.

(** First loop of [_get_golang_version]: a tag on the commit itself. *)
Fixpoint tag_on_commit_loop
    (repo : Repo) (commit : Commit) (subpath : option string)
    (majors : list N) : result (option string) :=
  match majors with
  | [] => Ok None
  | major_version :: rest =>
      tag_on_commit <-
        _get_highest_semver_tag repo commit major_version false subpath ;;
      match tag_on_commit with
      | None => tag_on_commit_loop repo commit subpath rest
      | Some tag_name =>
          Ok (Some (if negb (truthy subpath) then tag_name
                    else py_replace tag_name
                           (str_of subpath ++ "/")%string ""))
      end
  end.

(** Second loop: the highest tag reachable from the commit as the base of
    a pseudo-version. *)
Fixpoint pseudo_base_loop
    (repo : Repo) (commit : Commit) (subpath : option string)
    (majors : list N) : result (option string) :=
  match majors with
  | [] => Ok None
  | major_version :: rest =>
      pseudo_base_tag <-
        _get_highest_semver_tag repo commit major_version true subpath ;;
      match pseudo_base_tag with
      | None => pseudo_base_loop repo commit subpath rest
      | Some tag_name =>
          pseudo_version <-
            _get_golang_pseudo_version commit (Some tag_name)
              (Some major_version) subpath ;;
          Ok (Some pseudo_version)
      end
  end.

(** [_get_golang_version].  The module directory [app_dir] enters through
    the repository opened at its root and through [subpath], the position
    of the directory below that root ([None] when it is the root). *)
Definition _get_golang_version
    (module_name : string) (repo : Repo) (subpath : option string)
    (commit_sha : option string) (update_tags : bool)
  : result string :=
  module_major_version <- module_major_version_of module_name ;;
  _ <- (match (if update_tags then fetch_tags repo else None) with
        | Some ex_name =>
            Raise (FetchError
                     ("Failed to fetch the tags on the Git repository ("
                      ++ ex_name ++ ") for " ++ module_name)%string)
        | None => Ok tt
        end) ;;
  let to_try := major_versions_to_try module_major_version in
  commit_sha <- (match commit_sha with
                 | Some sha => Ok sha
                 | None => rev_parse_HEAD repo
                 end) ;;
  commit <- repo_commit repo commit_sha ;;
  on_commit <- tag_on_commit_loop repo commit subpath to_try ;;
  match on_commit with
  | Some v => Ok v
  | None =>
      pseudo <- pseudo_base_loop repo commit subpath to_try ;;
      match pseudo with
      | Some v => Ok v
      | None =>
          _get_golang_pseudo_version commit None module_major_version subpath
      end
  end.

(** ** Paths as strings ([os.path.normpath], [pathlib.PurePosixPath]) *)

Definition str_eqb_any (s : string) (l : list string) : bool := mem s l.

(** The loop of [posixpath.normpath] over the components; [new_comps] is
    kept with its last element first. *)
Fixpoint normpath_loop
    (initial_slashes : nat) (new_comps : list string) (comps : list string)
  : list string :=
  match comps with
  | [] => rev new_comps
  | comp :: rest =>
      if str_eqb_any comp [""; "."] then
        normpath_loop initial_slashes new_comps rest
      else if negb (comp =? "..")
              || ((initial_slashes =? 0)%nat
                  && match new_comps with [] => true | _ => false end)
              || match new_comps with
                 | last :: _ => last =? ".."
                 | [] => false
                 end
      then normpath_loop initial_slashes (comp :: new_comps) rest
      else normpath_loop initial_slashes (tl new_comps) rest
  end.

Fixpoint slashes (n : nat) : string :=
  match n with O => EmptyString | S n' => String "/" (slashes n') end.

Definition normpath (path : string) : string :=
  match path with
  | EmptyString => "."
  | _ =>
      let initial_slashes :=
        if startswith path "/" then
          if startswith path "//" && negb (startswith path "///")
          then 2 else 1
        else 0 in
      let comps := normpath_loop initial_slashes [] (split_on "/" path) in
      let joined := (slashes initial_slashes ++ String.concat "/" comps)%string in
      match joined with EmptyString => "." | _ => joined end
  end.

(** A parsed pure POSIX path: [anchor] is the root ([""], ["/"] or ["//"]),
    [parts] the components after it. *)
Record PurePath : Type := mkPurePath {
  anchor : string;
  parts : list string
}.

Fixpoint lstrip_slashes (s : string) : string :=
  match s with
  | String "/" s' => lstrip_slashes s'
  | _ => s
  end.

Definition splitroot (part : string) : string * string :=
  if startswith part "/" then
    let stripped := lstrip_slashes part in
    if (String.length part - String.length stripped =? 2)%nat
    then ("//", stripped) else ("/", stripped)
  else ("", part).

(** [Path(s)]: empty components and ["."] are dropped, [".."] is kept. *)
Definition Path (s : string) : PurePath :=
  let '(root, rel) := splitroot s in
  mkPurePath root
    (filter (fun x => negb (str_eqb_any x [""; "."])) (split_on "/" rel)).

(** [str(path)], also [path.as_posix()]. *)
Definition path_str (p : PurePath) : string :=
  match anchor p, parts p with
  | EmptyString, [] => "."
  | root, ps => (root ++ String.concat "/" ps)%string
  end.

Definition abs_parts (p : PurePath) : list string :=
  match anchor p with
  | EmptyString => parts p
  | root => "" :: root :: parts p
  end.

Fixpoint list_eqb (a b : list string) : bool :=
  match a, b with
  | [], [] => true
  | x :: a', y :: b' => (x =? y) && list_eqb a' b'
  | _, _ => false
  end.

(** [self.relative_to(other)].  A successful result never has an anchor:
    a single-element [other] has none, and then neither has [self]. *)
Definition relative_to (self other : PurePath) : result PurePath :=
  let to_abs_parts := abs_parts other in
  let n := List.length to_abs_parts in
  let mismatch :=
    if (n =? 0)%nat then negb (anchor self =? "")
    else negb (list_eqb (firstn n (abs_parts self)) to_abs_parts) in
  if mismatch then Raise ValueError
  else Ok (mkPurePath "" (skipn n (abs_parts self))).

Definition is_relative_to (self : PurePath) (other : string) : bool :=
  match relative_to self (Path other) with
  | Ok _ => true
  | Raise _ => false
  end.

(** ** Canonical modules *)

Fixpoint mapM {A B : Type} (f : A -> result B) (l : list A)
  : result (list B) :=
  match l with
  | [] => Ok []
  | x :: l' => y <- f x ;; ys <- mapM f l' ;; Ok (y :: ys)
  end.

Definition _resolve_path_for_local_replacement
    (main_module : Module) (module : ParsedModule) : result string :=
  match pm_replace module with
  | None =>
      Raise (RuntimeError
               "Can't resolve path for a module that was not replaced")
  | Some replace =>
      let path := (real_path main_module ++ "/" ++ pm_path replace)%string in
      Ok (path_str (Path (normpath path)))
  end.

Definition _create_module
    (main_module : Module) (main_module_dir : RootedPath) (repo : Repo)
    (module : ParsedModule) : result Module :=
  match pm_replace module with
  | None =>
      let name := pm_path module in
      let version :=
        if truthy (pm_version module)
        then str_of (pm_version module) else "" in
      Ok (mkModule name name name version false)
  | Some replace =>
      if truthy (pm_version replace) then
        let name := pm_path replace in
        let version := str_of (pm_version replace) in
        Ok (mkModule name (pm_path module) name version false)
      else
        let name := pm_path module in
        resolved_replacement_path <-
          join_within_root main_module_dir (pm_path replace) ;;
        version <-
          _get_golang_version (pm_path module) repo
            (subpath_from_root resolved_replacement_path) None false ;;
        real_path <- _resolve_path_for_local_replacement main_module module ;;
        Ok (mkModule name name real_path version false)
  end.

Definition _create_modules_from_parsed_data
    (main_module : Module) (main_module_dir : RootedPath) (repo : Repo)
    (parsed_modules : list ParsedModule) : result (list Module) :=
  mapM (_create_module main_module main_module_dir repo) parsed_modules.

(** ** Canonical packages *)

(** [Union[Package, StandardPackage]]. *)
Inductive AnyPackage : Type :=
| Package (relative_path : string) (module : Module)
| StandardPackage (name : string).

(** [Package.name] and [Package.real_path]. *)
Definition Package_name (relative_path : string) (module : Module) : string :=
  match relative_path with
  | EmptyString => name module
  | _ => (name module ++ "/" ++ relative_path)%string
  end.

Definition Package_real_path (relative_path : string) (module : Module)
  : string :=
  match relative_path with
  | EmptyString => real_path module
  | _ => (real_path module ++ "/" ++ relative_path)%string
  end.

(** The arguments given to [PackageURL] by the [purl] properties. *)
Record PackageURL : Type := mkPackageURL {
  purl_type : string;
  purl_name : string;
  purl_version : option string;
  purl_qualifiers : list (string * string)
}.

Definition Module_purl (m : Module) : PackageURL :=
  mkPackageURL "golang" (real_path m) (Some (version m))
    [("type", "module")].

Definition AnyPackage_purl (p : AnyPackage) : PackageURL :=
  match p with
  | Package relative_path module =>
      mkPackageURL "golang" (Package_real_path relative_path module)
        (Some (version module)) [("type", "package")]
  | StandardPackage name =>
      mkPackageURL "golang" name None [("type", "package")]
  end.

(** [{module.original_name: module for module in modules}] *)
Definition index_modules (modules : list Module) : dict :=
  fold_left (fun d module => dict_set String.eqb d (original_name module) module)
    modules [].

(** [max(names, key=len, default=None)]: the first of the longest. *)
Fixpoint max_by_len (best : option string) (names : list string)
  : option string :=
  match names with
  | [] => best
  | k :: rest =>
      match best with
      | None => max_by_len (Some k) rest
      | Some b =>
          if (String.length b <? String.length k)%nat
          then max_by_len (Some k) rest
          else max_by_len best rest
      end
  end.

Definition dict_lookup (d : @dict string Module) (k : string)
  : result Module :=
  match dict_get String.eqb d k with
  | Some m => Ok m
  | None => Raise (KeyError k)
  end.

Definition _find_parent_module_by_name
    (indexed_modules : @dict string Module) (package : ParsedPackage)
  : result Module :=
  let path := Path (import_path package) in
  let matched_name :=
    max_by_len None
      (filter (is_relative_to path) (dict_keys indexed_modules)) in
  if negb (truthy matched_name)
  then Raise (RuntimeError "Package parent module was not found")
  else dict_lookup indexed_modules (str_of matched_name).

Definition _resolve_package_relative_path
    (package : ParsedPackage) (module : Module) : result string :=
  relative_path <-
    relative_to (Path (import_path package)) (Path (original_name module)) ;;
  Ok (removeprefix (path_str relative_path) ".").

Definition _create_package
    (indexed_modules : @dict string Module) (package : ParsedPackage)
  : result AnyPackage :=
  if standard package then Ok (StandardPackage (import_path package))
  else
    module <-
      match pp_module package with
      | None => _find_parent_module_by_name indexed_modules package
      | Some m => dict_lookup indexed_modules (pm_path m)
      end ;;
    relative_path <- _resolve_package_relative_path package module ;;
    Ok (Package relative_path module).

Definition _create_packages_from_parsed_data
    (modules : list Module) (parsed_packages : list ParsedPackage)
  : result (list AnyPackage) :=
  mapM (_create_package (index_modules modules)) parsed_packages.

(** * Notions used by the statements *)

(** [m] is the first module of [walk] carrying its key. *)
Definition first_with_key (walk : list ParsedModule) (m : ParsedModule)
  : Prop :=
  exists i,
    nth_error walk i = Some m /\
    forall j m', j < i -> nth_error walk j = Some m' ->
                 get_unique_key m' <> get_unique_key m.

(** One turn of the merge loop. *)
Definition merge_step (d : @dict Key ParsedModule) (module : ParsedModule)
  : @dict Key ParsedModule :=
  setdefault Key_eqb d (get_unique_key module) module.

(** Every entry of the dictionary sits under its own key. *)
Definition keyed (d : @dict Key ParsedModule) : Prop :=
  forall k v, In (k, v) d -> k = get_unique_key v.

(** [needle in haystack] for strings. *)
Definition contains (haystack needle : string) : bool :=
  match String.index 0 needle haystack with
  | Some _ => true
  | None => false
  end.

(** The four kinds of line of [vendor/modules.txt], told apart as the loop
    of [_parse_vendor] does. *)
Inductive LineKind : Type :=
| ModuleLine
| PackageLine
| MarkerLine
| OtherHashLine.

Definition classify (line : string) : LineKind :=
  if startswith line "# " then ModuleLine
  else if negb (startswith line "#") then PackageLine
  else if startswith line "##" then MarkerLine
  else OtherHashLine.

(** The five documented shapes of a module line, on its
    whitespace-separated fields. *)
Inductive module_shape : list string -> ParsedModule -> Prop :=
| shape_name_version name version :
    module_shape [name; version]
      (mkParsedModule name (Some version) false None)
| shape_name_path name path :
    module_shape [name; "=>"; path]
      (mkParsedModule name None false
         (Some (mkParsedModule path None false None)))
| shape_name_new name new_name new_version :
    module_shape [name; "=>"; new_name; new_version]
      (mkParsedModule name None false
         (Some (mkParsedModule new_name (Some new_version) false None)))
| shape_name_version_path name version path :
    module_shape [name; version; "=>"; path]
      (mkParsedModule name (Some version) false
         (Some (mkParsedModule path None false None)))
| shape_name_version_new name version new_name new_version :
    module_shape [name; version; "=>"; new_name; new_version]
      (mkParsedModule name (Some version) false
         (Some (mkParsedModule new_name (Some new_version) false None))).

Definition module_fields (line : string) : list string :=
  py_split (removeprefix line "# ").

(** Is there a package line before the next module line? *)
Fixpoint has_package_line (lines : list string) : bool :=
  match lines with
  | [] => false
  | line :: rest =>
      match classify line with
      | ModuleLine => false
      | PackageLine => true
      | _ => has_package_line rest
      end
  end.

(** The modules of the manifest that are followed by a package line of
    their own, in order. *)
Fixpoint modules_with_packages (lines : list string) : list ParsedModule :=
  match lines with
  | [] => []
  | line :: rest =>
      match classify line, parse_module_line line with
      | ModuleLine, Ok m =>
          if has_package_line rest then m :: modules_with_packages rest
          else modules_with_packages rest
      | _, _ => modules_with_packages rest
      end
  end.

(** Line [i] is one the manifest may not hold: a module line of none of
    the five shapes, a [#] line that is neither a module line nor a [##]
    marker, or a package line with no module line before it. *)
Definition bad_line (lines : list string) (i : nat) : Prop :=
  exists line,
    nth_error lines i = Some line /\
    ((classify line = ModuleLine /\
      ~ exists m, module_shape (module_fields line) m) \/
     classify line = OtherHashLine \/
     (classify line = PackageLine /\
      forall j l, j < i -> nth_error lines j = Some l ->
                  classify l <> ModuleLine)).

(** No line of [lines] is bad, [opened] telling whether a module line
    came before them. *)
Fixpoint lines_ok (opened : bool) (lines : list string) : Prop :=
  match lines with
  | [] => True
  | line :: rest =>
      match classify line with
      | ModuleLine =>
          (exists m, module_shape (module_fields line) m) /\
          lines_ok true rest
      | PackageLine => opened = true /\ lines_ok opened rest
      | MarkerLine => lines_ok opened rest
      | OtherHashLine => False
      end
  end.

Definition is_module_line (line : string) : bool :=
  match classify line with ModuleLine => true | _ => false end.

Definition is_marker_line (line : string) : bool :=
  match classify line with MarkerLine => true | _ => false end.

(** A manifest file with the given text, in an otherwise empty directory. *)
Definition dir_with_manifest (text : string) : RootedPath :=
  mkRootedPath None
    (fun rel =>
       if rel =? "vendor/modules.txt"
       then Some (mkResolved (Some rel) (RegularFile text))
       else Some (mkResolved (Some rel) Absent)).

Definition nonempty {A : Type} (l : list A) : bool :=
  match l with [] => false | _ => true end.

(** The flags with [b] added to the last of them. *)
Fixpoint mark_last (has : list bool) (b : bool) : list bool :=
  match has with
  | [] => []
  | [x] => [x || b]
  | x :: rest => x :: mark_last rest b
  end.

(** [name] is a non-empty prefix free of line feeds, then [/v], then the
    decimal digits [ds], then at most one final line feed. *)
Definition names_major (name ds : string) : Prop :=
  exists pre tail,
    name = (pre ++ "/v" ++ ds ++ tail)%string /\
    pre <> "" /\ contains_char LF pre = false /\
    ds <> "" /\ all_chars isdigit ds = true /\
    (tail = "" \/ tail = NL).

(** The digits are few enough for [int]. *)
Definition within_int_limit (ds : string) : Prop :=
  (N.of_nat (String.length ds) <= int_max_str_digits)%N.

(** The major versions the reifier tries for a module name. *)
Definition candidate_major_versions (module_name : string)
  : result (list N) :=
  module_major_version <- module_major_version_of module_name ;;
  Ok (major_versions_to_try module_major_version).

Fixpoint last_char (s : string) : option ascii :=
  match s with
  | EmptyString => None
  | String c EmptyString => Some c
  | String _ s' => last_char s'
  end.

(** The characters a string accepted by [Version_parse] is made of. *)
Definition semver_char (c : ascii) : bool :=
  isalnum_hyphen c || Ascii.eqb c "." || Ascii.eqb c "+" || Ascii.eqb c LF.

(** The replacement loop is inside an occurrence of [old] with [skip]
    characters still to pass: [s] starts with the last [skip] characters
    of [old]. *)
Definition inside_occurrence (old : string) (skip : nat) (s : string)
  : Prop :=
  exists w u, old = (w ++ u)%string /\ String.length u = skip /\
              startswith s u = true.

(** ** Sample inputs *)

(** A module directory holding only a [vendor] directory. *)
Definition dir_with_vendor : RootedPath :=
  mkRootedPath None
    (fun rel =>
       if rel =? "vendor" then Some (mkResolved (Some "vendor") Directory)
       else Some (mkResolved (Some rel) Absent)).

(** An empty module directory. *)
Definition empty_dir : RootedPath :=
  mkRootedPath None (fun rel => Some (mkResolved (Some rel) Absent)).

(** A module directory from which every path starting with [..] leads out
    of the root. *)
Definition dir_with_escape : RootedPath :=
  mkRootedPath None
    (fun rel =>
       if startswith rel ".." then None
       else Some (mkResolved (Some rel) Directory)).

(** A manifest with a marker line, a module without packages and a
    replaced module with one package. *)
Definition sample_manifest : string :=
  "# example.com/a v1.0.0" ++ NL
  ++ "## explicit" ++ NL
  ++ "# example.com/b v1.0.0 => example.com/c v1.1.0" ++ NL
  ++ "## explicit; go 1.19" ++ NL
  ++ "example.com/b/sub" ++ NL.

(** A module name whose major version is written with 4301 digits. *)
Fixpoint ones (n : nat) : string :=
  match n with
  | O => EmptyString
  | S n' => String "1" (ones n')
  end.

Definition name_with_long_major : string := "example.com/a/v" ++ ones 4301.

(** The commit of the specification's scenarios: committed at
    2024-01-02T03:04:05Z. *)
Definition sample_commit : Commit :=
  mkCommit "abcdef0123456789abcdef0123456789abcdef01" 1704164645%N.

(** A repository whose head is [sample_commit], with the given outputs
    of the two tag listings. *)
Definition sample_repo (tags_on_commit tags_merged : string) : Repo :=
  mkRepo None (Ok (hexsha sample_commit))
    (fun sha =>
       if sha =? hexsha sample_commit then Ok sample_commit
       else Raise ValueError)
    (fun _ => Ok tags_on_commit)
    (fun _ => Ok tags_merged).

(** The main module of the specification's scenarios. *)
Definition sample_main_module : Module :=
  mkModule "example.com/a" "example.com/a" "example.com/a" "v1.2.3" false.

(** [replace example.com/b v1.0.0 => example.com/c v1.1.0] *)
Definition sample_replaced_module : ParsedModule :=
  mkParsedModule "example.com/b" (Some "v1.0.0") false
    (Some (mkParsedModule "example.com/c" (Some "v1.1.0") false None)).

(** [replace example.com/d => ./local] *)
Definition sample_local_module : ParsedModule :=
  mkParsedModule "example.com/d" None false
    (Some (mkParsedModule "./local" None false None)).

(** A module listed without version and without replacement. *)
Definition sample_bare_module : ParsedModule :=
  mkParsedModule "example.com/x" None false None.

(** A module directory at the root of the repository, holding a
    directory [local]. *)
Definition dir_with_local : RootedPath :=
  mkRootedPath None
    (fun rel =>
       if rel =? "./local" then Some (mkResolved (Some "local") Directory)
       else Some (mkResolved (Some rel) Absent)).

(** What creation guarantees of the version of a module. *)
Definition version_as_created (parsed : ParsedModule) (m : Module) : Prop :=
  (pm_replace parsed = None -> version m = str_of (pm_version parsed)) /\
  (pm_replace parsed <> None \/ truthy (pm_version parsed) = true ->
   version m <> "").

(** The module made of [sample_replaced_module]. *)
Definition sample_replaced_created : Module :=
  mkModule "example.com/c" "example.com/b" "example.com/c" "v1.1.0" false.

(** A path element as import paths have them: not empty, not [.], free
    of slashes. *)
Definition clean_component (c : string) : bool :=
  negb (c =? "") && negb (c =? ".") && negb (contains_char "/" c).

(** * Further functions of the resolver *)

(** ** Name of the repository *)

(** [s.rstrip(c)] for a single character [c]. *)
Fixpoint rstrip_char (c : ascii) (s : string) : string :=
  match s with
  | EmptyString => EmptyString
  | String a s' =>
      match rstrip_char c s' with
      | EmptyString =>
          if Ascii.eqb a c then EmptyString else String a EmptyString
      | r => String a r
      end
  end.

(** [s.endswith(suffix)] and [s.removesuffix(suffix)]. *)
Definition endswith (s suffix : string) : bool :=
  (String.length suffix <=? String.length s)%nat
  && (drop (String.length s - String.length suffix) s =? suffix).

Definition removesuffix (s suffix : string) : string :=
  if endswith s suffix
  then substring 0 (String.length s - String.length suffix) s
  else s.

(** [_get_repository_name]: [hostname] and [path] are the fields of the
    parsed origin URL; a missing host name is rendered [None] by the
    f-string. *)
Definition _get_repository_name (hostname : option string) (path : string)
  : string :=
  (match hostname with Some h => h | None => "None" end
   ++ removesuffix (rstrip_char "/" path) ".git")%string.

(** ** The main module *)

Definition _create_main_module_from_parsed_data
    (main_module_dir : RootedPath) (repo_name : string)
    (parsed_main_module : ParsedModule) : result Module :=
  let resolved_subpath :=
    match rp_subpath main_module_dir with Some s => s | None => "." end in
  let resolved_path :=
    if resolved_subpath =? "." then repo_name
    else (repo_name ++ "/" ++ resolved_subpath)%string in
  if negb (truthy (pm_version parsed_main_module)) then
    Raise (RuntimeError
             ("Version was not identified for main module at "
              ++ resolved_subpath))
  else
    Ok (mkModule (pm_path parsed_main_module) (pm_path parsed_main_module)
          resolved_path (str_of (pm_version parsed_main_module)) false).

(** ** Running the toolchain *)

(** What [run_cmd] can do: return the output, raise
    [subprocess.CalledProcessError] with a return code, or raise something
    else. *)
Inductive CmdOutcome : Type :=
| Finished (stdout : string)
| CalledProcessError (returncode : Z)
| OtherFailure (e : Error).

(** [str(n)] for an [int] of either sign. *)
Definition decZ (z : Z) : string :=
  match z with
  | Zneg p => ("-" ++ dec (Npos p))%string
  | _ => dec (Z.to_N z)
  end.

(** [_run_gomod_cmd]: a non-zero exit becomes [GoModError]. *)
Definition _run_gomod_cmd (cmd : list string) (outcome : CmdOutcome)
  : result string :=
  match outcome with
  | Finished stdout => Ok stdout
  | CalledProcessError rc =>
      Raise (GoModError
               ("Processing gomod dependencies failed: `"
                ++ String.concat " " cmd ++ "` failed with rc=" ++ decZ rc))
  | OtherFailure e => Raise e
  end.

(** The loop of [backoff.on_exception(backoff.expo, GoModError,
    max_tries=n_tries)] around [run_go]: [attempt k] is what the [k]-th
    call of the command does, [tries] counts the calls made so far, [fuel]
    bounds the length of the loop, which gives up when the count of tries
    equals [max_tries].  [None] stands for a loop still running when the
    fuel is spent. *)
Fixpoint run_go
    (fuel : nat) (cmd : list string) (attempt : nat -> CmdOutcome)
    (max_tries tries : nat) : option (result string) :=
  match fuel with
  | O => None
  | S fuel' =>
      let tries := S tries in
      match _run_gomod_cmd cmd (attempt tries) with
      | Ok stdout => Some (Ok stdout)
      | Raise (GoModError msg) =>
          if (tries =? max_tries)%nat then Some (Raise (GoModError msg))
          else run_go fuel' cmd attempt max_tries tries
      | Raise e => Some (Raise e)
      end
  end.

(** [_run_download_cmd]: the [GoModError] left when the loop gives up is
    replaced by one that tells the number of tries. *)
Definition _run_download_cmd
    (fuel : nat) (cmd : list string) (attempt : nat -> CmdOutcome)
    (n_tries : nat) : option (result string) :=
  match run_go fuel cmd attempt n_tries 0 with
  | Some (Raise (GoModError _)) =>
      Some (Raise (GoModError
                     ("Processing gomod dependencies failed. Cachi2 tried the "
                      ++ String.concat " " cmd ++ " command "
                      ++ dec (N.of_nat n_tries) ++ " times.")))
  | r => r
  end.

(** ** Guard against symbolic links *)

Definition symlink_solution : string :=
  "Found a potentially harmful symlink, which would make the go command read "
  ++ "a file outside of your source repository. Refusing to proceed.".

Definition check_potential_symlink
    (app_dir : RootedPath) (relative_path : string) : result unit :=
  match join_within_root app_dir relative_path with
  | Ok _ => Ok tt
  | Raise (PathOutsideRoot _) => Raise (PathOutsideRoot (Some symlink_solution))
  | Raise e => Raise e
  end.

Fixpoint check_each
    (app_dir : RootedPath) (relative_paths : list string) : result unit :=
  match relative_paths with
  | [] => Ok tt
  | p :: rest =>
      _ <- check_potential_symlink app_dir p ;; check_each app_dir rest
  end.

(** [_protect_against_symlinks]: [go_files] lists, relative to the module
    directory, the files found by [rglob("*.go")]. *)
Definition _protect_against_symlinks
    (app_dir : RootedPath) (go_files : list string) : result unit :=
  check_each app_dir (["go.mod"; "go.sum"; "vendor/modules.txt"] ++ go_files).

(** ** Missing [go.mod] files *)

(** The loop of [_find_missing_gomod_files]; the file of a sub-path is
    looked up under [<subpath>/go.mod], and a missing one is reported by
    that path. *)
Fixpoint _find_missing_gomod_files
    (source_path : RootedPath) (subpaths : list string)
  : result (list string) :=
  match subpaths with
  | [] => Ok []
  | subpath :: rest =>
      package_gomod_path <-
        join_within_root source_path (subpath ++ "/go.mod") ;;
      invalid <- _find_missing_gomod_files source_path rest ;;
      Ok (if negb (path_exists package_gomod_path)
          then (subpath ++ "/go.mod")%string :: invalid
          else invalid)
  end.

(** ** Changes of the vendor tree *)

(** The git commands of [_vendor_changed] and what each of them does in
    the working copy at hand. *)
Inductive GitCall : Type :=
| GitAddIntent
| GitDiffModulesTxt
| GitDiffVendor
| GitReset.

Record VendorGit : Type := mkVendorGit {
  git_add_intent : result unit;
  git_diff_modules_txt : result string;
  git_diff_vendor : result string;
  git_reset : result unit
}.

(** The body of the [try] block: its result and the commands it ran. *)
Definition vendor_changed_body (git : VendorGit)
  : result bool * list GitCall :=
  match git_diff_modules_txt git with
  | Raise e => (Raise e, [GitDiffModulesTxt])
  | Ok modules_txt_diff =>
      if negb (modules_txt_diff =? "") then (Ok true, [GitDiffModulesTxt])
      else
        match git_diff_vendor git with
        | Raise e => (Raise e, [GitDiffModulesTxt; GitDiffVendor])
        | Ok vendor_diff =>
            (Ok (negb (vendor_diff =? "")),
             [GitDiffModulesTxt; GitDiffVendor])
        end
  end.

(** [_vendor_changed]: the result together with the git commands run, in
    order.  The [finally] clause resets the index; an error of the reset
    takes the place of the body's outcome. *)
Definition _vendor_changed (git : VendorGit) : result bool * list GitCall :=
  match git_add_intent git with
  | Raise e => (Raise e, [GitAddIntent])
  | Ok _ =>
      let '(outcome, calls) := vendor_changed_body git in
      let calls := (GitAddIntent :: calls) ++ [GitReset] in
      match git_reset git with
      | Raise e => (Raise e, calls)
      | Ok _ => (outcome, calls)
      end
  end.

(** ** Resolution of one module directory *)

(** [s.rstrip()]: trailing whitespace is dropped. *)
Fixpoint rstrip_ws (s : string) : string :=
  match s with
  | EmptyString => EmptyString
  | String a s' =>
      match rstrip_ws s' with
      | EmptyString => if isspace a then EmptyString else String a EmptyString
      | r => String a r
      end
  end.

(** What lies outside the resolver while a module directory is resolved:
    the Go files found at the start, the outcome of the retried
    [go mod vendor] (the directory as it leaves it) and of the retried
    [go mod download -json] (its output), the git commands that compare
    the vendor tree, the outcome of every other [go] command by its
    command line, the decoders of the JSON streams
    ([load_json_stream] with [parse_obj]), the repository, and the module
    directory as it is once all commands have run. *)
Record Toolchain : Type := mkToolchain {
  tc_go_files : list string;
  tc_vendor : result RootedPath;
  tc_vendor_git : RootedPath -> VendorGit;
  tc_download : result string;
  tc_run : list string -> CmdOutcome;
  tc_load_modules : string -> result (list ParsedModule);
  tc_load_packages : string -> result (list ParsedPackage);
  tc_repo : Repo;
  tc_final_dir : RootedPath
}.

(** [go list -e], with [-mod readonly] when not vendoring. *)
Definition go_list_cmd (should_vendor : bool) : list string :=
  ["go"; "list"; "-e"] ++ (if should_vendor then [] else ["-mod"; "readonly"]).

(** The command line of [go_list_deps(pattern)]. *)
Definition go_list_deps_cmd (should_vendor : bool) (pattern : string)
  : list string :=
  go_list_cmd should_vendor
  ++ ["-deps"; "-json=ImportPath,Module,Standard,Deps"; pattern].

(** [module for pkg in ... if (module := pkg.module) and not module.main] *)
Definition package_modules_of (packages : list ParsedPackage)
  : list ParsedModule :=
  flat_map
    (fun pkg =>
       match pp_module pkg with
       | Some module => if pm_main module then [] else [module]
       | None => []
       end)
    packages.

(** [_resolve_gomod].  The streams of modules and packages are decoded
    when they are walked: the packages of [all] and then the downloaded
    modules during the merge, the packages of [./...] right after their
    command. *)
Definition _resolve_gomod
    (app_dir : RootedPath) (flags : list string) (strict : bool)
    (tc : Toolchain)
  : result (ParsedModule * list ParsedModule * list ParsedPackage) :=
  _ <- _protect_against_symlinks app_dir (tc_go_files tc) ;;
  vendoring <- _should_vendor_deps flags app_dir strict ;;
  let '(should_vendor, can_make_changes) := vendoring in
  downloaded <-
    (if should_vendor then
       modules <-
         _vendor_deps (tc_vendor tc)
           (fun dir => fst (_vendor_changed (tc_vendor_git tc dir)))
           can_make_changes ;;
       Ok (inl modules)
     else
       stdout <- tc_download tc ;; Ok (inr stdout)) ;;
  _ <- (if mem "force-gomod-tidy" flags
        then _run_gomod_cmd ["go"; "mod"; "tidy"]
               (tc_run tc ["go"; "mod"; "tidy"])
        else Ok "") ;;
  let list_m := go_list_cmd should_vendor ++ ["-m"] in
  name_output <- _run_gomod_cmd list_m (tc_run tc list_m) ;;
  let main_module_name := rstrip_ws name_output in
  version <-
    _get_golang_version main_module_name (tc_repo tc) (rp_subpath app_dir)
      None true ;;
  let main_module := mkParsedModule main_module_name (Some version) true None in
  let list_all := go_list_deps_cmd should_vendor "all" in
  all_output <- _run_gomod_cmd list_all (tc_run tc list_all) ;;
  packages_of_all <- tc_load_packages tc all_output ;;
  let package_modules := package_modules_of packages_of_all in
  downloaded_modules <-
    match downloaded with
    | inl modules => Ok modules
    | inr stdout => tc_load_modules tc stdout
    end ;;
  let all_modules :=
    _deduplicate_resolved_modules package_modules downloaded_modules in
  let list_here := go_list_deps_cmd should_vendor "./..." in
  here_output <- _run_gomod_cmd list_here (tc_run tc list_here) ;;
  all_packages <- tc_load_packages tc here_output ;;
  _ <- _validate_local_replacements all_modules (tc_final_dir tc) ;;
  Ok (main_module, all_modules, all_packages).

(** * Notions used by the further statements *)

(** A field of a line: not empty and free of whitespace. *)
Definition is_token (w : string) : Prop :=
  w <> "" /\ all_chars (fun c => negb (isspace c)) w = true.

Definition opt_token (o : option string) : Prop :=
  match o with Some w => is_token w | None => True end.

(** A module as a line of the vendor manifest can give it: fields that
    are tokens, never the main module, a replacement at most one level
    deep, and a version or a replacement in every case. *)
Definition manifest_module (m : ParsedModule) : Prop :=
  is_token (pm_path m) /\ opt_token (pm_version m) /\ pm_main m = false /\
  match pm_replace m with
  | None => pm_version m <> None
  | Some r =>
      is_token (pm_path r) /\ opt_token (pm_version r) /\
      pm_main r = false /\ pm_replace r = None
  end.

(** How a created module relates to the parsed module it is made of. *)
Definition named_as_created (parsed : ParsedModule) (m : Module) : Prop :=
  original_name m = pm_path parsed /\ main m = false /\
  match pm_replace parsed with
  | Some r =>
      if truthy (pm_version r)
      then name m = pm_path r /\ real_path m = pm_path r
      else name m = pm_path parsed
  | None => name m = pm_path parsed /\ real_path m = pm_path parsed
  end.

(** A local replacement: a replacement without version. *)
Definition local_replacement (parsed : ParsedModule) (path : string) : Prop :=
  exists r, pm_replace parsed = Some r /\ truthy (pm_version r) = false /\
            pm_path r = path.

(** A command that fails with exit code 1 on its first two runs and
    succeeds from the third on. *)
Definition flaky_attempt (k : nat) : CmdOutcome :=
  if (k <? 3)%nat then CalledProcessError 1 else Finished "done".

(** The message of the error raised once the download command has been
    tried [n_tries] times. *)
Definition tries_exhausted (cmd : list string) (n_tries : nat) : Error :=
  GoModError
    ("Processing gomod dependencies failed. Cachi2 tried the "
     ++ String.concat " " cmd ++ " command "
     ++ dec (N.of_nat n_tries) ++ " times.").

(** Is the [go.mod] file of a sub-path found missing? *)
Definition gomod_absent (source_path : RootedPath) (subpath : string) : bool :=
  match lookup source_path (subpath ++ "/go.mod") with
  | Some r => negb (path_exists r)
  | None => false
  end.

(** The repository [repo] with another output of the listing of merged
    tags. *)
Definition with_tags_merged (repo : Repo) (merged : string -> result string)
  : Repo :=
  mkRepo (fetch_tags repo) (rev_parse_HEAD repo) (repo_commit repo)
    (git_tag_points_at repo) merged.


(** A path element that names something: clean and not [..]. *)
Definition plain_component (c : string) : bool :=
  clean_component c && negb (c =? "..").

(** The elements [.] and [..] that open a relative path. *)
Definition dot_component (c : string) : bool := (c =? ".") || (c =? "..").

(** How many levels a list of elements climbs. *)
Definition count_up (comps : list string) : nat :=
  List.length (filter (fun c => c =? "..") comps).

(** A vendoring run on a module [example.com/a] tagged [v1.2.3]: the
    manifest is [sample_manifest] once [go mod vendor] has run, every
    [go list] prints the module name, and the package streams hold one
    package of a local replacement. *)
Definition sample_toolchain : Toolchain :=
  mkToolchain ["main.go"]
    (Ok (dir_with_manifest sample_manifest))
    (fun _ => mkVendorGit (Ok tt) (Ok "") (Ok "") (Ok tt))
    (Ok "")
    (fun _ => Finished ("example.com/a" ++ NL))
    (fun _ => Ok [])
    (fun _ =>
       Ok [mkParsedPackage "example.com/d/pkg" false (Some sample_local_module)])
    (sample_repo "v1.2.3" "")
    dir_with_local.

(** * Properties *)

(** ** Merge of the module views *)

Lemma opt_eqb_eq (a b : option string) : opt_eqb a b = true <-> a = b.
Proof.
  destruct a as [x|], b as [y|]; simpl; split; intro H;
    try discriminate; try reflexivity.
  - apply String.eqb_eq in H. now subst.
  - inversion H. apply String.eqb_refl.
Qed.

Lemma Key_eqb_eq (a b : Key) : Key_eqb a b = true <-> a = b.
Proof.
  destruct a as [a1 a2], b as [b1 b2]. unfold Key_eqb. simpl.
  rewrite andb_true_iff, String.eqb_eq, opt_eqb_eq.
  split.
  - intros [-> ->]. reflexivity.
  - intro H. inversion H. split; reflexivity.
Qed.

Lemma dict_mem_In (d : @dict Key ParsedModule) (k : Key) :
  dict_mem Key_eqb d k = true <-> In k (dict_keys d).
Proof.
  unfold dict_mem, dict_keys. rewrite existsb_exists, in_map_iff.
  split.
  - intros [kv [Hin Heq]]. apply Key_eqb_eq in Heq. now exists kv.
  - intros [kv [Heq Hin]]. exists kv. split; [assumption|].
    now apply Key_eqb_eq.
Qed.

Lemma merge_step_keyed d m : keyed d -> keyed (merge_step d m).
Proof.
  intros Hk. unfold merge_step, setdefault.
  destruct (dict_mem Key_eqb d (get_unique_key m)); [assumption|].
  intros k v Hin. apply in_app_or in Hin as [Hin | [Heq | []]].
  - now apply Hk.
  - now inversion Heq.
Qed.

Lemma merge_step_nodup d m :
  NoDup (dict_keys d) -> NoDup (dict_keys (merge_step d m)).
Proof.
  intros Hnd. unfold merge_step, setdefault.
  destruct (dict_mem Key_eqb d (get_unique_key m)) eqn:E; [assumption|].
  unfold dict_keys in *. rewrite map_app. simpl.
  apply NoDup_app_remove_l with (l := []). simpl.
  apply NoDup_rev in Hnd.
  rewrite <- (rev_involutive (map fst d ++ [get_unique_key m])).
  apply NoDup_rev. rewrite rev_app_distr. simpl. constructor.
  - intro Hin. apply in_rev in Hin.
    assert (Hm : dict_mem Key_eqb d (get_unique_key m) = true)
      by now apply dict_mem_In.
    congruence.
  - assumption.
Qed.

Lemma merge_fold_spec (l : list ParsedModule) :
  forall d, keyed d -> NoDup (dict_keys d) ->
    let d' := fold_left merge_step l d in
    keyed d' /\ NoDup (dict_keys d') /\
    forall m, In m (dict_values d') <->
              In m (dict_values d) \/
              (~ In (get_unique_key m) (dict_keys d) /\ first_with_key l m).
Proof.
  induction l as [|a l IH]; intros d Hk Hnd; simpl.
  - repeat split; try assumption.
    + now left.
    + intros [H | [_ [i [Hi _]]]]; [assumption|].
      destruct i; discriminate.
  - specialize (IH (merge_step d a) (merge_step_keyed d a Hk)
                   (merge_step_nodup d a Hnd)).
    simpl in IH. destruct IH as [Hk' [Hnd' Hiff]].
    repeat split; try assumption.
    + intro Hin. apply Hiff in Hin. clear Hiff.
      unfold merge_step, setdefault in Hin.
      destruct (dict_mem Key_eqb d (get_unique_key a)) eqn:E.
      * apply dict_mem_In in E.
        destruct Hin as [Hin | [Hnot [i [Hi Hfirst]]]]; [now left|].
        right. split; [assumption|]. exists (S i). split; [assumption|].
        intros j m' Hj Hm'. destruct j as [|j]; simpl in Hm'.
        -- inversion Hm'; subst. intro Heq. rewrite Heq in E. contradiction.
        -- apply (Hfirst j); [lia | assumption].
      * unfold dict_values, dict_keys in *.
        rewrite map_app in Hin. simpl in Hin.
        destruct Hin as [Hin | [Hnot [i [Hi Hfirst]]]].
        -- apply in_app_or in Hin as [Hin | [Heq | []]]; [now left|].
           subst. right. split.
           ++ intro Hin. apply dict_mem_In in Hin. congruence.
           ++ exists 0. split; [reflexivity|]. intros j m' Hj. lia.
        -- rewrite map_app in Hnot. simpl in Hnot. right. split.
           ++ intro Hin. apply Hnot. apply in_or_app. now left.
           ++ exists (S i). split; [assumption|].
              intros j m' Hj Hm'. destruct j as [|j]; simpl in Hm'.
              ** inversion Hm'; subst. intro Heq. apply Hnot.
                 apply in_or_app. right. left. assumption.
              ** apply (Hfirst j); [lia | assumption].
    + intro H. apply Hiff. clear Hiff.
      unfold merge_step, setdefault.
      destruct (dict_mem Key_eqb d (get_unique_key a)) eqn:E.
      * apply dict_mem_In in E.
        destruct H as [Hin | [Hnot [i [Hi Hfirst]]]]; [now left|].
        right. split; [assumption|].
        destruct i as [|i]; simpl in Hi.
        -- inversion Hi; subst. contradiction.
        -- exists i. split; [assumption|]. intros j m' Hj Hm'.
           apply (Hfirst (S j)); [lia | assumption].
      * unfold dict_values, dict_keys in *. rewrite !map_app. simpl.
        destruct H as [Hin | [Hnot [i [Hi Hfirst]]]].
        -- left. apply in_or_app. now left.
        -- destruct i as [|i]; simpl in Hi.
           ++ inversion Hi; subst. left. apply in_or_app. right. now left.
           ++ right. split.
              ** intro Hin. apply in_app_or in Hin as [Hin | [Heq | []]].
                 --- contradiction.
                 --- apply (Hfirst 0 a); [lia | reflexivity | assumption].
              ** exists i. split; [assumption|]. intros j m' Hj Hm'.
                 apply (Hfirst (S j)); [lia | assumption].
Qed.

Lemma keyed_values_keys (d : @dict Key ParsedModule) :
  keyed d -> map get_unique_key (dict_values d) = dict_keys d.
Proof.
  unfold keyed, dict_values, dict_keys.
  induction d as [|[k v] d IH]; intro Hk; simpl; [reflexivity|].
  rewrite IH.
  - rewrite <- (Hk k v); [reflexivity | now left].
  - intros k' v' Hin. apply Hk. now right.
Qed.

Lemma first_with_key_exists (walk : list ParsedModule) :
  forall m, In m walk ->
    exists m', first_with_key walk m' /\ get_unique_key m' = get_unique_key m.
Proof.
  induction walk as [|a walk IH]; intros m Hin; [contradiction|].
  destruct (Key_eqb (get_unique_key a) (get_unique_key m)) eqn:E.
  - apply Key_eqb_eq in E. exists a. split; [|assumption].
    exists 0. split; [reflexivity|]. intros j m' Hj. lia.
  - assert (Hne : get_unique_key a <> get_unique_key m).
    { intro Heq. apply Key_eqb_eq in Heq. congruence. }
    destruct Hin as [-> | Hin]; [congruence|].
    destruct (IH m Hin) as [m' [[i [Hi Hfirst]] Heq]].
    exists m'. split; [|assumption].
    exists (S i). split; [assumption|].
    intros j m'' Hj Hm''. destruct j as [|j]; simpl in Hm''.
    + inversion Hm''; subst. congruence.
    + apply (Hfirst j); [lia | assumption].
Qed.

Lemma get_unique_key_cases :
  (forall path version is_main,
     get_unique_key (mkParsedModule path version is_main None)
     = (path, version)) /\
  (forall path version is_main new_path new_version main' replace',
     new_version <> "" ->
     get_unique_key
       (mkParsedModule path version is_main
          (Some (mkParsedModule new_path (Some new_version) main' replace')))
     = (new_path, Some new_version)) /\
  (forall path version is_main local_path main' replace',
     get_unique_key
       (mkParsedModule path version is_main
          (Some (mkParsedModule local_path None main' replace')))
     = (path, Some local_path)).
Proof.
  repeat split.
  intros path version is_main new_path new_version main' replace' H.
  unfold get_unique_key. cbn [pm_replace pm_version pm_path truthy].
  apply String.eqb_neq in H. now rewrite H.
Qed.

(** C4.  The uniqueness key of a module is (path, version) without
    replacement, the replacement's (path, version) for a version
    replacement, and (path, replacement path) for a local replacement.
    The merged list holds at most one module per key, it holds exactly the
    modules that come first with their key in the walk (package modules,
    then downloaded modules), and every key of the walk is represented in
    it. *)
Theorem deduplicate_one_per_key_first_wins
    (package_modules downloaded_modules : list ParsedModule) :
  let walk := package_modules ++ downloaded_modules in
  let merged :=
    _deduplicate_resolved_modules package_modules downloaded_modules in
  ((forall path version is_main,
      get_unique_key (mkParsedModule path version is_main None)
      = (path, version)) /\
   (forall path version is_main new_path new_version main' replace',
      new_version <> "" ->
      get_unique_key
        (mkParsedModule path version is_main
           (Some (mkParsedModule new_path (Some new_version) main' replace')))
      = (new_path, Some new_version)) /\
   (forall path version is_main local_path main' replace',
      get_unique_key
        (mkParsedModule path version is_main
           (Some (mkParsedModule local_path None main' replace')))
      = (path, Some local_path))) /\
  NoDup (map get_unique_key merged) /\
  (forall m, In m merged <-> first_with_key walk m) /\
  (forall m, In m walk ->
     exists m', In m' merged /\ get_unique_key m' = get_unique_key m).
Proof.
  intros walk merged. split; [exact get_unique_key_cases|].
  destruct (merge_fold_spec walk [])
    as [Hk [Hnd Hiff]]; [intros k v [] | constructor |].
  assert (Hfirst : forall m, In m merged <-> first_with_key walk m).
  { intro m. unfold merged, _deduplicate_resolved_modules. fold merge_step.
    fold walk. rewrite Hiff. simpl. split.
    - intros [[] | [_ H]]. assumption.
    - intro H. right. split; [tauto | assumption]. }
  split; [|split].
  - unfold merged, _deduplicate_resolved_modules. fold merge_step. fold walk.
    rewrite keyed_values_keys; assumption.
  - exact Hfirst.
  - intros m Hin. destruct (first_with_key_exists walk m Hin) as [m' [H1 H2]].
    exists m'. split; [now apply Hfirst | assumption].
Qed.

(** ** Vendoring arbiter *)

Lemma should_vendor_deps_outside flags app_dir strict :
  lookup app_dir "vendor" = None ->
  _should_vendor_deps flags app_dir strict = Raise (PathOutsideRoot None).
Proof.
  intro H. unfold _should_vendor_deps, join_within_root. now rewrite H.
Qed.

(** C6, as stated, fails: with both flags set and a vendor directory in
    place the arbiter answers (true, false), not the (true, true) promised
    for a request carrying [gomod-vendor]. *)
Lemma should_vendor_deps_both_flags :
  mem "gomod-vendor" ["gomod-vendor"; "gomod-vendor-check"] = true /\
  _should_vendor_deps ["gomod-vendor"; "gomod-vendor-check"]
    dir_with_vendor false = Ok (true, false) /\
  _should_vendor_deps ["gomod-vendor"; "gomod-vendor-check"]
    dir_with_vendor false <> Ok (true, true).
Proof.
  repeat split; try reflexivity. discriminate.
Qed.

(** C6, amended.  When the vendor path lies within the root, the arbiter
    looks at [gomod-vendor-check] first: with it, the answer is (true, b)
    where b tells that nothing exists at the vendor path; else with
    [gomod-vendor] the answer is (true, true); else, in strict mode and
    with a vendor directory, [PackageRejected] is raised with a reason
    naming both flags; else the answer is (false, false). *)
Theorem should_vendor_deps_table
    (flags : list string) (app_dir : RootedPath) (strict : bool)
    (vendor : Resolved) :
  lookup app_dir "vendor" = Some vendor ->
  let check := mem "gomod-vendor-check" flags in
  let plain := mem "gomod-vendor" flags in
  let answer := _should_vendor_deps flags app_dir strict in
  (check = true -> answer = Ok (true, negb (path_exists vendor))) /\
  (check = false -> plain = true -> answer = Ok (true, true)) /\
  (check = false -> plain = false -> strict = true ->
   kind vendor = Directory ->
   exists reason solution docs,
     answer = Raise (PackageRejected reason solution docs) /\
     contains reason (quoted "gomod-vendor") = true /\
     contains reason (quoted "gomod-vendor-check") = true) /\
  (check = false -> plain = false ->
   strict = false \/ kind vendor <> Directory ->
   answer = Ok (false, false)).
Proof.
  intros Hv check plain answer.
  unfold answer, _should_vendor_deps, join_within_root. rewrite Hv. simpl.
  fold check. fold plain.
  repeat split.
  - intros ->. reflexivity.
  - intros -> ->. reflexivity.
  - intros -> -> -> Hk. unfold is_dir. rewrite Hk. simpl.
    exists vendor_flags_reason, vendor_flags_solution, VENDORING_DOC.
    repeat split; reflexivity.
  - intros -> -> [-> | Hk]; [reflexivity|].
    unfold is_dir. destruct (kind vendor); try reflexivity.
    + now destruct strict.
    + congruence.
    + now destruct strict.
Qed.

Lemma should_vendor_deps_table_witness :
  _should_vendor_deps ["gomod-vendor-check"] dir_with_vendor true
  = Ok (true, false).
Proof.
  apply (should_vendor_deps_table ["gomod-vendor-check"] dir_with_vendor true
           (mkResolved (Some "vendor") Directory)); reflexivity.
Defined.

(** ** Validation of local replacements *)

Lemma replaced_paths_In (modules : list ParsedModule) (name path : string) :
  In (name, path) (replaced_paths modules) <->
  exists m r, In m modules /\ pm_replace m = Some r /\
              startswith (pm_path r) "." = true /\
              name = pm_path m /\ path = pm_path r.
Proof.
  unfold replaced_paths. rewrite in_flat_map. split.
  - intros [m [Hin H]]. destruct (pm_replace m) as [r|] eqn:Er; [|easy].
    destruct (startswith (pm_path r) ".") eqn:Es; [|easy].
    destruct H as [H | []]. inversion H. now exists m, r.
  - intros [m [r [Hin [Er [Es [-> ->]]]]]]. exists m. split; [assumption|].
    rewrite Er, Es. now left.
Qed.

Lemma check_replaced_paths_ok pairs app_path :
  check_replaced_paths pairs app_path = Ok tt <->
  forall name path, In (name, path) pairs -> lookup app_path path <> None.
Proof.
  induction pairs as [|[n p] pairs IH]; simpl.
  - split; [intros _ ? ? [] | reflexivity].
  - unfold join_within_root. destruct (lookup app_path p) eqn:E.
    + rewrite IH. split.
      * intros H name path [Heq | Hin]; [|now apply (H name)].
        inversion Heq; subst. congruence.
      * intros H name path Hin. apply (H name). now right.
    + split; [discriminate|]. intro H. exfalso.
      apply (H n p); [now left | assumption].
Qed.

Lemma check_replaced_paths_raise pairs app_path e :
  check_replaced_paths pairs app_path = Raise e ->
  exists name path,
    In (name, path) pairs /\ lookup app_path path = None /\
    e = PathOutsideRoot (Some (local_replacement_solution name path)).
Proof.
  induction pairs as [|[n p] pairs IH]; simpl; [discriminate|].
  unfold join_within_root. destruct (lookup app_path p) eqn:E.
  - intro H. destruct (IH H) as [name [path [Hin [Hl He]]]].
    exists name, path. auto.
  - intro H. inversion H. exists n, p. auto.
Qed.

Lemma check_replaced_paths_frame pairs app_path app_path' :
  (forall name path, In (name, path) pairs ->
     lookup app_path' path = lookup app_path path) ->
  check_replaced_paths pairs app_path' = check_replaced_paths pairs app_path.
Proof.
  induction pairs as [|[n p] pairs IH]; simpl; intro H; [reflexivity|].
  unfold join_within_root. rewrite (H n p) by now left.
  destruct (lookup app_path p); [|reflexivity].
  apply IH. intros name path Hin. apply (H name). now right.
Qed.

(** C8.  Validation succeeds exactly when every replacement path beginning
    with a dot joins within the root.  When it fails the error is
    [PathOutsideRoot], for a module whose dotted replacement path leaves
    the root, and its text names that module and that path; it does fail
    as soon as there is such a module.  Paths not beginning with a dot
    play no part in the outcome. *)
Theorem validate_local_replacements_spec
    (modules : list ParsedModule) (app_path : RootedPath) :
  (_validate_local_replacements modules app_path = Ok tt <->
   forall m r, In m modules -> pm_replace m = Some r ->
     startswith (pm_path r) "." = true ->
     lookup app_path (pm_path r) <> None) /\
  (forall e, _validate_local_replacements modules app_path = Raise e ->
   exists m r, In m modules /\ pm_replace m = Some r /\
     startswith (pm_path r) "." = true /\
     lookup app_path (pm_path r) = None /\
     exists before between after,
       e = PathOutsideRoot
             (Some (before ++ pm_path m ++ between ++ pm_path r ++ after)%string)) /\
  ((exists m r, In m modules /\ pm_replace m = Some r /\
      startswith (pm_path r) "." = true /\
      lookup app_path (pm_path r) = None) ->
   exists solution,
     _validate_local_replacements modules app_path
     = Raise (PathOutsideRoot (Some solution))) /\
  (forall app_path',
     (forall path, startswith path "." = true ->
        lookup app_path' path = lookup app_path path) ->
     _validate_local_replacements modules app_path'
     = _validate_local_replacements modules app_path).
Proof.
  unfold _validate_local_replacements. split; [|split; [|split]].
  - rewrite check_replaced_paths_ok. split.
    + intros H m r Hin Er Es. apply (H (pm_path m)).
      apply replaced_paths_In. now exists m, r.
    + intros H name path Hin. apply replaced_paths_In in Hin.
      destruct Hin as [m [r [Hin [Er [Es [-> ->]]]]]]. now apply (H m r).
  - intros e He. apply check_replaced_paths_raise in He.
    destruct He as [name [path [Hin [Hl ->]]]].
    apply replaced_paths_In in Hin.
    destruct Hin as [m [r [Hin [Er [Es [-> ->]]]]]].
    exists m, r. repeat split; try assumption.
    exists "The module '", "' is being replaced by the local path '",
      "', which falls outside of the repository root. Refusing to proceed.".
    reflexivity.
  - intros [m [r [Hin [Er [Es Hl]]]]].
    destruct (check_replaced_paths (replaced_paths modules) app_path)
      as [[]|e] eqn:E.
    + exfalso.
      pose proof (proj1 (check_replaced_paths_ok _ _) E) as Hall.
      apply (Hall (pm_path m) (pm_path r)); [|assumption].
      apply replaced_paths_In. now exists m, r.
    + apply check_replaced_paths_raise in E.
      destruct E as [name [path [_ [_ ->]]]]. eexists. reflexivity.
  - intros app_path' H. apply check_replaced_paths_frame.
    intros name path Hin. apply replaced_paths_In in Hin.
    destruct Hin as [m [r [_ [_ [Es [_ ->]]]]]]. now apply H.
Qed.

(** Scenario 5 of the specification: a replacement by [../outside]. *)
Example validate_local_replacement_escaping :
  _validate_local_replacements
    [mkParsedModule "example.com/b" (Some "v1.0.0") false
       (Some (mkParsedModule "../outside" None false None))]
    dir_with_escape
  = Raise (PathOutsideRoot
             (Some "The module 'example.com/b' is being replaced by the local path '../outside', which falls outside of the repository root. Refusing to proceed.")).
Proof. reflexivity. Qed.

(** ** Vendor parser *)

Lemma set_last_snoc (has : list bool) (b v : bool) :
  set_last (has ++ [b]) v = Ok (has ++ [v]).
Proof.
  induction has as [|x has IH]; simpl; [reflexivity|].
  destruct (has ++ [b]) eqn:E.
  - destruct has; discriminate.
  - rewrite IH. reflexivity.
Qed.

Lemma with_packages_snoc (ms : list ParsedModule) (has : list bool) m b :
  List.length ms = List.length has ->
  with_packages (ms ++ [m], has ++ [b])
  = with_packages (ms, has) ++ (if b then [m] else []).
Proof.
  unfold with_packages. simpl. revert has.
  induction ms as [|x ms IH]; intros [|h has] Hlen; try discriminate.
  - simpl. destruct b; reflexivity.
  - simpl in *. destruct h; simpl; rewrite IH by lia; reflexivity.
Qed.

Lemma snoc_cases {A : Type} (l : list A) :
  l = [] \/ exists l' x, l = l' ++ [x].
Proof.
  destruct l as [|a l]; [now left | right].
  destruct (exists_last (l := a :: l)) as [l' [x E]]; [discriminate|].
  now exists l', x.
Qed.

(** The parser of module lines accepts exactly the five shapes. *)
Lemma parse_module_line_shape (line : string) (m : ParsedModule) :
  parse_module_line line = Ok m -> module_shape (module_fields line) m.
Proof.
  unfold parse_module_line, module_fields, fail_for_unexpected_format.
  destruct (py_split (removeprefix line "# "))
    as [|a [|b [|c [|d [|e [|f l]]]]]]; try discriminate.
  - intro H. inversion H. constructor.
  - destruct (b =? "=>") eqn:E; [|discriminate].
    apply String.eqb_eq in E. subst. intro H. inversion H. constructor.
  - destruct (b =? "=>") eqn:E.
    + apply String.eqb_eq in E. subst. intro H. inversion H. constructor.
    + destruct (c =? "=>") eqn:E'; [|discriminate].
      apply String.eqb_eq in E'. subst. intro H. inversion H. constructor.
  - destruct (c =? "=>") eqn:E; [|discriminate].
    apply String.eqb_eq in E. subst. intro H. inversion H. constructor.
Qed.

Lemma parse_module_line_total (line : string) :
  (exists m, parse_module_line line = Ok m) \/
  ((forall m, ~ module_shape (module_fields line) m) /\
   exists msg, parse_module_line line
               = Raise (UnexpectedFormat msg vendor_solution)).
Proof.
  unfold parse_module_line, module_fields, fail_for_unexpected_format.
  destruct (py_split (removeprefix line "# "))
    as [|a [|b [|c [|d [|e [|f l]]]]]];
    try (right; split; [intros m H; inversion H | eexists; reflexivity]).
  - left. eexists. reflexivity.
  - destruct (b =? "=>") eqn:E; [left; eexists; reflexivity|].
    right. split; [|eexists; reflexivity].
    intros m H. inversion H; subst. now rewrite String.eqb_refl in E.
  - destruct (b =? "=>") eqn:E; [left; eexists; reflexivity|].
    destruct (c =? "=>") eqn:E'; [left; eexists; reflexivity|].
    right. split; [|eexists; reflexivity].
    intros m H. inversion H; subst.
    + now rewrite String.eqb_refl in E.
    + now rewrite String.eqb_refl in E'.
  - destruct (c =? "=>") eqn:E; [left; eexists; reflexivity|].
    right. split; [|eexists; reflexivity].
    intros m H. inversion H; subst. now rewrite String.eqb_refl in E.
Qed.

(** What one turn of the loop does, by kind of line. *)
Lemma vendor_step_module st line :
  classify line = ModuleLine ->
  vendor_step st line
  = (m <- parse_module_line line ;; Ok (fst st ++ [m], snd st ++ [false])).
Proof.
  unfold classify, vendor_step. destruct st as [ms has].
  destruct (startswith line "# "), (startswith line "#"),
    (startswith line "##");
    cbn [negb fst snd]; intro H; try discriminate H; reflexivity.
Qed.

Lemma vendor_step_package st line :
  classify line = PackageLine ->
  vendor_step st line
  = match fst st with
    | [] => fail_for_unexpected_format
              ("package has no parent module: " ++ line)
    | _ => has <- set_last (snd st) true ;; Ok (fst st, has)
    end.
Proof.
  unfold classify, vendor_step. destruct st as [ms has].
  destruct (startswith line "# "), (startswith line "#"),
    (startswith line "##");
    cbn [negb fst snd]; intro H; try discriminate H; reflexivity.
Qed.

Lemma vendor_step_marker st line :
  classify line = MarkerLine -> vendor_step st line = Ok st.
Proof.
  unfold classify, vendor_step. destruct st as [ms has].
  destruct (startswith line "# "), (startswith line "#"),
    (startswith line "##");
    cbn [negb fst snd]; intro H; try discriminate H; reflexivity.
Qed.

Lemma vendor_step_other st line :
  classify line = OtherHashLine ->
  vendor_step st line
  = fail_for_unexpected_format ("unexpected format: " ++ repr line).
Proof.
  unfold classify, vendor_step. destruct st as [ms has].
  destruct (startswith line "# "), (startswith line "#"),
    (startswith line "##");
    cbn [negb fst snd]; intro H; try discriminate H; reflexivity.
Qed.

Lemma mark_last_snoc (has : list bool) (x b : bool) :
  mark_last (has ++ [x]) b = has ++ [x || b].
Proof.
  induction has as [|h has IH]; simpl; [reflexivity|].
  destruct (has ++ [x]) eqn:E.
  - destruct has; discriminate.
  - rewrite IH. reflexivity.
Qed.

Lemma mark_last_false (has : list bool) : mark_last has false = has.
Proof.
  induction has as [|h has IH]; simpl; [reflexivity|].
  destruct has; [now rewrite orb_false_r | now rewrite IH].
Qed.

Lemma same_length_snoc {A B : Type} (l : list A) (x : A) (k : list B) :
  List.length (l ++ [x]) = List.length k ->
  exists k' y, k = k' ++ [y] /\ List.length l = List.length k'.
Proof.
  intro H. destruct (snoc_cases k) as [-> | [k' [y ->]]].
  - rewrite length_app in H. simpl in H. lia.
  - exists k', y. split; [reflexivity|].
    rewrite !length_app in H. simpl in H. lia.
Qed.

(** The loop on a manifest without bad lines: it ends, and the modules it
    flags are those followed by a package line. *)
Lemma vendor_loop_ok (lines : list string) :
  forall ms has,
    List.length ms = List.length has ->
    lines_ok (nonempty ms) lines ->
    exists st',
      vendor_loop (ms, has) lines = Ok st' /\
      with_packages st'
      = with_packages (ms, mark_last has (has_package_line lines))
        ++ modules_with_packages lines.
Proof.
  induction lines as [|line rest IH]; intros ms has Hlen Hok.
  - exists (ms, has). simpl. rewrite mark_last_false, app_nil_r. auto.
  - simpl in Hok. cbn [vendor_loop has_package_line modules_with_packages].
    destruct (classify line) eqn:Ec.
    + destruct Hok as [[m0 Hshape] Hok].
      rewrite (vendor_step_module _ _ Ec). cbn [bind fst snd].
      destruct (parse_module_line_total line) as [[m Hm] | [Hno _]];
        [|now elim (Hno m0)].
      rewrite Hm. simpl.
      destruct (IH (ms ++ [m]) (has ++ [false])) as [st' [Hrun Hres]].
      * rewrite !length_app. simpl. lia.
      * destruct ms; exact Hok.
      * exists st'. split; [assumption|]. rewrite Hres.
        rewrite mark_last_snoc, mark_last_false. simpl.
        rewrite with_packages_snoc by assumption.
        destruct (has_package_line rest); simpl.
        -- now rewrite <- app_assoc.
        -- now rewrite app_nil_r.
    + destruct Hok as [Hopen Hok].
      rewrite (vendor_step_package _ _ Ec). cbn [bind fst snd].
      destruct (snoc_cases ms) as [-> | [ms0 [m ->]]]; [discriminate|].
      destruct (same_length_snoc _ _ _ Hlen) as [has0 [b0 [-> Hlen0]]].
      rewrite set_last_snoc. simpl.
      destruct (ms0 ++ [m]) eqn:E; [destruct ms0; discriminate|].
      rewrite <- E in *. simpl.
      destruct (IH (ms0 ++ [m]) (has0 ++ [true])) as [st' [Hrun Hres]].
      * rewrite !length_app. simpl. lia.
      * exact Hok.
      * exists st'. split; [assumption|]. rewrite Hres.
        rewrite !mark_last_snoc. simpl. now rewrite orb_true_r.
    + rewrite (vendor_step_marker _ _ Ec). cbn [bind]. now apply IH.
    + contradiction.
Qed.

(** The loop on a manifest with a bad line: it raises [UnexpectedFormat]. *)
Lemma vendor_loop_raise (lines : list string) :
  forall ms has,
    List.length ms = List.length has ->
    ~ lines_ok (nonempty ms) lines ->
    exists msg,
      vendor_loop (ms, has) lines
      = Raise (UnexpectedFormat msg vendor_solution).
Proof.
  induction lines as [|line rest IH]; intros ms has Hlen Hbad.
  - exfalso. apply Hbad. exact I.
  - simpl in Hbad. cbn [vendor_loop].
    destruct (classify line) eqn:Ec.
    + rewrite (vendor_step_module _ _ Ec). cbn [bind fst snd].
      destruct (parse_module_line_total line) as [[m Hm] | [_ [msg Hm]]].
      * rewrite Hm. simpl. apply IH.
        -- rewrite !length_app. simpl. lia.
        -- intro Hok. apply Hbad. split.
           ++ exists m. now apply parse_module_line_shape.
           ++ destruct ms; exact Hok.
      * rewrite Hm. simpl. now exists msg.
    + rewrite (vendor_step_package _ _ Ec). cbn [bind fst snd].
      destruct (snoc_cases ms) as [-> | [ms0 [m ->]]].
      * eexists. reflexivity.
      * destruct (same_length_snoc _ _ _ Hlen) as [has0 [b0 [-> Hlen0]]].
        rewrite set_last_snoc.
        destruct (ms0 ++ [m]) eqn:E; [destruct ms0; discriminate|].
        rewrite <- E in *. simpl. apply IH.
        -- rewrite !length_app. simpl. lia.
        -- intro Hok. apply Hbad. split; [|exact Hok].
           rewrite E. reflexivity.
    + rewrite (vendor_step_marker _ _ Ec). cbn [bind]. now apply IH.
    + rewrite (vendor_step_other _ _ Ec). cbn [bind fail_for_unexpected_format]. eexists. reflexivity.
Qed.

Lemma no_module_line_before (pre : list string) :
  existsb is_module_line pre = false ->
  forall rest j l, j < List.length pre ->
    nth_error (pre ++ rest) j = Some l -> classify l <> ModuleLine.
Proof.
  intros Hnone rest j l Hj Hl Hc.
  rewrite nth_error_app1 in Hl by assumption.
  apply nth_error_In in Hl.
  assert (Hex : existsb is_module_line pre = true).
  { apply existsb_exists. exists l. split; [assumption|].
    unfold is_module_line. now rewrite Hc. }
  congruence.
Qed.

Lemma nth_error_middle (pre rest : list string) (line : string) :
  nth_error (pre ++ line :: rest) (List.length pre) = Some line.
Proof.
  rewrite nth_error_app2 by lia. now rewrite Nat.sub_diag.
Qed.

(** [lines_ok] says that no line is bad; [pre] holds the lines already
    passed. *)
Lemma lines_ok_no_bad (lines : list string) :
  forall pre,
    lines_ok (existsb is_module_line pre) lines <->
    forall i, List.length pre <= i -> ~ bad_line (pre ++ lines) i.
Proof.
  induction lines as [|line rest IH]; intro pre.
  - simpl. split; [|trivial]. intros _ i Hi [l [Hl _]].
    rewrite app_nil_r in Hl.
    assert (nth_error pre i = None) by now apply nth_error_None.
    congruence.
  - assert (Hassoc : pre ++ line :: rest = (pre ++ [line]) ++ rest)
      by now rewrite <- app_assoc.
    assert (Hlen : List.length (pre ++ [line]) = S (List.length pre))
      by (rewrite length_app; simpl; lia).
    assert (Hex : existsb is_module_line (pre ++ [line])
                  = existsb is_module_line pre || is_module_line line)
      by (rewrite existsb_app; simpl; now rewrite orb_false_r).
    specialize (IH (pre ++ [line])).
    rewrite Hex, Hlen, <- Hassoc in IH.
    simpl. split.
    + intros Hok i Hi [l [Hl Hbad]].
      destruct (Nat.eq_dec i (List.length pre)) as [-> | Hne].
      * rewrite nth_error_middle in Hl. inversion Hl; subst l.
        destruct Hbad as [[Hc Hno] | [Hc | [Hc Hnone]]]; rewrite Hc in Hok.
        -- now destruct Hok.
        -- contradiction.
        -- destruct Hok as [Hopen _]. apply existsb_exists in Hopen.
           destruct Hopen as [l [Hin Hl']].
           apply In_nth_error in Hin. destruct Hin as [j Hj].
           assert (j < List.length pre)
             by (apply nth_error_Some; congruence).
           apply (Hnone j l); [assumption | |].
           ++ now rewrite nth_error_app1.
           ++ unfold is_module_line in Hl'. now destruct (classify l).
      * assert (Hrest : lines_ok
                          (existsb is_module_line pre || is_module_line line)
                          rest).
        { unfold is_module_line. destruct (classify line).
          - rewrite orb_true_r. tauto.
          - rewrite orb_false_r. tauto.
          - rewrite orb_false_r. tauto.
          - contradiction. }
        apply (proj1 IH Hrest i); [lia|]. exists l. auto.
    + intro Hno.
      assert (Hrest : lines_ok
                        (existsb is_module_line pre || is_module_line line)
                        rest).
      { apply IH. intros i Hi. apply Hno. lia. }
      unfold is_module_line in Hrest.
      destruct (classify line) eqn:Ec.
      * rewrite orb_true_r in Hrest. split; [|assumption].
        destruct (parse_module_line_total line) as [[m Hm] | [Hnone _]].
        -- exists m. now apply parse_module_line_shape.
        -- exfalso. apply (Hno (List.length pre)); [lia|].
           exists line. split; [apply nth_error_middle|].
           left. split; [assumption|]. intros [m Hm]. now apply (Hnone m).
      * rewrite orb_false_r in Hrest. split; [|assumption].
        destruct (existsb is_module_line pre) eqn:Epre; [reflexivity|].
        exfalso. apply (Hno (List.length pre)); [lia|].
        exists line. split; [apply nth_error_middle|].
        right. right. split; [assumption|].
        intros j l Hj Hl.
        now apply (no_module_line_before pre Epre (line :: rest) j l).
      * now rewrite orb_false_r in Hrest.
      * apply (Hno (List.length pre)); [lia|].
        exists line. split; [apply nth_error_middle|]. right. now left.
Qed.

Lemma lines_ok_iff_no_bad_line (lines : list string) :
  lines_ok false lines <-> ~ exists i, bad_line lines i.
Proof.
  rewrite (lines_ok_no_bad lines []). simpl. split.
  - intros H [i Hi]. apply (H i); [lia | assumption].
  - intros H i _ Hi. apply H. now exists i.
Qed.

Lemma bad_line_lines_not_ok (lines : list string) :
  (exists i, bad_line lines i) -> ~ lines_ok false lines.
Proof.
  intros H Hok. now apply lines_ok_iff_no_bad_line in Hok.
Qed.

Lemma parse_vendor_lines_ok (lines : list string) :
  lines_ok false lines ->
  parse_vendor_lines lines = Ok (modules_with_packages lines).
Proof.
  intro Hok. unfold parse_vendor_lines.
  destruct (vendor_loop_ok lines [] [] eq_refl Hok) as [st' [Hrun Hres]].
  rewrite Hrun. simpl. now rewrite Hres.
Qed.

Lemma parse_vendor_lines_raise (lines : list string) :
  ~ lines_ok false lines ->
  exists msg,
    parse_vendor_lines lines = Raise (UnexpectedFormat msg vendor_solution).
Proof.
  intro Hbad. unfold parse_vendor_lines.
  destruct (vendor_loop_raise lines [] [] eq_refl Hbad) as [msg Hrun].
  rewrite Hrun. now exists msg.
Qed.

Lemma vendor_loop_skip_markers (lines : list string) :
  forall st,
    vendor_loop st (filter (fun l => negb (is_marker_line l)) lines)
    = vendor_loop st lines.
Proof.
  induction lines as [|line rest IH]; intro st; simpl; [reflexivity|].
  unfold is_marker_line at 1. destruct (classify line) eqn:Ec; simpl;
    try (destruct (vendor_step st line); simpl; [apply IH | reflexivity]).
  rewrite (vendor_step_marker _ _ Ec). simpl. apply IH.
Qed.

Lemma parse_vendor_regular_file module_dir modules_txt text :
  lookup module_dir "vendor/modules.txt" = Some modules_txt ->
  kind modules_txt = RegularFile text ->
  _parse_vendor module_dir = parse_vendor_lines (py_splitlines text).
Proof.
  intros Hl Hk. unfold _parse_vendor, join_within_root, path_exists, read_text.
  rewrite Hl. simpl. rewrite Hk. reflexivity.
Qed.

(** C7.  On a manifest that exists, with [lines] the lines of its text:
    a module line is accepted exactly when its fields have one of the five
    shapes, and yields the module of that shape; if some line is bad (a
    module line of no such shape, another [#] line that is not a [##]
    marker, or a package line before any module line) the parser raises
    [UnexpectedFormat]; otherwise it returns, in order, exactly the
    modules followed by a package line of their own.  Marker lines can be
    deleted without changing the outcome. *)
Theorem parse_vendor_spec
    (module_dir : RootedPath) (modules_txt : Resolved) (text : string) :
  lookup module_dir "vendor/modules.txt" = Some modules_txt ->
  kind modules_txt = RegularFile text ->
  let lines := py_splitlines text in
  (forall line m, parse_module_line line = Ok m ->
                  module_shape (module_fields line) m) /\
  (forall line, (forall m, parse_module_line line <> Ok m) ->
     (forall m, ~ module_shape (module_fields line) m) /\
     exists msg solution,
       parse_module_line line = Raise (UnexpectedFormat msg solution)) /\
  ((exists i, bad_line lines i) ->
   exists msg solution,
     _parse_vendor module_dir = Raise (UnexpectedFormat msg solution)) /\
  ((~ exists i, bad_line lines i) ->
   _parse_vendor module_dir = Ok (modules_with_packages lines)) /\
  parse_vendor_lines (filter (fun l => negb (is_marker_line l)) lines)
  = _parse_vendor module_dir.
Proof.
  intros Hl Hk lines.
  rewrite (parse_vendor_regular_file _ _ _ Hl Hk). fold lines.
  split; [|split; [|split; [|split]]].
  - exact parse_module_line_shape.
  - intros line Hnone.
    destruct (parse_module_line_total line) as [[m Hm] | [Hno [msg Hm]]].
    + now elim (Hnone m).
    + split; [assumption|]. now exists msg, vendor_solution.
  - intro Hbad. apply bad_line_lines_not_ok in Hbad.
    destruct (parse_vendor_lines_raise lines Hbad) as [msg Hm].
    now exists msg, vendor_solution.
  - intro Hgood. apply parse_vendor_lines_ok.
    now apply lines_ok_iff_no_bad_line.
  - unfold parse_vendor_lines. now rewrite vendor_loop_skip_markers.
Qed.

Lemma parse_vendor_spec_witness :
  parse_vendor_lines
    (filter (fun l => negb (is_marker_line l)) (py_splitlines sample_manifest))
  = _parse_vendor (dir_with_manifest sample_manifest).
Proof.
  apply (parse_vendor_spec (dir_with_manifest sample_manifest)
           (mkResolved (Some "vendor/modules.txt")
              (RegularFile sample_manifest))
           sample_manifest); reflexivity.
Defined.

Example parse_vendor_sample :
  _parse_vendor (dir_with_manifest sample_manifest)
  = Ok [mkParsedModule "example.com/b" (Some "v1.0.0") false
          (Some (mkParsedModule "example.com/c" (Some "v1.1.0") false None))].
Proof. reflexivity. Qed.

(** *** Blank lines *)

Lemma lines_ok_app (pre rest : list string) :
  forall opened,
    lines_ok opened (pre ++ rest) <->
    lines_ok opened pre /\
    lines_ok (opened || existsb is_module_line pre) rest.
Proof.
  induction pre as [|line pre IH]; intro opened; simpl.
  - rewrite orb_false_r. tauto.
  - unfold is_module_line at 1. destruct (classify line); simpl.
    + rewrite (IH true), orb_true_r. simpl. tauto.
    + rewrite (IH opened). tauto.
    + rewrite (IH opened). tauto.
    + tauto.
Qed.

Lemma lines_ok_blank (n : nat) : lines_ok true (repeat "" n).
Proof. induction n; simpl; auto. Qed.

Lemma modules_with_packages_blank (n : nat) :
  modules_with_packages (repeat "" n) = [].
Proof. induction n; simpl; auto. Qed.

Lemma has_package_line_before_module (pre rest : list string) line :
  classify line = ModuleLine ->
  has_package_line (pre ++ line :: rest) = has_package_line (pre ++ [line]).
Proof.
  intro Hc. induction pre as [|x pre IH]; simpl.
  - now rewrite Hc.
  - destruct (classify x); auto.
Qed.

Lemma modules_with_packages_then_blank (pre : list string) line m n :
  classify line = ModuleLine ->
  parse_module_line line = Ok m ->
  modules_with_packages (pre ++ line :: repeat "" (S n))
  = modules_with_packages (pre ++ [line]) ++ [m].
Proof.
  intros Hc Hm. induction pre as [|x pre IH].
  - simpl. rewrite Hc, Hm. now rewrite modules_with_packages_blank.
  - cbn [app modules_with_packages].
    rewrite (has_package_line_before_module pre (repeat "" (S n)) line Hc).
    rewrite IH.
    destruct (classify x); try reflexivity.
    destruct (parse_module_line x); try reflexivity.
    destruct (has_package_line (pre ++ [line])); reflexivity.
Qed.

(** C9.  A line that does not start with [#], the empty line included, is
    a package line.  An empty line with no module line before it makes the
    parse fail with [UnexpectedFormat]; a module line followed only by
    empty lines has its module emitted, after the modules of the lines
    before it. *)
Theorem blank_line_is_package_line :
  (forall line, startswith line "#" = false -> classify line = PackageLine) /\
  classify "" = PackageLine /\
  (forall pre rest,
     existsb is_module_line pre = false ->
     exists msg solution,
       parse_vendor_lines (pre ++ "" :: rest)
       = Raise (UnexpectedFormat msg solution)) /\
  (forall pre line m n,
     lines_ok false pre ->
     classify line = ModuleLine ->
     parse_module_line line = Ok m ->
     parse_vendor_lines (pre ++ line :: repeat "" (S n))
     = Ok (modules_with_packages (pre ++ [line]) ++ [m])).
Proof.
  split; [|split; [|split]].
  - intros line H. unfold classify.
    destruct (startswith line "# ") eqn:E; [|now rewrite H].
    destruct line as [|c line]; [discriminate|].
    cbn [startswith] in *. rewrite andb_true_r in H. now rewrite H in E.
  - reflexivity.
  - intros pre rest Hnone.
    assert (Hbad : ~ lines_ok false (pre ++ "" :: rest)).
    { apply bad_line_lines_not_ok. exists (List.length pre), "".
      split; [apply nth_error_middle|]. right. right.
      split; [reflexivity|]. intros j l Hj Hl.
      now apply (no_module_line_before pre Hnone ("" :: rest) j l). }
    destruct (parse_vendor_lines_raise _ Hbad) as [msg Hm].
    now exists msg, vendor_solution.
  - intros pre line m n Hpre Hc Hm.
    rewrite parse_vendor_lines_ok.
    + now rewrite (modules_with_packages_then_blank pre line m n Hc Hm).
    + apply lines_ok_app. split; [assumption|].
      cbn [lines_ok]. rewrite Hc. split.
      * exists m. now apply parse_module_line_shape.
      * apply (lines_ok_blank (S n)).
Qed.

Example blank_line_first :
  exists msg solution,
    _parse_vendor (dir_with_manifest (NL ++ "# example.com/a v1.0.0" ++ NL))
    = Raise (UnexpectedFormat msg solution).
Proof. eexists. eexists. reflexivity. Qed.

Example module_then_blank_line :
  _parse_vendor (dir_with_manifest ("# example.com/a v1.0.0" ++ NL ++ NL))
  = Ok [mkParsedModule "example.com/a" (Some "v1.0.0") false None].
Proof. reflexivity. Qed.

(** *** A manifest that is not there *)

(** C10.  When [vendor/modules.txt] lies within the module directory and
    does not exist, the vendor parser returns the empty list, and so does
    the vendoring step built on it whenever the vendor tree is allowed to
    change or is found unchanged. *)
Theorem parse_vendor_missing_manifest
    (module_dir : RootedPath) (modules_txt : Resolved) :
  lookup module_dir "vendor/modules.txt" = Some modules_txt ->
  kind modules_txt = Absent ->
  _parse_vendor module_dir = Ok [] /\
  forall vendor_changed can_make_changes,
    can_make_changes = true \/ vendor_changed module_dir = Ok false ->
    _vendor_deps (Ok module_dir) vendor_changed can_make_changes = Ok [].
Proof.
  intros Hl Hk.
  assert (H : _parse_vendor module_dir = Ok []).
  { unfold _parse_vendor, join_within_root, path_exists.
    rewrite Hl. simpl. now rewrite Hk. }
  split; [assumption|].
  intros vendor_changed can_make_changes Hc. unfold _vendor_deps. simpl.
  destruct can_make_changes; simpl.
  - assumption.
  - destruct Hc as [Hc | Hc]; [discriminate|]. rewrite Hc. simpl. assumption.
Qed.

Lemma parse_vendor_missing_manifest_witness :
  _parse_vendor empty_dir = Ok [].
Proof.
  apply (parse_vendor_missing_manifest empty_dir
           (mkResolved (Some "vendor/modules.txt") Absent));
    reflexivity.
Defined.

(** ** Major versions tried by the reifier *)

Lemma digits_to_end_sound (s ds : string) :
  digits_to_end s = Some ds ->
  exists tail, s = (ds ++ tail)%string /\ all_chars isdigit ds = true /\
               (tail = "" \/ tail = NL).
Proof.
  revert ds. induction s as [|c s IH]; intros ds H; simpl in H.
  - inversion H. exists "". auto.
  - destruct (isdigit c) eqn:Ed.
    + destruct (digits_to_end s) as [ds'|] eqn:E; [|discriminate].
      inversion H; subst. destruct (IH ds' eq_refl) as [tail [-> [Hall Ht]]].
      exists tail. simpl. rewrite Ed, Hall. auto.
    + destruct (Ascii.eqb c LF) eqn:El; [|discriminate].
      apply Ascii.eqb_eq in El. subst.
      destruct s; [|discriminate]. inversion H. exists NL. auto.
Qed.

Lemma digits_to_end_complete (ds tail : string) :
  all_chars isdigit ds = true -> tail = "" \/ tail = NL ->
  digits_to_end (ds ++ tail) = Some ds.
Proof.
  intros Hall Ht. induction ds as [|c ds IH]; simpl in *.
  - destruct Ht as [-> | ->]; reflexivity.
  - apply andb_true_iff in Hall as [Hc Hall]. rewrite Hc, IH; auto.
Qed.

Lemma slash_v_digits_sound (s ds : string) :
  slash_v_digits s = Some ds ->
  exists tail, s = ("/v" ++ ds ++ tail)%string /\ ds <> "" /\
               all_chars isdigit ds = true /\ (tail = "" \/ tail = NL).
Proof.
  unfold slash_v_digits.
  destruct s as [|a [|b r]]; try discriminate.
  - destruct (Ascii.eqb a "/") eqn:Ea.
    + apply Ascii.eqb_eq in Ea. subst. discriminate.
    + destruct a as [[] [] [] [] [] [] [] []]; discriminate.
  - destruct (Ascii.eqb a "/") eqn:Ea;
      [|destruct a as [[] [] [] [] [] [] [] []]; discriminate].
    destruct (Ascii.eqb b "v") eqn:Eb;
      [|destruct a as [[] [] [] [] [] [] [] []]; try discriminate;
        destruct b as [[] [] [] [] [] [] [] []]; discriminate].
    apply Ascii.eqb_eq in Ea, Eb. subst.
    destruct (digits_to_end r) as [[|c ds']|] eqn:E; try discriminate.
    intro H. inversion H; subst.
    destruct (digits_to_end_sound _ _ E) as [tail [-> [Hall Ht]]].
    exists tail. repeat split; auto. discriminate.
Qed.

Lemma slash_v_digits_complete (ds tail : string) :
  ds <> "" -> all_chars isdigit ds = true -> tail = "" \/ tail = NL ->
  slash_v_digits ("/v" ++ ds ++ tail) = Some ds.
Proof.
  intros Hne Hall Ht. simpl.
  rewrite (digits_to_end_complete ds tail Hall Ht).
  destruct ds; [contradiction | reflexivity].
Qed.

Lemma slash_v_digits_needs_slash (c : ascii) (s : string) :
  Ascii.eqb c "/" = false -> slash_v_digits (String c s) = None.
Proof.
  intro H. destruct c as [[] [] [] [] [] [] [] []]; try reflexivity.
  discriminate.
Qed.

Lemma major_after_prefix_no_slash (s : string) :
  contains_char "/" s = false -> major_after_prefix s = None.
Proof.
  induction s as [|c s IH]; [reflexivity|].
  cbn [contains_char major_after_prefix]. intro H.
  apply orb_false_iff in H as [Hc Hs].
  rewrite (IH Hs). rewrite Ascii.eqb_sym in Hc.
  rewrite (slash_v_digits_needs_slash c s Hc).
  now destruct (Ascii.eqb c LF).
Qed.

Lemma contains_char_app (c : ascii) (a b : string) :
  contains_char c (a ++ b) = contains_char c a || contains_char c b.
Proof.
  induction a as [|x a IH]; simpl; [reflexivity|].
  now rewrite IH, orb_assoc.
Qed.

Lemma digits_no_slash (ds : string) :
  all_chars isdigit ds = true -> contains_char "/" ds = false.
Proof.
  induction ds as [|c ds IH]; [reflexivity|].
  cbn [all_chars contains_char]. intro H.
  apply andb_true_iff in H as [Hc Hall]. rewrite (IH Hall), orb_false_r.
  destruct (Ascii.eqb "/" c) eqn:E; [|reflexivity].
  apply Ascii.eqb_eq in E. subst. discriminate.
Qed.

Lemma major_after_prefix_sound (s ds : string) :
  major_after_prefix s = Some ds ->
  exists mid rest, s = (mid ++ rest)%string /\ contains_char LF mid = false /\
                   slash_v_digits rest = Some ds.
Proof.
  revert ds. induction s as [|c s IH]; intros ds H; [discriminate|].
  cbn [major_after_prefix] in H.
  destruct (Ascii.eqb c LF) eqn:El.
  - exists "", (String c s). auto.
  - destruct (major_after_prefix s) as [ds'|] eqn:E.
    + inversion H; subst.
      destruct (IH ds eq_refl) as [mid [rest [-> [Hm Hr]]]].
      exists (String c mid), rest. repeat split; [|assumption].
      cbn [append contains_char]. rewrite Hm, orb_false_r.
      now rewrite Ascii.eqb_sym.
    + exists "", (String c s). auto.
Qed.

Lemma major_after_prefix_extend (mid rest ds : string) :
  contains_char LF mid = false ->
  major_after_prefix rest = Some ds ->
  major_after_prefix (mid ++ rest) = Some ds.
Proof.
  intros Hm Hr. induction mid as [|c mid IH]; [assumption|].
  cbn [contains_char] in Hm. apply orb_false_iff in Hm as [Hc Hm].
  cbn [append major_after_prefix]. rewrite (IH Hm).
  rewrite Ascii.eqb_sym in Hc. now rewrite Hc.
Qed.

Lemma major_after_prefix_complete (mid ds tail : string) :
  contains_char LF mid = false ->
  ds <> "" -> all_chars isdigit ds = true -> tail = "" \/ tail = NL ->
  major_after_prefix (mid ++ "/v" ++ ds ++ tail) = Some ds.
Proof.
  intros Hm Hne Hall Ht. apply major_after_prefix_extend; [assumption|].
  change ("/v" ++ ds ++ tail)%string
    with (String "/" (String "v" (ds ++ tail))).
  cbn [major_after_prefix].
  change (String "/" (String "v" (ds ++ tail)))
    with ("/v" ++ ds ++ tail)%string.
  rewrite (slash_v_digits_complete ds tail Hne Hall Ht).
  assert (Hns : contains_char "/" (ds ++ tail) = false).
  { rewrite contains_char_app, (digits_no_slash ds Hall).
    destruct Ht as [-> | ->]; reflexivity. }
  rewrite (slash_v_digits_needs_slash "v" (ds ++ tail) eq_refl).
  rewrite (major_after_prefix_no_slash _ Hns). reflexivity.
Qed.

Lemma match_major_version_sound (name ds : string) :
  match_major_version name = Some ds -> names_major name ds.
Proof.
  unfold match_major_version. destruct name as [|c s]; [discriminate|].
  destruct (Ascii.eqb c LF) eqn:El; [discriminate|]. intro H.
  destruct (major_after_prefix_sound _ _ H) as [mid [rest [-> [Hm Hr]]]].
  destruct (slash_v_digits_sound _ _ Hr) as [tail [-> [Hne [Hall Ht]]]].
  exists (String c mid), tail. repeat split; auto.
  - discriminate.
  - cbn [contains_char]. rewrite Hm, orb_false_r. now rewrite Ascii.eqb_sym.
Qed.

Lemma match_major_version_complete (name ds : string) :
  names_major name ds -> match_major_version name = Some ds.
Proof.
  intros [pre [tail [-> [Hpre [Hlf [Hne [Hall Ht]]]]]]].
  destruct pre as [|c mid]; [contradiction|].
  cbn [contains_char] in Hlf. apply orb_false_iff in Hlf as [Hc Hm].
  unfold match_major_version. cbn [append].
  rewrite Ascii.eqb_sym in Hc. rewrite Hc.
  now apply major_after_prefix_complete.
Qed.

Lemma py_int_within (ds : string) :
  within_int_limit ds -> py_int ds = Ok (int_of_digits ds).
Proof.
  unfold within_int_limit, py_int. intro H.
  destruct (N.ltb_spec int_max_str_digits (N.of_nat (String.length ds)));
    [lia | reflexivity].
Qed.

Lemma py_int_beyond (ds : string) :
  ~ within_int_limit ds -> py_int ds = Raise ValueError.
Proof.
  unfold within_int_limit, py_int. intro H.
  destruct (N.ltb_spec int_max_str_digits (N.of_nat (String.length ds)));
    [reflexivity | contradiction].
Qed.

(** C3, as stated, fails: a name ending in [/v1] does not get the list
    [1, 0] but the list [1] alone. *)
Lemma major_versions_of_v1_name :
  candidate_major_versions "example.com/a/v1" = Ok [1%N] /\
  candidate_major_versions "example.com/a/v1" <> Ok [1%N; 0%N].
Proof. split; [reflexivity | discriminate]. Qed.

(** C3, amended.  When the module name is a non-empty prefix followed by
    [/v] and decimal digits, the candidate list is [N] if the digits, at
    most 4300 of them, have a value N of at least 1, and with more than
    4300 digits no list is formed: the reifier raises [ValueError],
    whatever the repository.  The list is [1, 0] for every other name:
    names without such a suffix and names whose suffix has the value
    0. *)
Theorem major_versions_to_try_spec (module_name : string) :
  (forall ds,
     names_major module_name ds -> within_int_limit ds ->
     (1 <= int_of_digits ds)%N ->
     candidate_major_versions module_name = Ok [int_of_digits ds]) /\
  (forall ds,
     names_major module_name ds -> ~ within_int_limit ds ->
     candidate_major_versions module_name = Raise ValueError /\
     forall repo subpath commit_sha update_tags,
       _get_golang_version module_name repo subpath commit_sha update_tags
       = Raise ValueError) /\
  ((forall ds,
      names_major module_name ds ->
      within_int_limit ds /\ int_of_digits ds = 0%N) ->
   candidate_major_versions module_name = Ok [1%N; 0%N]).
Proof.
  unfold candidate_major_versions, module_major_version_of.
  split; [|split].
  - intros ds Hn Hlim Hpos.
    rewrite (match_major_version_complete _ _ Hn), (py_int_within _ Hlim).
    cbn [bind major_versions_to_try].
    destruct (int_of_digits ds =? 0)%N eqn:E; [|reflexivity].
    apply N.eqb_eq in E. lia.
  - intros ds Hn Hlim. split.
    + now rewrite (match_major_version_complete _ _ Hn), (py_int_beyond _ Hlim).
    + intros repo subpath commit_sha update_tags.
      unfold _get_golang_version, module_major_version_of.
      now rewrite (match_major_version_complete _ _ Hn),
        (py_int_beyond _ Hlim).
  - intro Hzero.
    destruct (match_major_version module_name) as [ds|] eqn:E;
      [|reflexivity].
    apply match_major_version_sound in E.
    destruct (Hzero ds E) as [Hlim Hz].
    rewrite (py_int_within _ Hlim), Hz. reflexivity.
Qed.

Example major_versions_examples :
  map candidate_major_versions
    ["example.com/a/v2"; "example.com/a"; "example.com/a/v0";
     "example.com/a/v1"; "example.com/a/v10"; "/v2";
     name_with_long_major]
  = [Ok [2]; Ok [1; 0]; Ok [1; 0]; Ok [1]; Ok [10]; Ok [1; 0];
     Raise ValueError]%N.
Proof. vm_compute. reflexivity. Qed.

(** ** Pseudo-versions *)

Lemma length_append (a b : string) :
  String.length (a ++ b) = String.length a + String.length b.
Proof. induction a as [|c a IH]; simpl; [reflexivity | now rewrite IH]. Qed.

Lemma append_assoc (a b c : string) :
  ((a ++ b) ++ c = a ++ (b ++ c))%string.
Proof. induction a as [|x a IH]; simpl; [reflexivity | now rewrite IH]. Qed.

Lemma append_nil_r (a : string) : (a ++ "")%string = a.
Proof. induction a as [|x a IH]; simpl; [reflexivity | now rewrite IH]. Qed.














(** Scenarios 1 to 3 of the specification, through the whole reifier. *)
Example version_of_tagged_head :
  _get_golang_version "example.com/a"
    (sample_repo ("v1.2.3" ++ NL) ("v1.2.3" ++ NL ++ "v1.0.0" ++ NL))
    None None true
  = Ok "v1.2.3".
Proof. reflexivity. Qed.

Example pseudo_version_after_tag :
  _get_golang_version "example.com/a"
    (sample_repo "" ("v1.0.0" ++ NL ++ "v1.2.3" ++ NL ++ "v0.9.0" ++ NL))
    None None true
  = Ok "v1.2.4-0.20240102030405-abcdef012345".
Proof. reflexivity. Qed.

Example pseudo_version_after_prerelease_tag :
  _get_golang_version "example.com/a/v2"
    (sample_repo "" ("v1.2.3" ++ NL ++ "v2.0.0-alpha" ++ NL))
    None None true
  = Ok "v2.0.0-alpha.0.20240102030405-abcdef012345".
Proof. reflexivity. Qed.

Example pseudo_version_without_tag :
  _get_golang_version "example.com/a/v3" (sample_repo "" "") None None true
  = Ok "v3.0.0-20240102030405-abcdef012345" /\
  _get_golang_version "example.com/a" (sample_repo "" "") None None true
  = Ok "v0.0.0-20240102030405-abcdef012345".
Proof. split; reflexivity. Qed.

(** ** Versions of the canonical modules *)

Lemma last_char_cons (a : ascii) (s : string) :
  s <> "" -> last_char (String a s) = last_char s.
Proof. destruct s; [contradiction | reflexivity]. Qed.

Lemma last_char_snoc (w : string) (a : ascii) :
  last_char (w ++ String a "") = Some a.
Proof.
  induction w as [|x w IH]; [reflexivity|].
  cbn [append]. rewrite last_char_cons; [assumption|].
  destruct w; discriminate.
Qed.

Lemma last_char_some (s : string) :
  s <> "" -> exists c, last_char s = Some c.
Proof.
  induction s as [|a s IH]; [contradiction|]. intros _.
  destruct s as [|b s]; [now exists a|].
  rewrite last_char_cons by discriminate. apply IH. discriminate.
Qed.

Lemma startswith_empty (u : string) : startswith "" u = true -> u = "".
Proof. destruct u; [reflexivity | discriminate]. Qed.

Lemma replace_from_last (old : string) (c : ascii) :
  old <> "" ->
  last_char old <> Some c ->
  forall s skip,
    inside_occurrence old skip s ->
    last_char s = Some c ->
    last_char (replace_from old "" skip s) = Some c.
Proof.
  intros Hne Hold. induction s as [|a s IH]; intros skip Hin Hlast;
    [discriminate|].
  destruct Hin as [w [u [Ho [Hlen Hst]]]].
  destruct skip as [|k].
  - cbn [replace_from].
    destruct (startswith (String a s) old) eqn:Eo.
    + cbn [append].
      destruct old as [|b old']; [contradiction|].
      cbn [startswith] in Eo. apply andb_true_iff in Eo as [Eb Eo].
      apply Ascii.eqb_eq in Eb. subst b.
      replace (String.length (String a old') - 1)
        with (String.length old') by (cbn [String.length]; lia).
      destruct s as [|b s].
      * apply startswith_empty in Eo. subst old'. cbn in Hlast.
        contradiction.
      * apply IH.
        -- exists (String a ""), old'. auto.
        -- now rewrite last_char_cons in Hlast by discriminate.
    + destruct s as [|b s]; [exact Hlast|].
      rewrite last_char_cons in Hlast by discriminate.
      assert (Hr : last_char (replace_from old "" 0 (String b s)) = Some c).
      { apply IH; [|assumption]. exists old, "".
        rewrite append_nil_r. auto. }
      rewrite last_char_cons; [assumption|].
      intro E. rewrite E in Hr. discriminate.
  - cbn [replace_from].
    destruct u as [|b u']; [discriminate|].
    cbn [startswith] in Hst. apply andb_true_iff in Hst as [Eb Hst].
    apply Ascii.eqb_eq in Eb. subst b.
    cbn [String.length] in Hlen. injection Hlen as Hlen.
    destruct s as [|b s].
    + apply startswith_empty in Hst. subst u'. cbn in Hlast.
      inversion Hlast; subst. elim Hold. apply last_char_snoc.
    + apply IH.
      * exists (w ++ String a "")%string, u'. repeat split; auto.
        rewrite append_assoc. assumption.
      * now rewrite last_char_cons in Hlast by discriminate.
Qed.

Lemma py_replace_last (s old : string) (c : ascii) :
  old <> "" -> last_char old <> Some c -> last_char s = Some c ->
  last_char (py_replace s old "") = Some c.
Proof.
  intros Hne Hold Hlast. unfold py_replace.
  destruct old as [|b old'] eqn:E; [contradiction|]. rewrite <- E in *.
  apply replace_from_last; [assumption | assumption | | assumption].
  exists old, "". rewrite append_nil_r. auto.
Qed.

Lemma all_chars_last (P : ascii -> bool) (s : string) (c : ascii) :
  all_chars P s = true -> last_char s = Some c -> P c = true.
Proof.
  induction s as [|a s IH]; [discriminate|].
  cbn [all_chars]. intros H Hl. apply andb_true_iff in H as [Ha Hs].
  destruct s as [|b s].
  - inversion Hl. now subst.
  - rewrite last_char_cons in Hl by discriminate. now apply IH.
Qed.

Lemma all_chars_impl (P Q : ascii -> bool) (s : string) :
  (forall c, P c = true -> Q c = true) ->
  all_chars P s = true -> all_chars Q s = true.
Proof.
  intro HPQ. induction s as [|a s IH]; [reflexivity|].
  cbn [all_chars]. intro H. apply andb_true_iff in H as [Ha Hs].
  now rewrite (HPQ a Ha), IH.
Qed.

Lemma split_on_all_chars (P : ascii -> bool) (sep : ascii) (s : string) :
  P sep = true ->
  forallb (all_chars P) (split_on sep s) = true -> all_chars P s = true.
Proof.
  intro Hsep. induction s as [|a s IH]; [reflexivity|].
  cbn [split_on all_chars].
  destruct (Ascii.eqb a sep) eqn:E.
  - apply Ascii.eqb_eq in E. subst. cbn [forallb all_chars andb].
    intro H. now rewrite Hsep, IH.
  - destruct (split_on sep s) as [|w ws].
    + cbn [forallb all_chars]. rewrite !andb_true_r. intro H.
      rewrite H. now rewrite IH.
    + cbn [forallb all_chars]. intro H.
      apply andb_true_iff in H as [H Hws].
      apply andb_true_iff in H as [Ha Hw].
      rewrite Ha. apply IH. cbn [forallb]. now rewrite Hw, Hws.
Qed.

Lemma break_at_all_chars (P : ascii -> bool) (sep : ascii) (s : string) :
  P sep = true ->
  all_chars P (fst (break_at sep s)) = true ->
  match snd (break_at sep s) with
  | Some b => all_chars P b = true
  | None => True
  end ->
  all_chars P s = true.
Proof.
  intro Hsep. induction s as [|a s IH]; [reflexivity|].
  cbn [break_at all_chars].
  destruct (Ascii.eqb a sep) eqn:E.
  - apply Ascii.eqb_eq in E. subst. cbn [fst snd]. intros _ H.
    now rewrite Hsep, H.
  - destruct (break_at sep s) as [x y]. cbn [fst snd all_chars] in *.
    intros H Hy. apply andb_true_iff in H as [Ha Hx].
    rewrite Ha. now apply IH.
Qed.

Lemma strip_final_lf_all_chars (P : ascii -> bool) (s : string) :
  P LF = true -> all_chars P (strip_final_lf s) = true ->
  all_chars P s = true.
Proof.
  intro Hlf. induction s as [|a s IH]; [reflexivity|].
  cbn [strip_final_lf]. destruct s as [|b s].
  - destruct (Ascii.eqb a LF) eqn:E; [|trivial].
    apply Ascii.eqb_eq in E. subst. intros _. cbn [all_chars].
    now rewrite Hlf.
  - cbn [all_chars] in *. intro H. apply andb_true_iff in H as [Ha Hs].
    rewrite Ha. now apply IH.
Qed.

Lemma isdigit_semver_char (c : ascii) :
  isdigit c = true -> semver_char c = true.
Proof.
  intro H. unfold semver_char, isalnum_hyphen. now rewrite H.
Qed.

Lemma isalnum_hyphen_semver_char (c : ascii) :
  isalnum_hyphen c = true -> semver_char c = true.
Proof. intro H. unfold semver_char. now rewrite H. Qed.

Lemma is_numeric_id_chars (w : string) :
  is_numeric_id w = true -> all_chars semver_char w = true.
Proof.
  intro H. apply (all_chars_impl isdigit); [exact isdigit_semver_char|].
  unfold is_numeric_id in H. destruct w as [|c w]; [discriminate|].
  cbn [all_chars].
  assert (Hor : w = "" /\ c = "0"%char \/
                isdigit c && negb (Ascii.eqb c "0") && all_chars isdigit w
                = true).
  { destruct c as [[] [] [] [] [] [] [] []]; auto.
    destruct w; auto. }
  destruct Hor as [[-> ->] | Hor]; [reflexivity|].
  apply andb_true_iff in Hor as [Hor Hw].
  apply andb_true_iff in Hor as [Hc _]. now rewrite Hc, Hw.
Qed.

Lemma is_prerelease_id_chars (w : string) :
  is_prerelease_id w = true -> all_chars semver_char w = true.
Proof.
  intro H.
  apply (all_chars_impl isalnum_hyphen); [exact isalnum_hyphen_semver_char|].
  unfold is_prerelease_id in H. destruct w; [discriminate|].
  now apply andb_true_iff in H as [H _].
Qed.

Lemma is_build_id_chars (w : string) :
  is_build_id w = true -> all_chars semver_char w = true.
Proof.
  intro H.
  apply (all_chars_impl isalnum_hyphen); [exact isalnum_hyphen_semver_char|].
  unfold is_build_id in H. now destruct w.
Qed.

Lemma forallb_impl {A : Type} (f g : A -> bool) (l : list A) :
  (forall x, f x = true -> g x = true) ->
  forallb f l = true -> forallb g l = true.
Proof.
  intros Hfg H. rewrite forallb_forall in *. intros x Hx.
  apply Hfg. now apply H.
Qed.

(** A string accepted by [Version_parse] is made of letters, digits,
    hyphens, dots and plus signs, with at most a final line feed. *)
Lemma Version_parse_chars (s : string) (v : Version) :
  Version_parse s = Ok v -> all_chars semver_char s = true.
Proof.
  unfold Version_parse. intro H.
  apply strip_final_lf_all_chars; [reflexivity|].
  apply (break_at_all_chars semver_char "+"); [reflexivity | |];
    destruct (break_at "+" (strip_final_lf s)) as [front build_part];
    cbn [fst snd];
    assert (Hf := break_at_all_chars semver_char "-" front eq_refl);
    destruct (break_at "-" front) as [core pre_part]; cbn [fst snd] in Hf;
    destruct (split_on "." core) as [|ma [|mi [|pa [|x l]]]] eqn:Ec;
    try discriminate;
    destruct (is_numeric_id ma && is_numeric_id mi && is_numeric_id pa
              && match pre_part with
                 | Some p => forallb is_prerelease_id (split_on "." p)
                 | None => true
                 end
              && match build_part with
                 | Some b => forallb is_build_id (split_on "." b)
                 | None => true
                 end) eqn:E; try discriminate;
    apply andb_true_iff in E as [E Hb];
    apply andb_true_iff in E as [E Hp];
    apply andb_true_iff in E as [E Hpa];
    apply andb_true_iff in E as [Hma Hmi].
  - apply Hf.
    + apply (split_on_all_chars semver_char "."); [reflexivity|].
      rewrite Ec. cbn [forallb].
      now rewrite (is_numeric_id_chars ma), (is_numeric_id_chars mi),
        (is_numeric_id_chars pa).
    + destruct pre_part as [p|]; [|exact I].
      apply (split_on_all_chars semver_char "."); [reflexivity|].
      exact (forallb_impl _ _ _ is_prerelease_id_chars Hp).
  - destruct build_part as [b|]; [|exact I].
    apply (split_on_all_chars semver_char "."); [reflexivity|].
    exact (forallb_impl _ _ _ is_build_id_chars Hb).
Qed.

Lemma Version_parse_no_final_slash (s : string) (v : Version) :
  Version_parse s = Ok v -> last_char s <> Some "/"%char.
Proof.
  intros H Hl. apply Version_parse_chars in H.
  pose proof (all_chars_last _ _ _ H Hl) as Hc. discriminate.
Qed.

Lemma startswith_app (s p q : string) :
  startswith s (p ++ q) = true -> startswith s p = true.
Proof.
  revert s. induction p as [|a p IH]; intros s H; [reflexivity|].
  destruct s as [|b s]; [discriminate|].
  cbn [append startswith] in *. apply andb_true_iff in H as [Hab H].
  now rewrite Hab, (IH s H).
Qed.

Lemma startswith_nonempty (s p : string) :
  p <> "" -> startswith s p = true -> s <> "".
Proof. intros Hp H ->. destruct p; [contradiction | discriminate]. Qed.

(** A tag below a sub-path whose version part parses keeps something when
    the sub-path is cut out of it. *)
Lemma tag_without_subpath_nonempty (tag sub : string) (v : Version) :
  startswith tag (sub ++ "/v") = true ->
  Version_parse (py_replace tag (sub ++ "/v") "") = Ok v ->
  py_replace tag (sub ++ "/") "" <> "".
Proof.
  intros Hst Hv.
  assert (Hq : (sub ++ "/v")%string <> "") by (destruct sub; discriminate).
  assert (Hp : (sub ++ "/")%string <> "") by (destruct sub; discriminate).
  destruct (last_char_some tag (startswith_nonempty _ _ Hq Hst)) as [c Hc].
  destruct (Ascii.eqb c "/") eqn:E.
  - apply Ascii.eqb_eq in E. subst c. exfalso.
    apply (Version_parse_no_final_slash _ _ Hv).
    apply py_replace_last; [assumption | | assumption].
    change (sub ++ "/v")%string with (sub ++ "/" ++ String "v" "")%string.
    rewrite <- append_assoc, last_char_snoc. discriminate.
  - intro Hempty.
    assert (Hl : last_char (py_replace tag (sub ++ "/") "") = Some c).
    { apply py_replace_last; [assumption | | assumption].
      rewrite last_char_snoc. intro H. inversion H. subst.
      discriminate. }
    rewrite Hempty in Hl. discriminate.
Qed.

Lemma highest_semver_found
    (major_version : N) (subpath : option string) (R : string -> Prop)
    (tags : list string) :
  forall highest,
    (forall t, In t tags -> R t) ->
    (forall t v, highest = Some (t, v) ->
       R t /\ _get_semantic_version_from_tag t subpath = Ok v) ->
    forall t v,
      highest_semver major_version subpath highest tags = Some (t, v) ->
      R t /\ _get_semantic_version_from_tag t subpath = Ok v.
Proof.
  induction tags as [|tag tags IH]; intros highest Htags Hh t v H.
  - now apply Hh.
  - cbn [highest_semver] in H. apply IH in H; [assumption | |].
    + intros t' Hin. apply Htags. now right.
    + intros t' v' Hnext.
      destruct (_get_semantic_version_from_tag tag subpath) as [sv|] eqn:Ep;
        [|now apply Hh].
      destruct (negb (major sv =? major_version)%N); [now apply Hh|].
      assert (Hnew : R tag /\ _get_semantic_version_from_tag tag subpath
                                = Ok sv)
        by (split; [apply Htags; now left | assumption]).
      destruct highest as [[bt bv]|].
      * destruct (Version_gt sv bv); [|now apply Hh].
        inversion Hnext; subst. assumption.
      * inversion Hnext; subst. assumption.
Qed.

Lemma highest_semver_tag_found
    (repo : Repo) (commit : Commit) (major_version : N)
    (all_reachable : bool) (subpath : option string) (tag : string) :
  _get_highest_semver_tag repo commit major_version all_reachable subpath
  = Ok (Some tag) ->
  startswith tag
    (if truthy subpath then (str_of subpath ++ "/v")%string else "v") = true /\
  exists v, _get_semantic_version_from_tag tag subpath = Ok v.
Proof.
  unfold _get_highest_semver_tag.
  destruct (if all_reachable
            then git_tags_merged repo (hexsha commit)
            else git_tag_points_at repo (hexsha commit)) as [output|];
    [|discriminate].
  cbn [bind].
  set (prefix := if truthy subpath then (str_of subpath ++ "/v")%string
                 else "v").
  destruct (highest_semver major_version subpath None _) as [[t v]|] eqn:E;
    [|discriminate].
  intro H. inversion H; subst t. clear H.
  apply (highest_semver_found major_version subpath
           (fun t => startswith t prefix = true)) in E.
  - destruct E as [Hs Hv]. split; [assumption | now exists v].
  - intros t Hin. apply filter_In in Hin. tauto.
  - discriminate.
Qed.

Lemma tag_on_commit_nonempty
    (repo : Repo) (commit : Commit) (subpath : option string)
    (majors : list N) (v : string) :
  tag_on_commit_loop repo commit subpath majors = Ok (Some v) -> v <> "".
Proof.
  induction majors as [|major_version majors IH]; [discriminate|].
  cbn [tag_on_commit_loop].
  destruct (_get_highest_semver_tag repo commit major_version false subpath)
    as [[tag|]|] eqn:E; cbn [bind]; try discriminate; [|assumption].
  apply highest_semver_tag_found in E. destruct E as [Hs [sv Hv]].
  intro H. inversion H; subst v. clear H.
  unfold _get_semantic_version_from_tag in Hv.
  destruct (truthy subpath); cbn [negb].
  - now apply (tag_without_subpath_nonempty tag (str_of subpath) sv).
  - apply (startswith_nonempty tag "v"); [discriminate | assumption].
Qed.

Lemma pseudo_version_nonempty
    (commit : Commit) (tag : option string) (module_major_version : option N)
    (subpath : option string) (v : string) :
  _get_golang_pseudo_version commit tag module_major_version subpath = Ok v ->
  v <> "".
Proof.
  unfold _get_golang_pseudo_version.
  destruct (utcfromtimestamp (committed_date commit)) as [dt|];
    [|discriminate].
  cbn [bind]. destruct tag as [tag_name|].
  - destruct (_get_semantic_version_from_tag tag_name subpath) as [sv|];
      [|discriminate].
    cbn [bind]. destruct (truthy (prerelease sv));
      intro H; inversion H; discriminate.
  - intro H. inversion H. discriminate.
Qed.

Lemma pseudo_base_nonempty
    (repo : Repo) (commit : Commit) (subpath : option string)
    (majors : list N) (v : string) :
  pseudo_base_loop repo commit subpath majors = Ok (Some v) -> v <> "".
Proof.
  induction majors as [|major_version majors IH]; [discriminate|].
  cbn [pseudo_base_loop].
  destruct (_get_highest_semver_tag repo commit major_version true subpath)
    as [[tag|]|]; cbn [bind]; try discriminate; [|assumption].
  destruct (_get_golang_pseudo_version commit (Some tag)
              (Some major_version) subpath) as [pv|] eqn:E;
    [|discriminate].
  cbn [bind]. intro H. inversion H; subst.
  now apply pseudo_version_nonempty in E.
Qed.

(** The reifier never returns an empty version. *)
Lemma golang_version_nonempty
    (module_name : string) (repo : Repo) (subpath : option string)
    (commit_sha : option string) (update_tags : bool) (v : string) :
  _get_golang_version module_name repo subpath commit_sha update_tags = Ok v ->
  v <> "".
Proof.
  unfold _get_golang_version.
  destruct (module_major_version_of module_name) as [module_major_version|];
    [|discriminate].
  cbn [bind].
  destruct (if update_tags then fetch_tags repo else None); [discriminate|].
  cbn [bind].
  destruct (match commit_sha with
            | Some sha => Ok sha
            | None => rev_parse_HEAD repo
            end) as [sha|]; [|discriminate].
  cbn [bind]. destruct (repo_commit repo sha) as [commit|]; [|discriminate].
  cbn [bind].
  destruct (tag_on_commit_loop repo commit subpath _) as [[on|]|] eqn:E1;
    cbn [bind]; try discriminate.
  - intro H. inversion H; subst. now apply tag_on_commit_nonempty in E1.
  - destruct (pseudo_base_loop repo commit subpath _) as [[pv|]|] eqn:E2;
      cbn [bind]; try discriminate.
    + intro H. inversion H; subst. now apply pseudo_base_nonempty in E2.
    + apply pseudo_version_nonempty.
Qed.

Lemma truthy_str_of (o : option string) :
  truthy o = true <-> str_of o <> "".
Proof.
  destruct o as [s|]; simpl.
  - destruct (String.eqb_spec s ""); simpl; split; congruence.
  - split; [discriminate | congruence].
Qed.

Lemma created_module_version
    (main_module : Module) (main_module_dir : RootedPath) (repo : Repo)
    (parsed : ParsedModule) (m : Module) :
  _create_module main_module main_module_dir repo parsed = Ok m ->
  version_as_created parsed m.
Proof.
  unfold _create_module, version_as_created.
  destruct (pm_replace parsed) as [replace|] eqn:Er.
  - destruct (truthy (pm_version replace)) eqn:Et.
    + intro H. inversion H; subst; clear H. cbn [version].
      split; [discriminate|]. intros _. now apply truthy_str_of.
    + destruct (join_within_root main_module_dir (pm_path replace))
        as [resolved|]; [|discriminate].
      cbn [bind].
      destruct (_get_golang_version (pm_path parsed) repo
                  (subpath_from_root resolved) None false) as [v|] eqn:Ev;
        [|discriminate].
      cbn [bind].
      destruct (_resolve_path_for_local_replacement main_module parsed);
        [|discriminate].
      cbn [bind]. intro H. inversion H; subst; clear H. cbn [version].
      split; [discriminate|]. intros _.
      now apply golang_version_nonempty in Ev.
  - intro H. inversion H; subst; clear H. cbn [version].
    destruct (truthy (pm_version parsed)) eqn:Et.
    + split; [reflexivity|]. intros _. now apply truthy_str_of.
    + split.
      * intros _. destruct (pm_version parsed) as [s|]; [|reflexivity].
        simpl in Et. apply negb_false_iff, String.eqb_eq in Et. now subst.
      * intros [H | H]; [contradiction | discriminate].
Qed.

Lemma mapM_Forall2 {A B : Type} (f : A -> result B) (l : list A) :
  forall l', mapM f l = Ok l' -> Forall2 (fun x y => f x = Ok y) l l'.
Proof.
  induction l as [|x l IH]; intros l' H; simpl in H.
  - inversion H. constructor.
  - destruct (f x) as [y|] eqn:Ef; [|discriminate]. cbn [bind] in H.
    destruct (mapM f l) as [ys|]; [|discriminate]. cbn [bind] in H.
    inversion H; subst. constructor; [assumption | now apply IH].
Qed.

(** C1, as stated, fails: a parsed module without version and without
    replacement becomes a module whose version is the empty string. *)
Lemma created_module_empty_version :
  _create_modules_from_parsed_data sample_main_module empty_dir
    (sample_repo "" "") [sample_bare_module]
  = Ok [mkModule "example.com/x" "example.com/x" "example.com/x" "" false] /\
  version (mkModule "example.com/x" "example.com/x" "example.com/x" "" false)
  = "".
Proof. split; reflexivity. Qed.

(** C1, amended.  When module creation succeeds, the modules match the
    parsed modules one to one; a module made from a parsed module with a
    replacement (by version or by local path) or with a non-empty version
    has a non-empty version, and a module made from a parsed module
    without replacement carries that module's version, the empty string
    standing for a missing one. *)
Theorem created_modules_versions
    (main_module : Module) (main_module_dir : RootedPath) (repo : Repo)
    (parsed_modules : list ParsedModule) (modules : list Module) :
  _create_modules_from_parsed_data main_module main_module_dir repo
    parsed_modules = Ok modules ->
  Forall2 version_as_created parsed_modules modules.
Proof.
  intro H. apply mapM_Forall2 in H.
  induction H as [|parsed m ps ms Hm _ IH]; constructor; [|assumption].
  now apply (created_module_version main_module main_module_dir repo).
Qed.

Lemma created_modules_versions_witness :
  Forall2 version_as_created
    [sample_replaced_module; sample_local_module]
    [mkModule "example.com/c" "example.com/b" "example.com/c" "v1.1.0" false;
     mkModule "example.com/d" "example.com/d" "example.com/a/local"
       "v1.2.4-0.20240102030405-abcdef012345" false].
Proof.
  apply (created_modules_versions sample_main_module dir_with_local
           (sample_repo "" ("local/v1.2.3" ++ NL ++ "v1.0.0" ++ NL))).
  reflexivity.
Defined.

(** ** Version replacement and the packages of a replaced module *)

(** A module replaced by another version is recorded under the
    replacement's path, keeps its declared path as [original_name], and
    takes the replacement's version. *)
Lemma create_module_version_replacement
    (main_module : Module) (main_module_dir : RootedPath) (repo : Repo)
    (path : string) (version : option string) (is_main : bool)
    (new_path new_version : string) (main' : bool)
    (replace' : option ParsedModule) :
  new_version <> "" ->
  _create_module main_module main_module_dir repo
    (mkParsedModule path version is_main
       (Some (mkParsedModule new_path (Some new_version) main' replace')))
  = Ok (mkModule new_path path new_path new_version false).
Proof.
  intro H. unfold _create_module. cbn [pm_replace pm_version pm_path truthy].
  apply String.eqb_neq in H. rewrite H. reflexivity.
Qed.

Lemma split_on_no_sep (sep : ascii) (x : string) :
  contains_char sep x = false -> split_on sep x = [x].
Proof.
  induction x as [|a x IH]; [reflexivity|].
  cbn [contains_char split_on]. intro H.
  apply orb_false_iff in H as [Ha Hx].
  rewrite Ascii.eqb_sym in Ha. rewrite Ha, (IH Hx). reflexivity.
Qed.

Lemma split_on_app_sep (sep : ascii) (x rest : string) :
  contains_char sep x = false ->
  split_on sep (x ++ String sep rest) = x :: split_on sep rest.
Proof.
  induction x as [|a x IH].
  - intros _. cbn [append split_on]. now rewrite Ascii.eqb_refl.
  - cbn [contains_char append split_on]. intro H.
    apply orb_false_iff in H as [Ha Hx].
    rewrite Ascii.eqb_sym in Ha. rewrite Ha, (IH Hx). reflexivity.
Qed.

Lemma clean_component_spec (c : string) :
  clean_component c = true ->
  c <> "" /\ c <> "." /\ contains_char "/" c = false.
Proof.
  unfold clean_component. intro H.
  apply andb_true_iff in H as [H H3]. apply andb_true_iff in H as [H1 H2].
  apply negb_true_iff in H1, H2, H3.
  apply String.eqb_neq in H1, H2. auto.
Qed.

Lemma split_on_concat (comps : list string) :
  comps <> [] ->
  forallb clean_component comps = true ->
  split_on "/" (String.concat "/" comps) = comps.
Proof.
  induction comps as [|x comps IH]; [contradiction|]. intros _ H.
  cbn [forallb] in H. apply andb_true_iff in H as [Hx Hc].
  apply clean_component_spec in Hx. destruct Hx as (_ & _ & Hx).
  destruct comps as [|y comps].
  - cbn [String.concat]. now apply split_on_no_sep.
  - change (String.concat "/" (x :: y :: comps))
      with (x ++ String "/" (String.concat "/" (y :: comps)))%string.
    rewrite (split_on_app_sep "/" x _ Hx), IH; [reflexivity | discriminate |].
    assumption.
Qed.

Lemma concat_no_leading_slash (comps : list string) :
  forallb clean_component comps = true ->
  startswith (String.concat "/" comps) "/" = false.
Proof.
  destruct comps as [|x comps]; [reflexivity|]. intro H.
  cbn [forallb] in H. apply andb_true_iff in H as [Hx _].
  apply clean_component_spec in Hx. destruct Hx as (Hne & _ & Hx).
  destruct x as [|a x]; [contradiction|].
  cbn [contains_char] in Hx. apply orb_false_iff in Hx as [Ha _].
  destruct comps; cbn [String.concat append startswith]; now rewrite Ha.
Qed.

Lemma filter_clean (comps : list string) :
  forallb clean_component comps = true ->
  filter (fun x => negb (str_eqb_any x [""; "."])) comps = comps.
Proof.
  induction comps as [|x comps IH]; [reflexivity|]. intro H.
  cbn [forallb] in H. apply andb_true_iff in H as [Hx Hc].
  cbn [filter]. rewrite (IH Hc).
  apply clean_component_spec in Hx. destruct Hx as (H1 & H2 & _).
  unfold str_eqb_any, mem. cbn [existsb].
  apply String.eqb_neq in H1, H2. now rewrite H1, H2.
Qed.

(** The path made of clean components parses into these components. *)
Lemma Path_of_components (comps : list string) :
  forallb clean_component comps = true ->
  Path (String.concat "/" comps) = mkPurePath "" comps.
Proof.
  intro H. unfold Path, splitroot.
  rewrite (concat_no_leading_slash comps H).
  destruct comps as [|x comps]; [reflexivity|].
  rewrite split_on_concat by (assumption || discriminate).
  now rewrite filter_clean.
Qed.

Lemma list_eqb_refl (l : list string) : list_eqb l l = true.
Proof.
  induction l as [|x l IH]; [reflexivity|].
  cbn [list_eqb]. now rewrite String.eqb_refl, IH.
Qed.

Lemma firstn_app_exact {A : Type} (a b : list A) :
  firstn (List.length a) (a ++ b) = a.
Proof. induction a as [|x a IH]; simpl; [reflexivity | now rewrite IH]. Qed.

Lemma skipn_app_exact {A : Type} (a b : list A) :
  skipn (List.length a) (a ++ b) = b.
Proof. induction a as [|x a IH]; simpl; [reflexivity | assumption]. Qed.

(** The relative path of a package below its module, for import paths
    made of clean components: the components after those of the module's
    original name, provided the first of them does not begin with a
    dot. *)
Lemma package_relative_path_clean
    (package : ParsedPackage) (module : Module)
    (above below : list string) :
  above <> [] ->
  forallb clean_component (above ++ below) = true ->
  match below with
  | [] => True
  | first :: _ => startswith first "." = false
  end ->
  import_path package = String.concat "/" (above ++ below) ->
  original_name module = String.concat "/" above ->
  _resolve_package_relative_path package module
  = Ok (String.concat "/" below).
Proof.
  intros Hne Hclean Hdot Hi Ho. unfold _resolve_package_relative_path.
  assert (Ha : forallb clean_component above = true)
    by (rewrite forallb_app in Hclean; now apply andb_true_iff in Hclean).
  rewrite Hi, Ho, (Path_of_components _ Hclean), (Path_of_components _ Ha).
  unfold relative_to. cbn [abs_parts anchor parts].
  destruct (List.length above =? 0)%nat eqn:En.
  { apply Nat.eqb_eq in En. destruct above; [contradiction | discriminate]. }
  rewrite firstn_app_exact, list_eqb_refl, skipn_app_exact. cbn [negb bind].
  f_equal. unfold path_str. cbn [anchor parts].
  destruct below as [|first rest]; [reflexivity|].
  unfold removeprefix.
  assert (Hs : startswith (String.concat "/" (first :: rest)) "."
               = false).
  { destruct first as [|a first].
    - rewrite forallb_app in Hclean.
      apply andb_true_iff in Hclean as [_ Hb]. discriminate.
    - cbn [startswith] in Hdot. rewrite andb_true_r in Hdot.
      destruct rest; cbn [String.concat append startswith];
        now rewrite Hdot. }
  change (append "" (String.concat "/" (first :: rest)))
    with (String.concat "/" (first :: rest)).
  now rewrite Hs.
Qed.

(** A package that carries its module is joined through the module's
    declared path; its purl name is built from the module's [real_path]. *)
Lemma create_package_clean
    (modules : list Module) (package : ParsedPackage)
    (parsed : ParsedModule) (module : Module)
    (above below : list string) :
  standard package = false ->
  pp_module package = Some parsed ->
  dict_get String.eqb (index_modules modules) (pm_path parsed) = Some module ->
  above <> [] ->
  forallb clean_component (above ++ below) = true ->
  match below with
  | [] => True
  | first :: _ => startswith first "." = false
  end ->
  import_path package = String.concat "/" (above ++ below) ->
  original_name module = String.concat "/" above ->
  _create_package (index_modules modules) package
  = Ok (Package (String.concat "/" below) module) /\
  purl_name (AnyPackage_purl (Package (String.concat "/" below) module))
  = match below with
    | [] => real_path module
    | _ => (real_path module ++ "/" ++ String.concat "/" below)%string
    end.
Proof.
  intros Hstd Hmod Hget Hne Hclean Hdot Hi Ho. split.
  - unfold _create_package, dict_lookup. rewrite Hstd, Hmod, Hget.
    cbn [bind].
    now rewrite (package_relative_path_clean package module above below).
  - cbn [AnyPackage_purl purl_name]. unfold Package_real_path.
    destruct below as [|first rest]; [reflexivity|].
    destruct (String.concat "/" (first :: rest)) eqn:E; [|reflexivity].
    exfalso. rewrite forallb_app in Hclean.
    apply andb_true_iff in Hclean as [_ Hb]. cbn [forallb] in Hb.
    apply andb_true_iff in Hb as [Hf _].
    apply clean_component_spec in Hf. destruct Hf as [Hf _].
    destruct first; [contradiction|]. destruct rest; discriminate.
Qed.

Example package_of_replaced_module :
  _create_packages_from_parsed_data
    [sample_main_module; sample_replaced_created]
    [mkParsedPackage "example.com/b/sub" false (Some sample_replaced_module)]
  = Ok [Package "sub" sample_replaced_created] /\
  purl_name (AnyPackage_purl (Package "sub" sample_replaced_created))
  = "example.com/c/sub".
Proof. split; reflexivity. Qed.

(** C5.  The module record of a version replacement is as claimed, and a
    package of the replaced module is joined through [original_name];
    but for the package [example.com/b/.sub] the relative path computed
    is [sub], not the portion [.sub] of the import path below the
    original name, and the purl name is built from it. *)
Theorem package_relative_path_drops_leading_dot :
  _create_module sample_main_module empty_dir (sample_repo "" "")
    sample_replaced_module = Ok sample_replaced_created /\
  import_path
    (mkParsedPackage "example.com/b/.sub" false (Some sample_replaced_module))
  = (original_name sample_replaced_created ++ "/" ++ ".sub")%string /\
  _create_packages_from_parsed_data
    [sample_main_module; sample_replaced_created]
    [mkParsedPackage "example.com/b/.sub" false (Some sample_replaced_module)]
  = Ok [Package "sub" sample_replaced_created] /\
  purl_name (AnyPackage_purl (Package "sub" sample_replaced_created))
  = "example.com/c/sub".
Proof. repeat split; reflexivity. Qed.

(** * Further properties *)

(** ** More on the merge of the module views *)

Lemma merge_step_cases (d : @dict Key ParsedModule) (a : ParsedModule) :
  (In (get_unique_key a) (dict_keys d) /\ merge_step d a = d) \/
  (~ In (get_unique_key a) (dict_keys d) /\
   merge_step d a = d ++ [(get_unique_key a, a)]).
Proof.
  unfold merge_step, setdefault.
  destruct (dict_mem Key_eqb d (get_unique_key a)) eqn:E.
  - left. split; [now apply dict_mem_In | reflexivity].
  - right. split; [|reflexivity]. intro H. apply dict_mem_In in H.
    congruence.
Qed.

Lemma merge_fold_extends (l : list ParsedModule) :
  forall d,
    exists ext,
      fold_left merge_step l d = d ++ ext /\
      forall k m, In (k, m) ext ->
        In m l /\ ~ In k (dict_keys d) /\ k = get_unique_key m.
Proof.
  induction l as [|a l IH]; intro d; simpl.
  - exists []. rewrite app_nil_r. split; [reflexivity | intros k m []].
  - destruct (IH (merge_step d a)) as [ext [Hext Hin]].
    destruct (merge_step_cases d a) as [[Hmem Hs] | [Hmem Hs]];
      rewrite Hs in *.
    + exists ext. split; [assumption|]. intros k m Hk.
      destruct (Hin k m Hk) as (H1 & H2 & H3). auto.
    + exists ((get_unique_key a, a) :: ext). split.
      * rewrite Hext, <- app_assoc. reflexivity.
      * intros k m [Heq | Hk].
        -- inversion Heq; subst. repeat split; auto.
        -- destruct (Hin k m Hk) as (H1 & H2 & H3).
           repeat split; auto. intro Hd. apply H2.
           unfold dict_keys in *. rewrite map_app. apply in_or_app. now left.
Qed.

Lemma merge_fold_keys_cover (l : list ParsedModule) (m : ParsedModule) :
  In m l -> In (get_unique_key m) (dict_keys (fold_left merge_step l [])).
Proof.
  intro Hin.
  destruct (merge_fold_spec l []) as [Hk [_ Hiff]];
    [intros k v [] | constructor |].
  destruct (first_with_key_exists l m Hin) as [m' [Hfirst Heq]].
  rewrite <- (keyed_values_keys _ Hk), <- Heq. apply in_map.
  apply Hiff. right. split; [intros [] | assumption].
Qed.

(** X1.  The downloaded modules can only add to the merge: the merged
    list starts with the merge of the package modules alone, and what
    follows are downloaded modules whose key no package module has. *)
Theorem deduplicate_downloaded_only_append
    (package_modules downloaded_modules : list ParsedModule) :
  exists added,
    _deduplicate_resolved_modules package_modules downloaded_modules
    = _deduplicate_resolved_modules package_modules [] ++ added /\
    forall m, In m added ->
      In m downloaded_modules /\
      forall m', In m' package_modules ->
                 get_unique_key m' <> get_unique_key m.
Proof.
  unfold _deduplicate_resolved_modules. fold merge_step.
  rewrite app_nil_r, fold_left_app.
  destruct (merge_fold_extends downloaded_modules
              (fold_left merge_step package_modules []))
    as [ext [Hext Hin]].
  exists (dict_values ext). rewrite Hext. unfold dict_values at 1.
  rewrite map_app. split; [reflexivity|].
  intros m Hm. unfold dict_values in Hm. apply in_map_iff in Hm.
  destruct Hm as [[k m0] [Heq Hkm]]. simpl in Heq. subst m0.
  destruct (Hin k m Hkm) as (H1 & H2 & H3). split; [assumption|].
  intros m' Hm' Hkey. apply H2. rewrite H3, <- Hkey.
  now apply merge_fold_keys_cover.
Qed.

Lemma merge_fold_distinct (l : list ParsedModule) :
  forall d,
    NoDup (map get_unique_key l) ->
    (forall m, In m l -> ~ In (get_unique_key m) (dict_keys d)) ->
    fold_left merge_step l d = d ++ map (fun m => (get_unique_key m, m)) l.
Proof.
  induction l as [|a l IH]; intros d Hnd Hd; simpl.
  - now rewrite app_nil_r.
  - inversion Hnd as [|x xs Hnot Hnd']; subst.
    destruct (merge_step_cases d a) as [[Hmem Hs] | [Hmem Hs]];
      [elim (Hd a); [now left | assumption]|].
    rewrite Hs.
    rewrite IH; [now rewrite <- app_assoc | assumption |].
    intros m Hm Hin. unfold dict_keys in Hin. rewrite map_app in Hin.
    apply in_app_or in Hin as [Hin | [Heq | []]].
    + apply (Hd m); [now right | assumption].
    + simpl in Heq. apply Hnot. rewrite Heq. now apply in_map.
Qed.

Lemma deduplicate_distinct (l : list ParsedModule) :
  NoDup (map get_unique_key l) -> _deduplicate_resolved_modules l [] = l.
Proof.
  intro Hnd. unfold _deduplicate_resolved_modules. fold merge_step.
  rewrite app_nil_r, merge_fold_distinct; [|assumption | intros m _ []].
  simpl. unfold dict_values. rewrite map_map. simpl. apply map_id.
Qed.

(** X2.  A list of modules with pairwise distinct keys is left as it is
    by the merge, order included; hence merging is idempotent. *)
Theorem deduplicate_idempotent
    (package_modules downloaded_modules : list ParsedModule) :
  (NoDup (map get_unique_key package_modules) ->
   _deduplicate_resolved_modules package_modules [] = package_modules) /\
  _deduplicate_resolved_modules
    (_deduplicate_resolved_modules package_modules downloaded_modules) []
  = _deduplicate_resolved_modules package_modules downloaded_modules.
Proof.
  split; [apply deduplicate_distinct|].
  apply deduplicate_distinct.
  unfold _deduplicate_resolved_modules. fold merge_step.
  destruct (merge_fold_spec (package_modules ++ downloaded_modules) [])
    as [Hk [Hnd _]]; [intros k v [] | constructor |].
  now rewrite keyed_values_keys.
Qed.

(** ** More on the vendor manifest *)

Lemma py_split_tokens (s : string) : Forall is_token (py_split s).
Proof.
  induction s as [|c s IH]; [constructor|].
  cbn [py_split]. destruct (isspace c) eqn:Ec; [assumption|].
  assert (Hone : is_token (String c "")).
  { split; [discriminate|]. cbn [all_chars]. now rewrite Ec. }
  destruct s as [|c' s']; [now constructor|].
  destruct (isspace c') eqn:Ec'; [now constructor|].
  destruct (py_split (String c' s')) as [|w ws]; [now constructor|].
  inversion IH as [|x xs [Hne Hw] Hws]; subst.
  constructor; [|assumption]. split; [discriminate|].
  cbn [all_chars]. now rewrite Ec, Hw.
Qed.

Lemma shape_manifest_module (fields : list string) (m : ParsedModule) :
  Forall is_token fields -> module_shape fields m -> manifest_module m.
Proof.
  intros Hf Hs. unfold manifest_module.
  inversion Hs; subst; cbn [pm_path pm_version pm_main pm_replace opt_token];
    repeat match goal with
      | H : Forall _ (_ :: _) |- _ => inversion H; subst; clear H
      end;
    repeat match goal with
      | H : is_token _ |- _ => destruct H
      end;
    repeat split; auto; discriminate.
Qed.

(** X3.  Every field of a parsed module line is a non-empty run of
    characters other than whitespace; the module is never flagged as main,
    its replacement has no replacement of its own, and a module without
    replacement has a version. *)
Theorem parse_module_line_fields (line : string) (m : ParsedModule) :
  parse_module_line line = Ok m -> manifest_module m.
Proof.
  intro H. apply parse_module_line_shape in H.
  apply (shape_manifest_module (module_fields line)); [|assumption].
  apply py_split_tokens.
Qed.

Lemma parse_module_line_fields_witness :
  manifest_module
    (mkParsedModule "example.com/b" (Some "v1.0.0") false
       (Some (mkParsedModule "example.com/c" (Some "v1.1.0") false None))).
Proof.
  apply (parse_module_line_fields
           "# example.com/b v1.0.0 =>   example.com/c v1.1.0").
  reflexivity.
Defined.

Lemma vendor_step_modules (st st' : list ParsedModule * list bool) line :
  vendor_step st line = Ok st' ->
  Forall manifest_module (fst st) -> Forall manifest_module (fst st').
Proof.
  intros Hstep Hall. destruct (classify line) eqn:Ec.
  - rewrite (vendor_step_module _ _ Ec) in Hstep.
    destruct (parse_module_line line) as [m|] eqn:Em; [|discriminate].
    cbn [bind] in Hstep. inversion Hstep; subst. cbn [fst].
    apply Forall_app. split; [assumption|]. constructor; [|constructor].
    now apply (parse_module_line_fields line).
  - rewrite (vendor_step_package _ _ Ec) in Hstep.
    destruct (fst st) eqn:E; [discriminate|].
    destruct (set_last (snd st) true); [|discriminate].
    cbn [bind] in Hstep. inversion Hstep; subst. cbn [fst]. assumption.
  - rewrite (vendor_step_marker _ _ Ec) in Hstep.
    inversion Hstep; subst. assumption.
  - rewrite (vendor_step_other _ _ Ec) in Hstep. discriminate.
Qed.

Lemma vendor_loop_modules (lines : list string) :
  forall st st',
    vendor_loop st lines = Ok st' ->
    Forall manifest_module (fst st) -> Forall manifest_module (fst st').
Proof.
  induction lines as [|line rest IH]; intros st st' Hrun Hall.
  - simpl in Hrun. inversion Hrun; subst. assumption.
  - cbn [vendor_loop] in Hrun.
    destruct (vendor_step st line) as [st1|] eqn:E; [|discriminate].
    cbn [bind] in Hrun. apply (IH st1 st' Hrun).
    now apply (vendor_step_modules st st1 line).
Qed.

Lemma with_packages_subset (st : list ParsedModule * list bool) m :
  In m (with_packages st) -> In m (fst st).
Proof.
  unfold with_packages. intro H. apply in_map_iff in H.
  destruct H as [[m' b] [Heq Hin]]. simpl in Heq. subst m'.
  apply filter_In in Hin. destruct Hin as [Hin _].
  now apply in_combine_l in Hin.
Qed.

Lemma parse_vendor_manifest_modules (module_dir : RootedPath) parsed :
  _parse_vendor module_dir = Ok parsed -> Forall manifest_module parsed.
Proof.
  unfold _parse_vendor.
  destruct (join_within_root module_dir "vendor/modules.txt") as [txt|];
    [|discriminate].
  cbn [bind]. destruct (negb (path_exists txt)).
  - intro H. inversion H. constructor.
  - destruct (read_text txt) as [text|]; [|discriminate]. cbn [bind].
    unfold parse_vendor_lines.
    destruct (vendor_loop ([], []) (py_splitlines text)) as [st|] eqn:E;
      [|discriminate].
    cbn [bind]. intro H. inversion H; subst.
    apply vendor_loop_modules in E; [|constructor].
    apply Forall_forall. intros m Hm. apply with_packages_subset in Hm.
    rewrite Forall_forall in E. now apply E.
Qed.

Lemma manifest_module_versioned (m : ParsedModule) :
  manifest_module m ->
  pm_replace m <> None \/ truthy (pm_version m) = true.
Proof.
  intros (_ & Hv & _ & Hr).
  destruct (pm_replace m) as [r|]; [left; discriminate | right].
  destruct (pm_version m) as [v|]; [|contradiction].
  destruct Hv as [Hne _]. simpl. apply negb_true_iff.
  now apply String.eqb_neq.
Qed.

(** X4.  Modules read from a vendor manifest never fall back to the empty
    version: whenever the canonical modules can be created from the parsed
    manifest, each of them has a non-empty version. *)
Theorem vendored_modules_have_versions
    (module_dir : RootedPath) (parsed : list ParsedModule)
    (main_module : Module) (main_module_dir : RootedPath) (repo : Repo)
    (modules : list Module) :
  _parse_vendor module_dir = Ok parsed ->
  _create_modules_from_parsed_data main_module main_module_dir repo parsed
  = Ok modules ->
  Forall (fun m => version m <> "") modules.
Proof.
  intros Hp Hc. apply parse_vendor_manifest_modules in Hp.
  apply mapM_Forall2 in Hc.
  induction Hc as [|pm m ps ms Hm _ IH]; [constructor|].
  inversion Hp; subst. constructor; [|now apply IH].
  apply created_module_version in Hm. destruct Hm as [_ Hm].
  apply Hm. now apply manifest_module_versioned.
Qed.

Lemma vendored_modules_have_versions_witness :
  Forall (fun m => version m <> "")
    [mkModule "example.com/c" "example.com/b" "example.com/c" "v1.1.0" false].
Proof.
  apply (vendored_modules_have_versions (dir_with_manifest sample_manifest)
           [sample_replaced_module] sample_main_module empty_dir
           (sample_repo "" ""));
    reflexivity.
Defined.

(** ** More on the canonical modules *)

Lemma created_module_names
    (main_module : Module) (main_module_dir : RootedPath) (repo : Repo)
    (parsed : ParsedModule) (m : Module) :
  _create_module main_module main_module_dir repo parsed = Ok m ->
  named_as_created parsed m.
Proof.
  unfold _create_module, named_as_created.
  destruct (pm_replace parsed) as [replace|].
  - destruct (truthy (pm_version replace)).
    + intro H. inversion H; subst. cbn. auto.
    + destruct (join_within_root main_module_dir (pm_path replace));
        [|discriminate].
      cbn [bind].
      destruct (_get_golang_version _ _ _ _ _); [|discriminate].
      cbn [bind].
      destruct (_resolve_path_for_local_replacement main_module parsed);
        [|discriminate].
      cbn [bind]. intro H. inversion H; subst. cbn. auto.
  - intro H. inversion H; subst. cbn. auto.
Qed.

(** X5.  Created modules match the parsed modules one to one, and each
    keeps the parsed module's own path as [original_name], whatever the
    replacement; only a version replacement changes [name] and
    [real_path], to the replacement's path.  No created module is flagged
    as main. *)
Theorem created_modules_names
    (main_module : Module) (main_module_dir : RootedPath) (repo : Repo)
    (parsed_modules : list ParsedModule) (modules : list Module) :
  _create_modules_from_parsed_data main_module main_module_dir repo
    parsed_modules = Ok modules ->
  Forall2 named_as_created parsed_modules modules.
Proof.
  intro H. apply mapM_Forall2 in H.
  induction H as [|parsed m ps ms Hm _ IH]; constructor; [|assumption].
  now apply (created_module_names main_module main_module_dir repo).
Qed.

Lemma created_modules_names_witness :
  Forall2 named_as_created
    [sample_replaced_module; sample_local_module]
    [mkModule "example.com/c" "example.com/b" "example.com/c" "v1.1.0" false;
     mkModule "example.com/d" "example.com/d" "example.com/a/local"
       "v1.2.4-0.20240102030405-abcdef012345" false].
Proof.
  apply (created_modules_names sample_main_module dir_with_local
           (sample_repo "" ("local/v1.2.3" ++ NL ++ "v1.0.0" ++ NL))).
  reflexivity.
Defined.

Lemma Forall2_In_l {A B : Type} (R : A -> B -> Prop) (l : list A)
    (l' : list B) (x : A) :
  Forall2 R l l' -> In x l -> exists y, In y l' /\ R x y.
Proof.
  intro H. induction H as [|a b l l' Hab _ IH]; intro Hin; [contradiction|].
  destruct Hin as [-> | Hin].
  - exists b. split; [now left | assumption].
  - destruct (IH Hin) as [y [Hy Hr]]. exists y. split; [now right|assumption].
Qed.

(** X6.  Module creation never lets a local replacement out of the root:
    if it succeeds, the path of every replacement without version joins
    within the root of the main module's directory. *)
Theorem created_modules_local_within_root
    (main_module : Module) (main_module_dir : RootedPath) (repo : Repo)
    (parsed_modules : list ParsedModule) (modules : list Module) :
  _create_modules_from_parsed_data main_module main_module_dir repo
    parsed_modules = Ok modules ->
  forall parsed path,
    In parsed parsed_modules -> local_replacement parsed path ->
    lookup main_module_dir path <> None.
Proof.
  intros H parsed path Hin [r [Hr [Ht Hp]]]. apply mapM_Forall2 in H.
  destruct (Forall2_In_l _ _ _ _ H Hin) as [m [_ Hm]].
  unfold _create_module, join_within_root in Hm. rewrite Hr, Ht, Hp in Hm.
  destruct (lookup main_module_dir path); [discriminate | discriminate].
Qed.

Lemma created_modules_local_within_root_witness :
  lookup dir_with_local "./local" <> None.
Proof.
  apply (created_modules_local_within_root sample_main_module dir_with_local
           (sample_repo "" "") [sample_local_module]
           [mkModule "example.com/d" "example.com/d" "example.com/a/local"
              "v0.0.0-20240102030405-abcdef012345" false]
           eq_refl sample_local_module "./local").
  - now left.
  - exists (mkParsedModule "./local" None false None). auto.
Defined.

(** ** The index of modules by original name *)

Lemma dict_get_set (d : @dict string Module) (k k' : string) (v : Module) :
  dict_get String.eqb (dict_set String.eqb d k v) k'
  = if k =? k' then Some v else dict_get String.eqb d k'.
Proof.
  unfold dict_get. induction d as [|[k0 v0] d IH]; cbn [dict_set find fst snd].
  - destruct (k =? k'); reflexivity.
  - destruct (k0 =? k) eqn:E0.
    + apply String.eqb_eq in E0. subst k0. cbn [find fst snd].
      destruct (k =? k'); reflexivity.
    + cbn [find fst snd]. destruct (k0 =? k') eqn:E1.
      * apply String.eqb_eq in E1. subst k0. now rewrite String.eqb_sym, E0.
      * apply IH.
Qed.

Lemma find_snoc {A : Type} (f : A -> bool) (l : list A) (a : A) :
  find f (l ++ [a])
  = match find f l with
    | Some x => Some x
    | None => if f a then Some a else None
    end.
Proof.
  induction l as [|x l IH]; simpl; [reflexivity|].
  destruct (f x); [reflexivity | assumption].
Qed.

Lemma index_fold_get (modules : list Module) (key : string) :
  forall d,
    dict_get String.eqb
      (fold_left (fun d module =>
                    dict_set String.eqb d (original_name module) module)
         modules d) key
    = match find (fun m => original_name m =? key) (rev modules) with
      | Some m => Some m
      | None => dict_get String.eqb d key
      end.
Proof.
  induction modules as [|a l IH]; intro d; [reflexivity|].
  cbn [fold_left rev]. rewrite IH, find_snoc, dict_get_set.
  destruct (find (fun m => original_name m =? key) (rev l)); [reflexivity|].
  destruct (original_name a =? key); reflexivity.
Qed.

(** X7.  Looking a name up in the index of modules gives the last module
    of the list with that original name; the lookup fails with [KeyError]
    exactly when no module has it. *)
Theorem index_modules_last_wins (modules : list Module) (key : string) :
  dict_get String.eqb (index_modules modules) key
  = find (fun m => original_name m =? key) (rev modules) /\
  (dict_lookup (index_modules modules) key = Raise (KeyError key) <->
   forall m, In m modules -> original_name m <> key).
Proof.
  assert (Hget : dict_get String.eqb (index_modules modules) key
                 = find (fun m => original_name m =? key) (rev modules)).
  { unfold index_modules. rewrite index_fold_get.
    destruct (find _ (rev modules)); reflexivity. }
  split; [assumption|]. unfold dict_lookup. rewrite Hget. split.
  - intros H m Hin Heq.
    destruct (find (fun m => original_name m =? key) (rev modules)) eqn:E;
      [discriminate|].
    assert (Hf : (original_name m =? key) = false)
      by (apply (find_none _ _ E m); now apply -> in_rev).
    apply String.eqb_neq in Hf. contradiction.
  - intro H.
    destruct (find (fun m => original_name m =? key) (rev modules)) eqn:E;
      [|reflexivity].
    apply find_some in E. destruct E as [Hin Heq].
    apply String.eqb_eq in Heq. apply in_rev in Hin. now elim (H m).
Qed.

(** X8.  A package that carries one of the parsed modules always finds
    its canonical module in the index built from the main module and the
    created modules: creating the package can fail because the import
    path does not lie below the module's path, never because the module
    is unknown, and the module found has the parsed module's path as
    original name. *)
Theorem package_module_is_indexed
    (main_module : Module) (main_module_dir : RootedPath) (repo : Repo)
    (parsed_modules : list ParsedModule) (modules : list Module)
    (package : ParsedPackage) (parsed : ParsedModule) :
  _create_modules_from_parsed_data main_module main_module_dir repo
    parsed_modules = Ok modules ->
  standard package = false ->
  pp_module package = Some parsed ->
  In parsed parsed_modules ->
  (exists relative_path m,
     _create_package (index_modules (main_module :: modules)) package
     = Ok (Package relative_path m) /\
     original_name m = pm_path parsed /\ In m (main_module :: modules)) \/
  _create_package (index_modules (main_module :: modules)) package
  = Raise ValueError.
Proof.
  intros Hc Hstd Hmod Hin. apply created_modules_names in Hc.
  destruct (Forall2_In_l _ _ _ _ Hc Hin) as [m0 [Hm0 [Ho _]]].
  unfold _create_package. rewrite Hstd, Hmod. unfold dict_lookup.
  destruct (index_modules_last_wins (main_module :: modules) (pm_path parsed))
    as [Hget _].
  rewrite Hget.
  destruct (find (fun m => original_name m =? pm_path parsed)
              (rev (main_module :: modules))) as [m|] eqn:E.
  - apply find_some in E. destruct E as [Hm Hname].
    apply String.eqb_eq in Hname. apply in_rev in Hm. cbn [bind].
    unfold _resolve_package_relative_path.
    destruct (relative_to (Path (import_path package))
                (Path (original_name m))) as [rel|] eqn:Er.
    + left. cbn [bind]. eexists. exists m. repeat split; assumption.
    + right. cbn [bind]. unfold relative_to in Er.
      destruct (if (_ =? 0)%nat then _ else _); [|discriminate].
      now inversion Er.
  - exfalso.
    assert (Hf : (original_name m0 =? pm_path parsed) = false).
    { apply (find_none _ _ E m0). apply -> in_rev. now right. }
    apply String.eqb_neq in Hf. contradiction.
Qed.

Lemma package_module_is_indexed_witness :
  (exists relative_path m,
     _create_package
       (index_modules [sample_main_module; sample_replaced_created])
       (mkParsedPackage "example.com/b/sub" false
          (Some sample_replaced_module))
     = Ok (Package relative_path m) /\
     original_name m = pm_path sample_replaced_module /\
     In m [sample_main_module; sample_replaced_created]) \/
  _create_package
    (index_modules [sample_main_module; sample_replaced_created])
    (mkParsedPackage "example.com/b/sub" false (Some sample_replaced_module))
  = Raise ValueError.
Proof.
  apply (package_module_is_indexed sample_main_module empty_dir
           (sample_repo "" "") [sample_replaced_module]
           [sample_replaced_created]
           (mkParsedPackage "example.com/b/sub" false
              (Some sample_replaced_module))
           sample_replaced_module);
    try reflexivity.
  now left.
Defined.

(** ** More on the canonical packages *)

Lemma max_by_len_spec (names : list string) :
  forall best,
    match max_by_len best names with
    | None => best = None /\ names = []
    | Some x =>
        (best = Some x \/ In x names) /\
        forall y, best = Some y \/ In y names ->
                  String.length y <= String.length x
    end.
Proof.
  induction names as [|k rest IH]; intro best; cbn [max_by_len].
  - destruct best as [b|]; [|auto]. split; [now left|].
    intros y [Hy | []]. inversion Hy. lia.
  - destruct best as [b|].
    + destruct (String.length b <? String.length k)%nat eqn:E.
      * apply Nat.ltb_lt in E. specialize (IH (Some k)).
        destruct (max_by_len (Some k) rest) as [x|]; [|now destruct IH].
        destruct IH as [Hx Hmax]. split.
        -- destruct Hx as [Hx | Hx]; [inversion Hx; subst|]; right; simpl; auto.
        -- intros y [Hy | [Hy | Hy]].
           ++ inversion Hy; subst.
              assert (String.length k <= String.length x)
                by (apply Hmax; now left).
              lia.
           ++ subst. apply Hmax. now left.
           ++ apply Hmax. now right.
      * apply Nat.ltb_ge in E. specialize (IH (Some b)).
        destruct (max_by_len (Some b) rest) as [x|]; [|now destruct IH].
        destruct IH as [Hx Hmax]. split.
        -- destruct Hx as [Hx | Hx]; [now left | right; now right].
        -- intros y [Hy | [Hy | Hy]].
           ++ apply Hmax. now left.
           ++ subst.
              assert (String.length b <= String.length x)
                by (apply Hmax; now left).
              lia.
           ++ apply Hmax. now right.
    + specialize (IH (Some k)).
      destruct (max_by_len (Some k) rest) as [x|]; [|now destruct IH].
      destruct IH as [Hx Hmax]. split.
      * destruct Hx as [Hx | Hx]; [inversion Hx; subst|]; right; simpl; auto.
      * intros y [Hy | [Hy | Hy]]; [discriminate | |].
        -- subst. apply Hmax. now left.
        -- apply Hmax. now right.
Qed.

Lemma dict_get_of_key (d : @dict string Module) (k : string) :
  In k (dict_keys d) -> exists v, dict_get String.eqb d k = Some v.
Proof.
  unfold dict_keys, dict_get. induction d as [|[k0 v0] d IH]; [contradiction|].
  cbn [map fst find]. intros [Heq | Hin].
  - simpl in Heq. subst. rewrite String.eqb_refl. now exists v0.
  - simpl. destruct (k0 =? k); [now exists v0 | now apply IH].
Qed.

Lemma dict_get_In_values (d : @dict string Module) (k : string) (v : Module) :
  dict_get String.eqb d k = Some v -> In v (dict_values d).
Proof.
  unfold dict_get, dict_values.
  destruct (find (fun kv => fst kv =? k) d) as [[k0 v0]|] eqn:E;
    [|discriminate].
  intro H. inversion H; subst. apply find_some in E. destruct E as [Hin _].
  apply in_map_iff. now exists (k0, v).
Qed.

(** X9.  For a package without module, the parent found is indexed under
    a non-empty name below which the import path lies, and no other such
    name of the index is longer.  The search fails only with
    [RuntimeError], and then only the empty name, if any, has the import
    path below it. *)
Theorem find_parent_module_longest
    (indexed_modules : @dict string Module) (package : ParsedPackage) :
  let path := Path (import_path package) in
  (forall m,
     _find_parent_module_by_name indexed_modules package = Ok m ->
     exists key,
       key <> "" /\ dict_get String.eqb indexed_modules key = Some m /\
       is_relative_to path key = true /\
       forall k, In k (dict_keys indexed_modules) ->
                 is_relative_to path k = true ->
                 String.length k <= String.length key) /\
  (forall e,
     _find_parent_module_by_name indexed_modules package = Raise e ->
     e = RuntimeError "Package parent module was not found" /\
     forall k, In k (dict_keys indexed_modules) ->
               is_relative_to path k = true -> k = "").
Proof.
  intro path. unfold _find_parent_module_by_name. fold path.
  pose proof (max_by_len_spec
                (filter (is_relative_to path) (dict_keys indexed_modules))
                None) as Hmax.
  destruct (max_by_len None _) as [key|].
  - destruct Hmax as [[Hk | Hk] Hall]; [discriminate|].
    apply filter_In in Hk. destruct Hk as [Hkey Hrel].
    assert (Hlen : forall k, In k (dict_keys indexed_modules) ->
                     is_relative_to path k = true ->
                     String.length k <= String.length key).
    { intros k Hin Hr. apply Hall. right. apply filter_In. auto. }
    cbn [truthy str_of]. destruct (String.eqb_spec key "") as [-> | Hne].
    + cbn [negb]. split; [discriminate|]. intros e He. inversion He.
      split; [reflexivity|]. intros k Hin Hr.
      specialize (Hlen k Hin Hr). destruct k; [reflexivity | simpl in Hlen; lia].
    + cbn [negb]. unfold dict_lookup.
      destruct (dict_get_of_key _ _ Hkey) as [v Hv]. rewrite Hv. split.
      * intros m Hm. inversion Hm; subst. exists key. auto.
      * discriminate.
  - destruct Hmax as [_ Hnil]. cbn [truthy negb]. split; [discriminate|].
    intros e He. inversion He. split; [reflexivity|].
    intros k Hin Hr. exfalso.
    assert (Hf : In k (filter (is_relative_to path)
                         (dict_keys indexed_modules)))
      by (apply filter_In; auto).
    rewrite Hnil in Hf. contradiction.
Qed.

Lemma list_eqb_eq (a b : list string) : list_eqb a b = true -> a = b.
Proof.
  revert b. induction a as [|x a IH]; intros [|y b] H; try discriminate;
    [reflexivity|].
  cbn [list_eqb] in H. apply andb_true_iff in H as [Hxy Hab].
  apply String.eqb_eq in Hxy. subst. f_equal. now apply IH.
Qed.

Lemma relative_to_prefix (self other rel : PurePath) :
  relative_to self other = Ok rel ->
  anchor rel = "" /\ abs_parts self = abs_parts other ++ parts rel.
Proof.
  unfold relative_to.
  destruct (List.length (abs_parts other) =? 0)%nat eqn:En.
  - apply Nat.eqb_eq in En. destruct (abs_parts other); [|discriminate].
    destruct (negb (anchor self =? "")); [discriminate|].
    intro H. inversion H; subst. cbn. auto.
  - destruct (list_eqb _ _) eqn:El; [|discriminate]. cbn [negb].
    intro H. inversion H; subst. cbn [anchor parts]. split; [reflexivity|].
    apply list_eqb_eq in El. rewrite <- El at 1. now rewrite firstn_skipn.
Qed.

(** X10.  Whenever a package is created, the path of its module's
    original name is a prefix, element by element, of the package's
    import path; the relative path is made of the elements that follow,
    less one leading dot; and the module is one of the index. *)
Theorem created_package_below_module
    (indexed_modules : @dict string Module) (package : ParsedPackage)
    (relative_path : string) (m : Module) :
  _create_package indexed_modules package = Ok (Package relative_path m) ->
  In m (dict_values indexed_modules) /\
  exists below,
    abs_parts (Path (import_path package))
    = abs_parts (Path (original_name m)) ++ below /\
    relative_path = removeprefix (path_str (mkPurePath "" below)) ".".
Proof.
  unfold _create_package. destruct (standard package); [discriminate|].
  destruct (match pp_module package with
            | Some parsed => dict_lookup indexed_modules (pm_path parsed)
            | None => _find_parent_module_by_name indexed_modules package
            end) as [module|] eqn:Em; [|discriminate].
  cbn [bind]. unfold _resolve_package_relative_path.
  destruct (relative_to (Path (import_path package))
              (Path (original_name module))) as [rel|] eqn:Er;
    [|discriminate].
  cbn [bind]. intro H. inversion H; subst. split.
  - destruct (pp_module package) as [parsed|].
    + unfold dict_lookup in Em.
      destruct (dict_get String.eqb indexed_modules (pm_path parsed)) eqn:Eg;
        [|discriminate].
      inversion Em; subst. now apply dict_get_In_values in Eg.
    + destruct (find_parent_module_longest indexed_modules package)
        as [Hok _].
      destruct (Hok m Em) as [key [_ [Hg _]]].
      now apply dict_get_In_values in Hg.
  - apply relative_to_prefix in Er. destruct Er as [Ha Hp].
    exists (parts rel). split; [assumption|].
    destruct rel as [a ps]. cbn [anchor parts] in *. now subst.
Qed.

Lemma created_package_below_module_witness :
  In sample_replaced_created
    (dict_values (index_modules [sample_main_module; sample_replaced_created]))
  /\
  exists below,
    abs_parts (Path "example.com/b/sub/deep")
    = abs_parts (Path (original_name sample_replaced_created)) ++ below /\
    "sub/deep" = removeprefix (path_str (mkPurePath "" below)) ".".
Proof.
  apply (created_package_below_module
           (index_modules [sample_main_module; sample_replaced_created])
           (mkParsedPackage "example.com/b/sub/deep" false None)).
  reflexivity.
Defined.

(** ** The main module *)

(** X11.  A version returned by the reifier is never empty, and the main
    module made of it is always created: the error kept for a missing
    version cannot occur.  The module is named by the module path; its
    real path is the repository name at the root of the repository, and
    the repository name followed by the sub-path elsewhere. *)
Theorem main_module_of_reified_version
    (module_name : string) (repo : Repo) (subpath : option string)
    (commit_sha : option string) (update_tags : bool) (v : string)
    (main_module_dir : RootedPath) (repo_name : string) :
  _get_golang_version module_name repo subpath commit_sha update_tags = Ok v ->
  v <> "" /\
  exists real,
    _create_main_module_from_parsed_data main_module_dir repo_name
      (mkParsedModule module_name (Some v) true None)
    = Ok (mkModule module_name module_name real v false) /\
    (rp_subpath main_module_dir = None -> real = repo_name) /\
    (forall s, rp_subpath main_module_dir = Some s -> s <> "." ->
               real = (repo_name ++ "/" ++ s)%string).
Proof.
  intro H. apply golang_version_nonempty in H. split; [assumption|].
  unfold _create_main_module_from_parsed_data.
  cbn [pm_version pm_path truthy str_of].
  apply String.eqb_neq in H. rewrite H. cbn [negb].
  eexists. split; [reflexivity|]. split.
  - intros ->. reflexivity.
  - intros s -> Hs. apply String.eqb_neq in Hs. now rewrite Hs.
Qed.

Lemma main_module_of_reified_version_witness :
  "v1.2.3" <> "" /\
  exists real,
    _create_main_module_from_parsed_data
      (mkRootedPath (Some "sub") (fun _ => None)) "example.com/repo"
      (mkParsedModule "example.com/a" (Some "v1.2.3") true None)
    = Ok (mkModule "example.com/a" "example.com/a" real "v1.2.3" false) /\
    (rp_subpath (mkRootedPath (Some "sub") (fun _ => None)) = None ->
     real = "example.com/repo") /\
    (forall s, rp_subpath (mkRootedPath (Some "sub") (fun _ => None)) = Some s ->
               s <> "." -> real = ("example.com/repo" ++ "/" ++ s)%string).
Proof.
  apply (main_module_of_reified_version "example.com/a"
           (sample_repo ("v1.2.3" ++ NL) "") None None true).
  reflexivity.
Defined.

(** ** Name of the repository *)

Lemma rstrip_slashes_only (c : ascii) (n : nat) :
  rstrip_char "/" (slashes n) = "".
Proof. induction n as [|n IH]; simpl; [reflexivity | now rewrite IH]. Qed.

Lemma rstrip_after (p : string) (a : ascii) (n : nat) :
  last_char p = Some a -> Ascii.eqb a "/" = false ->
  rstrip_char "/" (p ++ slashes n) = p.
Proof.
  intros Hl Ha. induction p as [|x p IH]; [discriminate|].
  cbn [append rstrip_char]. destruct p as [|y p].
  - inversion Hl; subst. cbn [append].
    rewrite (rstrip_slashes_only "/" n), Ha. reflexivity.
  - rewrite last_char_cons in Hl by discriminate.
    rewrite (IH Hl). reflexivity.
Qed.

Lemma drop_app_exact (p s : string) : drop (String.length p) (p ++ s) = s.
Proof. induction p as [|x p IH]; [reflexivity | assumption]. Qed.

Lemma substring_0_app_exact (p s : string) :
  substring 0 (String.length p) (p ++ s) = p.
Proof.
  induction p as [|x p IH]; simpl.
  - destruct s; reflexivity.
  - now rewrite IH.
Qed.

Lemma removesuffix_app (p suffix : string) :
  removesuffix (p ++ suffix) suffix = p.
Proof.
  unfold removesuffix, endswith. rewrite length_append.
  replace (String.length p + String.length suffix - String.length suffix)
    with (String.length p) by lia.
  rewrite drop_app_exact, String.eqb_refl, substring_0_app_exact.
  destruct (String.length suffix <=? String.length p + String.length suffix)%nat
    eqn:E; [reflexivity|].
  apply Nat.leb_gt in E. lia.
Qed.

(** X12.  The repository name does not depend on a [.git] ending or on
    slashes at the end of the URL path: a path with either or both gives
    the same name as the path without them. *)
Theorem repository_name_without_git_suffix
    (hostname : option string) (path : string) (n : nat) :
  let host := match hostname with Some h => h | None => "None" end in
  _get_repository_name hostname (path ++ ".git" ++ slashes n)
  = (host ++ path)%string /\
  (endswith path ".git" = false ->
   path = "" \/ (exists a, last_char path = Some a /\ a <> "/"%char) ->
   _get_repository_name hostname (path ++ slashes n) = (host ++ path)%string).
Proof.
  intro host. unfold _get_repository_name. fold host. split.
  - rewrite <- append_assoc.
    rewrite (rstrip_after (path ++ ".git") "t" n).
    + now rewrite removesuffix_app.
    + change ".git" with (".gi" ++ String "t" "")%string.
      rewrite <- append_assoc. apply last_char_snoc.
    + reflexivity.
  - intros Hend [-> | [a [Hl Ha]]].
    + cbn [append]. rewrite (rstrip_slashes_only "/" n). reflexivity.
    + rewrite (rstrip_after path a n Hl).
      * unfold removesuffix. now rewrite Hend.
      * destruct (Ascii.eqb_spec a "/"); [contradiction | reflexivity].
Qed.

Example repository_name_examples :
  map (_get_repository_name (Some "github.com"))
    ["/org/repo.git"; "/org/repo"; "/org/repo/"; "/org/repo.git//"]
  = ["github.com/org/repo"; "github.com/org/repo"; "github.com/org/repo";
     "github.com/org/repo"].
Proof. reflexivity. Qed.

(** ** Retries of the download command *)

(** Failed runs are passed over one after the other as long as the limit
    of tries is not reached. *)
Lemma run_go_skip_failures
    (cmd : list string) (attempt : nat -> CmdOutcome) (max_tries : nat)
    (failures : nat) :
  forall fuel tries,
    (forall j, tries < j <= tries + failures ->
               exists rc, attempt j = CalledProcessError rc) ->
    tries + failures < max_tries ->
    run_go (failures + fuel) cmd attempt max_tries tries
    = run_go fuel cmd attempt max_tries (tries + failures).
Proof.
  induction failures as [|d IH]; intros fuel tries Hfail Hlt.
  - now rewrite Nat.add_0_r.
  - cbn [Nat.add run_go].
    destruct (Hfail (S tries)) as [rc Hrc]; [lia|].
    rewrite Hrc. cbn [_run_gomod_cmd].
    destruct (S tries =? max_tries)%nat eqn:E;
      [apply Nat.eqb_eq in E; lia|].
    rewrite IH; [f_equal; lia | | lia].
    intros j Hj. apply Hfail. lia.
Qed.

Lemma run_go_at
    (cmd : list string) (attempt : nat -> CmdOutcome) (n_tries k fuel : nat) :
  1 <= k <= n_tries -> k <= fuel ->
  (forall j, 1 <= j < k -> exists rc, attempt j = CalledProcessError rc) ->
  run_go fuel cmd attempt n_tries 0
  = run_go (S (fuel - k)) cmd attempt n_tries (k - 1).
Proof.
  intros Hk Hfuel Hfail.
  replace fuel with ((k - 1) + S (fuel - k)) at 1 by lia.
  rewrite run_go_skip_failures; [reflexivity | | lia].
  intros j Hj. apply Hfail. lia.
Qed.

(** X13.  With a limit of at least one try and the loop left to run, the
    download command is run until it first succeeds, and its output is
    returned; an error that is not a failed exit of the command ends the
    loop at once and is passed on; when each of the [n_tries] runs exits
    with a failure, and only then after the last of them, the error
    raised tells the number of tries. *)
Theorem run_download_cmd_retries
    (fuel : nat) (cmd : list string) (attempt : nat -> CmdOutcome)
    (n_tries : nat) :
  1 <= n_tries <= fuel ->
  (forall k stdout,
     1 <= k <= n_tries ->
     (forall j, 1 <= j < k -> exists rc, attempt j = CalledProcessError rc) ->
     attempt k = Finished stdout ->
     _run_download_cmd fuel cmd attempt n_tries = Some (Ok stdout)) /\
  (forall k e,
     1 <= k <= n_tries ->
     (forall j, 1 <= j < k -> exists rc, attempt j = CalledProcessError rc) ->
     attempt k = OtherFailure e ->
     (forall msg, e <> GoModError msg) ->
     _run_download_cmd fuel cmd attempt n_tries = Some (Raise e)) /\
  ((forall j, 1 <= j <= n_tries ->
              exists rc, attempt j = CalledProcessError rc) ->
   _run_download_cmd fuel cmd attempt n_tries
   = Some (Raise (tries_exhausted cmd n_tries))).
Proof.
  intros [Hn Hfuel]. unfold _run_download_cmd. repeat split.
  - intros k stdout Hk Hfail Hok.
    rewrite (run_go_at cmd attempt n_tries k fuel Hk); [|lia|assumption].
    cbn [run_go]. replace (S (k - 1)) with k by lia.
    rewrite Hok. reflexivity.
  - intros k e Hk Hfail He Hnot.
    rewrite (run_go_at cmd attempt n_tries k fuel Hk); [|lia|assumption].
    cbn [run_go]. replace (S (k - 1)) with k by lia.
    rewrite He. cbn [_run_gomod_cmd].
    destruct e; try reflexivity. now elim (Hnot msg).
  - intro Hfail.
    rewrite (run_go_at cmd attempt n_tries n_tries fuel); [|lia|lia|].
    + cbn [run_go]. replace (S (n_tries - 1)) with n_tries by lia.
      destruct (Hfail n_tries) as [rc Hrc]; [lia|].
      rewrite Hrc. cbn [_run_gomod_cmd]. now rewrite Nat.eqb_refl.
    + intros j Hj. apply Hfail. lia.
Qed.

Lemma run_download_cmd_retries_witness :
  _run_download_cmd 5 ["go"; "mod"; "download"; "-json"] flaky_attempt 5
  = Some (Ok "done") /\
  _run_download_cmd 2 ["go"; "mod"; "vendor"] flaky_attempt 2
  = Some (Raise (tries_exhausted ["go"; "mod"; "vendor"] 2)).
Proof.
  split.
  - destruct (run_download_cmd_retries 5 ["go"; "mod"; "download"; "-json"]
                flaky_attempt 5) as [H _]; [lia|].
    apply (H 3); [lia | | reflexivity].
    intros j Hj. exists 1%Z.
    destruct j as [|[|[|j]]]; try lia; reflexivity.
  - destruct (run_download_cmd_retries 2 ["go"; "mod"; "vendor"]
                flaky_attempt 2) as [_ [_ H]]; [lia|].
    apply H. intros j Hj. exists 1%Z.
    destruct j as [|[|[|j]]]; try lia; reflexivity.
Defined.

(** ** Choice of the highest tag *)




Example highest_tag_examples :
  _get_highest_semver_tag
    (sample_repo ""
       ("v1.0.0" ++ NL ++ "v2.1.0" ++ NL ++ "v1.3.0-rc1" ++ NL ++ "v1.2.9"
        ++ NL ++ "sub/v1.9.0" ++ NL ++ "vnext" ++ NL))
    sample_commit 1 true None
  = Ok (Some "v1.3.0-rc1") /\
  _get_highest_semver_tag
    (sample_repo "" ("v1.0.0" ++ NL ++ "sub/v1.9.0" ++ NL))
    sample_commit 1 true (Some "sub")
  = Ok (Some "sub/v1.9.0") /\
  _get_highest_semver_tag
    (sample_repo "" ("v1.0.0" ++ NL ++ "sub/v1.9.0" ++ NL))
    sample_commit 2 true None
  = Ok None.
Proof. repeat split; reflexivity. Qed.

(** ** A tag on the commit decides the version *)

Lemma tag_on_commit_loop_ignores_merged
    (repo : Repo) (merged : string -> result string) (commit : Commit)
    (subpath : option string) (majors : list N) :
  tag_on_commit_loop (with_tags_merged repo merged) commit subpath majors
  = tag_on_commit_loop repo commit subpath majors.
Proof.
  induction majors as [|major_version majors IH]; [reflexivity|].
  cbn [tag_on_commit_loop]. rewrite IH. reflexivity.
Qed.

(** X15.  When, for one of the major versions tried, a semantic-version
    tag points at the commit itself, the version is that tag (with the
    sub-path cut out), whatever tags are reachable from the commit: the
    listing of merged tags has no influence on the result. *)
Theorem exact_tag_decides_version
    (module_name : string) (repo : Repo) (subpath : option string)
    (commit_sha : option string) (update_tags : bool)
    (sha : string) (commit : Commit) (v : string)
    (merged : string -> result string) :
  (if update_tags then fetch_tags repo else None) = None ->
  match commit_sha with
  | Some given => Ok given
  | None => rev_parse_HEAD repo
  end = Ok sha ->
  repo_commit repo sha = Ok commit ->
  (to_try <- candidate_major_versions module_name ;;
   tag_on_commit_loop repo commit subpath to_try)
  = Ok (Some v) ->
  _get_golang_version module_name (with_tags_merged repo merged) subpath
    commit_sha update_tags
  = Ok v.
Proof.
  intros Hfetch Hsha Hcommit Htag. unfold _get_golang_version.
  unfold candidate_major_versions in Htag.
  destruct (module_major_version_of module_name) as [module_major_version|];
    [|discriminate].
  cbn [bind] in Htag. cbn [bind].
  cbn [with_tags_merged fetch_tags rev_parse_HEAD repo_commit].
  rewrite Hfetch. cbn [bind]. rewrite Hsha. cbn [bind].
  rewrite Hcommit. cbn [bind].
  change (mkRepo (fetch_tags repo) (rev_parse_HEAD repo) (repo_commit repo)
            (git_tag_points_at repo) merged)
    with (with_tags_merged repo merged).
  rewrite tag_on_commit_loop_ignores_merged, Htag. reflexivity.
Qed.

Lemma exact_tag_decides_version_witness :
  _get_golang_version "example.com/a"
    (with_tags_merged (sample_repo ("v0.9.0" ++ NL ++ "v1.2.3" ++ NL) "")
       (fun _ => Raise GitCommandError))
    None None true
  = Ok "v1.2.3".
Proof.
  apply (exact_tag_decides_version "example.com/a"
           (sample_repo ("v0.9.0" ++ NL ++ "v1.2.3" ++ NL) "") None None true
           (hexsha sample_commit) sample_commit);
    reflexivity.
Defined.

(** ** Guard against symbolic links *)

Lemma check_each_ok (app_dir : RootedPath) (paths : list string) :
  check_each app_dir paths = Ok tt <->
  forall p, In p paths -> lookup app_dir p <> None.
Proof.
  induction paths as [|p paths IH]; cbn [check_each].
  - split; [intros _ ? [] | reflexivity].
  - unfold check_potential_symlink, join_within_root.
    destruct (lookup app_dir p) eqn:E; cbn [bind].
    + rewrite IH. split.
      * intros H q [<- | Hq]; [congruence | now apply H].
      * intros H q Hq. apply H. now right.
    + split; [discriminate|]. intro H. exfalso.
      apply (H p); [now left | assumption].
Qed.

Lemma check_each_raise (app_dir : RootedPath) (paths : list string) e :
  check_each app_dir paths = Raise e ->
  e = PathOutsideRoot (Some symlink_solution) /\
  exists p, In p paths /\ lookup app_dir p = None.
Proof.
  induction paths as [|p paths IH]; cbn [check_each]; [discriminate|].
  unfold check_potential_symlink, join_within_root.
  destruct (lookup app_dir p) eqn:E; cbn [bind].
  - intro H. destruct (IH H) as [He [q [Hq Hl]]].
    split; [assumption|]. exists q. split; [now right | assumption].
  - intro H. inversion H. split; [reflexivity|]. exists p.
    split; [now left | assumption].
Qed.

(** X16.  The guard against symbolic links lets a module directory pass
    exactly when [go.mod], [go.sum], [vendor/modules.txt] and every Go
    file found join within the root; otherwise it raises
    [PathOutsideRoot], with the solution text about the harmful link. *)
Theorem protect_against_symlinks_spec
    (app_dir : RootedPath) (go_files : list string) :
  (_protect_against_symlinks app_dir go_files = Ok tt <->
   forall p,
     In p ["go.mod"; "go.sum"; "vendor/modules.txt"] \/ In p go_files ->
     lookup app_dir p <> None) /\
  (forall e,
     _protect_against_symlinks app_dir go_files = Raise e ->
     e = PathOutsideRoot (Some symlink_solution)).
Proof.
  unfold _protect_against_symlinks. split.
  - rewrite check_each_ok. split.
    + intros H p Hp. apply H. apply in_or_app. tauto.
    + intros H p Hp. apply H. apply in_app_or in Hp. tauto.
  - intros e He. now apply check_each_raise in He.
Qed.

(** ** Missing [go.mod] files *)

Lemma find_missing_within (source_path : RootedPath) (subpaths : list string) :
  (forall s, In s subpaths ->
             lookup source_path (s ++ "/go.mod") <> None) ->
  _find_missing_gomod_files source_path subpaths
  = Ok (map (fun s => (s ++ "/go.mod")%string)
          (filter (gomod_absent source_path) subpaths)).
Proof.
  induction subpaths as [|s rest IH]; intro H; [reflexivity|].
  cbn [_find_missing_gomod_files filter]. unfold join_within_root, gomod_absent.
  destruct (lookup source_path (s ++ "/go.mod")) as [r|] eqn:E.
  - cbn [bind]. rewrite IH by (intros s' Hs'; apply H; now right).
    cbn [bind]. unfold gomod_absent.
    destruct (negb (path_exists r)); reflexivity.
  - elim (H s); [now left | assumption].
Qed.

Lemma find_missing_outside (source_path : RootedPath)
    (subpaths : list string) :
  (exists s, In s subpaths /\ lookup source_path (s ++ "/go.mod") = None) ->
  _find_missing_gomod_files source_path subpaths
  = Raise (PathOutsideRoot None).
Proof.
  induction subpaths as [|s rest IH]; intros [s0 [Hin Hl]]; [contradiction|].
  cbn [_find_missing_gomod_files]. unfold join_within_root.
  destruct (lookup source_path (s ++ "/go.mod")) as [r|] eqn:E;
    [|reflexivity].
  cbn [bind]. destruct Hin as [-> | Hin]; [congruence|].
  rewrite IH; [reflexivity|]. now exists s0.
Qed.

(** X17.  When every [<subpath>/go.mod] joins within the root, the files
    reported missing are exactly those that do not exist, in the order of
    the sub-paths, so that none is reported when all exist; a sub-path
    whose [go.mod] leaves the root makes the search raise
    [PathOutsideRoot]. *)
Theorem find_missing_gomod_files_spec
    (source_path : RootedPath) (subpaths : list string) :
  ((forall s, In s subpaths ->
              lookup source_path (s ++ "/go.mod") <> None) ->
   _find_missing_gomod_files source_path subpaths
   = Ok (map (fun s => (s ++ "/go.mod")%string)
           (filter (gomod_absent source_path) subpaths))) /\
  ((forall s, In s subpaths ->
      exists r, lookup source_path (s ++ "/go.mod") = Some r /\
                path_exists r = true) ->
   _find_missing_gomod_files source_path subpaths = Ok []) /\
  ((exists s, In s subpaths /\
              lookup source_path (s ++ "/go.mod") = None) ->
   _find_missing_gomod_files source_path subpaths
   = Raise (PathOutsideRoot None)).
Proof.
  split; [apply find_missing_within | split; [|apply find_missing_outside]].
  intro H. rewrite find_missing_within.
  - replace (filter (gomod_absent source_path) subpaths) with (@nil string);
      [reflexivity|].
    symmetry. induction subpaths as [|s rest IH]; [reflexivity|].
    cbn [filter]. destruct (H s) as [r [Hr He]]; [now left|].
    unfold gomod_absent at 1. rewrite Hr, He. cbn [negb].
    apply IH. intros s' Hs'. apply H. now right.
  - intros s Hs. destruct (H s Hs) as [r [Hr _]]. congruence.
Qed.

(** ** Vendoring after the arbiter's answer *)

(** X18.  With [gomod-vendor] and without [gomod-vendor-check] the arbiter
    allows changes and the vendor tree is never compared: the outcome of
    vendoring does not depend on what the comparison would say, and is
    what the parser reads once the command has run.  With
    [gomod-vendor-check] and something at the vendor path the arbiter
    forbids changes: a changed tree is rejected with [PackageRejected],
    an unchanged one is parsed, and an error of the comparison is passed
    on. *)
Theorem vendor_deps_after_arbiter
    (flags : list string) (app_dir : RootedPath) (strict : bool)
    (run_vendor : result RootedPath)
    (vendor_changed : RootedPath -> result bool) :
  (forall can_make_changes vendor_changed',
     mem "gomod-vendor-check" flags = false ->
     _should_vendor_deps flags app_dir strict = Ok (true, can_make_changes) ->
     _vendor_deps run_vendor vendor_changed can_make_changes
     = _vendor_deps run_vendor vendor_changed' can_make_changes /\
     forall after, run_vendor = Ok after ->
       _vendor_deps run_vendor vendor_changed can_make_changes
       = _parse_vendor after) /\
  (forall vendor after,
     mem "gomod-vendor-check" flags = true ->
     lookup app_dir "vendor" = Some vendor ->
     path_exists vendor = true ->
     run_vendor = Ok after ->
     _should_vendor_deps flags app_dir strict = Ok (true, false) /\
     (vendor_changed after = Ok true ->
      _vendor_deps run_vendor vendor_changed false
      = Raise (PackageRejected vendor_inconsistent_reason
                 vendor_inconsistent_solution VENDORING_DOC)) /\
     (vendor_changed after = Ok false ->
      _vendor_deps run_vendor vendor_changed false = _parse_vendor after) /\
     (forall e, vendor_changed after = Raise e ->
      _vendor_deps run_vendor vendor_changed false = Raise e)).
Proof.
  split.
  - intros can vc' Hcheck Hshould.
    assert (Hcan : can = true).
    { unfold _should_vendor_deps in Hshould.
      destruct (join_within_root app_dir "vendor"); [|discriminate].
      cbn [bind] in Hshould. rewrite Hcheck in Hshould.
      destruct (mem "gomod-vendor" flags); [now inversion Hshould|].
      destruct (strict && is_dir a); [discriminate | now inversion Hshould]. }
    subst can. unfold _vendor_deps. split.
    + destruct run_vendor; reflexivity.
    + intros after ->. reflexivity.
  - intros vendor after Hcheck Hl He ->. split; [|split; [|split]].
    + unfold _should_vendor_deps, join_within_root.
      rewrite Hl. cbn [bind]. now rewrite Hcheck, He.
    + intro Hc. unfold _vendor_deps. cbn [bind negb]. now rewrite Hc.
    + intro Hc. unfold _vendor_deps. cbn [bind negb]. now rewrite Hc.
    + intros e Hc. unfold _vendor_deps. cbn [bind negb]. now rewrite Hc.
Qed.

(** ** Changes of the vendor tree *)

Lemma vendor_changed_body_calls (git : VendorGit) :
  (snd (vendor_changed_body git) = [GitDiffModulesTxt] \/
   snd (vendor_changed_body git) = [GitDiffModulesTxt; GitDiffVendor]) /\
  ((exists diff, git_diff_modules_txt git = Ok diff /\ diff <> "") ->
   snd (vendor_changed_body git) = [GitDiffModulesTxt]).
Proof.
  unfold vendor_changed_body.
  destruct (git_diff_modules_txt git) as [d1|e1]; cbn [snd].
  - destruct (String.eqb_spec d1 "") as [-> | Hd1]; cbn [negb snd].
    + split.
      * right. destruct (git_diff_vendor git); reflexivity.
      * intros [diff [Hd Hne]]. inversion Hd; subst. contradiction.
    + split; [now left | reflexivity].
  - split; [now left | reflexivity].
Qed.

Lemma vendor_changed_body_true (git : VendorGit) :
  fst (vendor_changed_body git) = Ok true <->
  (exists diff, git_diff_modules_txt git = Ok diff /\ diff <> "") \/
  (git_diff_modules_txt git = Ok "" /\
   exists diff, git_diff_vendor git = Ok diff /\ diff <> "").
Proof.
  unfold vendor_changed_body.
  destruct (git_diff_modules_txt git) as [d1|e1].
  - destruct (String.eqb_spec d1 "") as [-> | Hd1]; cbn [negb].
    + destruct (git_diff_vendor git) as [d2|e2]; cbn [fst].
      * destruct (String.eqb_spec d2 "") as [-> | Hd2]; cbn [negb]; split.
        -- discriminate.
        -- intros [[d [Hd Hne]] | [_ [d [Hd Hne]]]];
             inversion Hd; subst; contradiction.
        -- intros _. right. split; [reflexivity|]. now exists d2.
        -- reflexivity.
      * split; [discriminate|].
        intros [[d [Hd Hne]] | [_ [d [Hd Hne]]]];
          [inversion Hd; subst; contradiction | discriminate].
    + cbn [fst]. split; [|reflexivity]. intros _. left. now exists d1.
  - cbn [fst]. split; [discriminate|].
    intros [[d [Hd _]] | [Hd _]]; discriminate.
Qed.

(** X19.  The comparison of the vendor tree resets the index whenever the
    files could be added to it: the reset is then the last command run,
    and it is run once.  The answer is [True] exactly when the reset
    succeeds after a difference was found, in [modules.txt] or, that file
    being unchanged, in the vendor directory; the vendor directory is not
    compared once [modules.txt] is found changed. *)
Theorem vendor_changed_resets (git : VendorGit) :
  let outcome := fst (_vendor_changed git) in
  let calls := snd (_vendor_changed git) in
  (forall e, git_add_intent git = Raise e ->
     outcome = Raise e /\ calls = [GitAddIntent]) /\
  (git_add_intent git = Ok tt ->
   exists between,
     calls = GitAddIntent :: between ++ [GitReset] /\
     ~ In GitReset between /\ ~ In GitAddIntent between) /\
  (outcome = Ok true <->
   git_add_intent git = Ok tt /\ git_reset git = Ok tt /\
   ((exists diff, git_diff_modules_txt git = Ok diff /\ diff <> "") \/
    (git_diff_modules_txt git = Ok "" /\
     exists diff, git_diff_vendor git = Ok diff /\ diff <> ""))) /\
  ((exists diff, git_diff_modules_txt git = Ok diff /\ diff <> "") ->
   ~ In GitDiffVendor calls).
Proof.
  intros outcome calls. unfold outcome, calls, _vendor_changed.
  destruct (vendor_changed_body_calls git) as [Hcalls Hfirst].
  pose proof (vendor_changed_body_true git) as Htrue.
  destruct (vendor_changed_body git) as [body body_calls].
  cbn [fst snd] in *.
  destruct (git_add_intent git) as [[]|ea].
  - assert (Hmid : ~ In GitReset body_calls /\ ~ In GitAddIntent body_calls).
    { destruct Hcalls as [-> | ->]; split; intro Hin; simpl in Hin;
        repeat (destruct Hin as [Hin | Hin]; try discriminate Hin);
        contradiction. }
    assert (Hnov : (exists diff, git_diff_modules_txt git = Ok diff /\
                                 diff <> "") ->
                   ~ In GitDiffVendor
                       (GitAddIntent :: body_calls ++ [GitReset])).
    { intros Hdiff Hin. rewrite (Hfirst Hdiff) in Hin. simpl in Hin.
      repeat (destruct Hin as [Hin | Hin]; try discriminate Hin).
      contradiction. }
    destruct (git_reset git) as [[]|er]; cbn [fst snd app].
    + split; [discriminate|]. split; [|split].
      * intros _. now exists body_calls.
      * rewrite Htrue. tauto.
      * exact Hnov.
    + split; [discriminate|]. split; [|split].
      * intros _. now exists body_calls.
      * split; [discriminate|]. intros (_ & Hr & _). discriminate.
      * exact Hnov.
  - cbn [fst snd]. split; [|split; [|split]].
    + intros e He. inversion He. auto.
    + discriminate.
    + split; [discriminate|]. intros (Ha & _). discriminate.
    + intros _ Hin. simpl in Hin.
      destruct Hin as [Hin | []]. discriminate.
Qed.

(** ** Real path of a local replacement *)

Lemma plain_component_spec (c : string) :
  plain_component c = true ->
  clean_component c = true /\ str_eqb_any c [""; "."] = false /\
  (c =? "..") = false.
Proof.
  unfold plain_component. intro H. apply andb_true_iff in H as [Hc Hd].
  apply negb_true_iff in Hd. split; [assumption|]. split; [|assumption].
  apply clean_component_spec in Hc. destruct Hc as (H1 & H2 & _).
  unfold str_eqb_any, mem. cbn [existsb].
  apply String.eqb_neq in H1, H2. now rewrite H1, H2.
Qed.

Lemma normpath_loop_push (initial : nat) (plain : list string) :
  forall acc rest,
    forallb plain_component plain = true ->
    normpath_loop initial acc (plain ++ rest)
    = normpath_loop initial (rev plain ++ acc) rest.
Proof.
  induction plain as [|c plain IH]; intros acc rest H; [reflexivity|].
  cbn [forallb] in H. apply andb_true_iff in H as [Hc Hp].
  destruct (plain_component_spec c Hc) as (_ & Hm & Hd).
  cbn [app normpath_loop]. rewrite Hm, Hd. cbn [negb orb].
  rewrite (IH (c :: acc) rest Hp). cbn [rev]. now rewrite <- app_assoc.
Qed.

Lemma normpath_loop_climb (ups : list string) :
  forall acc rest,
    forallb dot_component ups = true ->
    forallb plain_component acc = true ->
    count_up ups <= List.length acc ->
    normpath_loop 0 acc (ups ++ rest)
    = normpath_loop 0 (skipn (count_up ups) acc) rest.
Proof.
  induction ups as [|c ups IH]; intros acc rest Hd Ha Hn; [reflexivity|].
  cbn [forallb] in Hd. apply andb_true_iff in Hd as [Hc Hd].
  unfold dot_component in Hc. apply orb_true_iff in Hc as [Hc | Hc];
    apply String.eqb_eq in Hc; subst c; cbn [app normpath_loop].
  - change (str_eqb_any "." [""; "."]) with true. cbv iota.
    apply IH; assumption.
  - change (str_eqb_any ".." [""; "."]) with false.
    change (".." =? "..") with true. cbn [negb orb andb Nat.eqb].
    unfold count_up in *. cbn [filter] in *.
    change (".." =? "..") with true in *. cbn [List.length] in *.
    destruct acc as [|x acc]; [simpl in Hn; lia|].
    cbn [forallb] in Ha. apply andb_true_iff in Ha as [Hx Ha].
    destruct (plain_component_spec x Hx) as (_ & _ & Hxd).
    rewrite Hxd. cbn [orb tl skipn]. apply IH; try assumption.
    simpl in Hn. lia.
Qed.

Lemma normpath_loop_plain (initial : nat) (plain acc : list string) :
  forallb plain_component plain = true ->
  normpath_loop initial acc plain = rev acc ++ plain.
Proof.
  intro H. rewrite <- (app_nil_r plain) at 1.
  rewrite normpath_loop_push by assumption. cbn [normpath_loop].
  now rewrite rev_app_distr, rev_involutive.
Qed.

Lemma split_on_concat_no_slash (comps : list string) :
  comps <> [] ->
  forallb (fun c => negb (contains_char "/" c)) comps = true ->
  split_on "/" (String.concat "/" comps) = comps.
Proof.
  induction comps as [|x comps IH]; [contradiction|]. intros _ H.
  cbn [forallb] in H. apply andb_true_iff in H as [Hx Hc].
  apply negb_true_iff in Hx.
  destruct comps as [|y comps].
  - cbn [String.concat]. now apply split_on_no_sep.
  - change (String.concat "/" (x :: y :: comps))
      with (x ++ String "/" (String.concat "/" (y :: comps)))%string.
    rewrite (split_on_app_sep "/" x _ Hx), IH; [reflexivity | discriminate |].
    assumption.
Qed.

Lemma concat_app (xs ys : list string) :
  xs <> [] -> ys <> [] ->
  String.concat "/" (xs ++ ys)
  = (String.concat "/" xs ++ "/" ++ String.concat "/" ys)%string.
Proof.
  intros Hx Hy. induction xs as [|x xs IH]; [contradiction|].
  destruct xs as [|x' xs].
  - cbn [app]. destruct ys; [contradiction | reflexivity].
  - change (String.concat "/" ((x :: x' :: xs) ++ ys))
      with (x ++ "/" ++ String.concat "/" ((x' :: xs) ++ ys))%string.
    rewrite IH by discriminate.
    change (String.concat "/" (x :: x' :: xs))
      with (x ++ "/" ++ String.concat "/" (x' :: xs))%string.
    now rewrite !append_assoc.
Qed.

Lemma plain_is_clean (comps : list string) :
  forallb plain_component comps = true ->
  forallb clean_component comps = true.
Proof.
  apply forallb_impl. intros c Hc. now apply plain_component_spec in Hc.
Qed.

Lemma dot_no_slash (comps : list string) :
  forallb dot_component comps = true ->
  forallb (fun c => negb (contains_char "/" c)) comps = true.
Proof.
  apply forallb_impl. intros c Hc. unfold dot_component in Hc.
  apply orb_true_iff in Hc as [Hc | Hc]; apply String.eqb_eq in Hc;
    subst; reflexivity.
Qed.

Lemma clean_no_slash (comps : list string) :
  forallb clean_component comps = true ->
  forallb (fun c => negb (contains_char "/" c)) comps = true.
Proof.
  apply forallb_impl. intros c Hc. apply clean_component_spec in Hc.
  destruct Hc as (_ & _ & Hc). now rewrite Hc.
Qed.

Lemma firstn_rev_skipn {A : Type} (k : nat) (l : list A) :
  rev (skipn k (rev l)) = firstn (List.length l - k) l.
Proof.
  rewrite <- (rev_involutive (firstn (List.length l - k) l)).
  f_equal. rewrite <- (firstn_skipn (List.length l - k) l) at 1.
  rewrite rev_app_distr.
  destruct (Nat.le_gt_cases k (List.length l)) as [Hk | Hk].
  - rewrite skipn_app.
    assert (Hlen : List.length (rev (skipn (List.length l - k) l)) = k).
    { rewrite length_rev, length_skipn. lia. }
    rewrite <- Hlen at 1. rewrite skipn_all. rewrite Hlen, Nat.sub_diag.
    reflexivity.
  - replace (List.length l - k) with 0 by lia. cbn [firstn skipn rev].
    rewrite app_nil_r. apply skipn_all2. rewrite length_rev. lia.
Qed.

Lemma In_firstn {A : Type} (n : nat) (l : list A) (x : A) :
  In x (firstn n l) -> In x l.
Proof.
  intro H. rewrite <- (firstn_skipn n l). apply in_or_app. now left.
Qed.

(** The path made of named elements, after a climb of [ups], is cut down
    to its remaining elements followed by those below. *)
Lemma normpath_of_climb (above ups below : list string) :
  above <> [] -> below <> [] ->
  forallb plain_component above = true ->
  forallb dot_component ups = true ->
  forallb plain_component below = true ->
  count_up ups <= List.length above ->
  normpath (String.concat "/" (above ++ ups ++ below))
  = String.concat "/"
      (firstn (List.length above - count_up ups) above ++ below).
Proof.
  intros Ha Hb Hpa Hu Hpb Hn.
  assert (Hall : forallb (fun c => negb (contains_char "/" c))
                   (above ++ ups ++ below) = true).
  { rewrite !forallb_app, (clean_no_slash _ (plain_is_clean _ Hpa)),
      (dot_no_slash _ Hu), (clean_no_slash _ (plain_is_clean _ Hpb)).
    reflexivity. }
  assert (Hne : above ++ ups ++ below <> []) by (destruct above; easy).
  assert (Hstart : startswith (String.concat "/" (above ++ ups ++ below)) "/"
                   = false).
  { destruct above as [|x above]; [contradiction|].
    cbn [forallb] in Hpa. apply andb_true_iff in Hpa as [Hx _].
    apply plain_component_spec in Hx. destruct Hx as (Hx & _ & _).
    apply clean_component_spec in Hx. destruct Hx as (Hx1 & _ & Hx3).
    destruct x as [|a x]; [contradiction|].
    cbn [contains_char] in Hx3. apply orb_false_iff in Hx3 as [Hx3 _].
    cbn [app]. destruct (above ++ ups ++ below);
      cbn [String.concat append startswith]; now rewrite Hx3. }
  unfold normpath.
  destruct (String.concat "/" (above ++ ups ++ below)) as [|c0 s0] eqn:Es.
  { exfalso. apply (f_equal (split_on "/")) in Es.
    rewrite split_on_concat_no_slash in Es by assumption.
    cbn in Es. rewrite Es in Hall. destruct above; [contradiction|].
    inversion Es as [[Hx Hrest]]. subst.
    cbn [forallb] in Hpa. discriminate. }
  rewrite <- Es in *. rewrite Hstart.
  rewrite split_on_concat_no_slash by assumption.
  rewrite normpath_loop_push by assumption. rewrite app_nil_r.
  rewrite normpath_loop_climb;
    [ | assumption
      | rewrite forallb_forall in *; intros x Hx; apply Hpa;
        now apply in_rev
      | rewrite length_rev; assumption ].
  rewrite normpath_loop_plain by assumption.
  rewrite firstn_rev_skipn. cbn [slashes append].
  destruct (String.concat "/"
              (firstn (List.length above - count_up ups) above ++ below))
    eqn:Er; [|reflexivity].
  exfalso. apply (f_equal (split_on "/")) in Er.
  assert (Hclean : forallb clean_component
                     (firstn (List.length above - count_up ups) above
                      ++ below) = true).
  { rewrite forallb_app, (plain_is_clean _ Hpb), andb_true_r.
    apply plain_is_clean. rewrite forallb_forall in *. intros x Hx.
    apply Hpa. now apply (In_firstn _ _ _ Hx). }
  rewrite split_on_concat in Er;
    [ | destruct (firstn _ above); destruct below; easy | assumption].
  cbn in Er. rewrite Er in Hclean. discriminate.
Qed.

(** X20.  The real path of a locally replaced module is the main module's
    real path with the replacement path resolved against it: each leading
    [.] is dropped, each leading [..] removes the last remaining element
    of the main module's path, and the named elements of the replacement
    path follow. *)
Theorem local_replacement_real_path
    (main_module : Module) (module replace : ParsedModule)
    (above ups below : list string) :
  pm_replace module = Some replace ->
  real_path main_module = String.concat "/" above ->
  pm_path replace = String.concat "/" (ups ++ below) ->
  above <> [] -> below <> [] ->
  forallb plain_component above = true ->
  forallb dot_component ups = true ->
  forallb plain_component below = true ->
  count_up ups <= List.length above ->
  _resolve_path_for_local_replacement main_module module
  = Ok (String.concat "/"
          (firstn (List.length above - count_up ups) above ++ below)).
Proof.
  intros Hr Hmain Hpath Ha Hb Hpa Hu Hpb Hn.
  unfold _resolve_path_for_local_replacement. rewrite Hr, Hmain, Hpath.
  rewrite <- concat_app by (assumption || (destruct ups; destruct below; easy)).
  rewrite normpath_of_climb by assumption.
  assert (Hclean : forallb clean_component
                     (firstn (List.length above - count_up ups) above
                      ++ below) = true).
  { rewrite forallb_app, (plain_is_clean _ Hpb), andb_true_r.
    apply plain_is_clean. rewrite forallb_forall in *. intros x Hx.
    apply Hpa. now apply (In_firstn _ _ _ Hx). }
  rewrite (Path_of_components _ Hclean). unfold path_str.
  cbn [anchor parts].
  destruct (firstn (List.length above - count_up ups) above ++ below) eqn:E;
    [|reflexivity].
  apply app_eq_nil in E. destruct E as [_ E]. contradiction.
Qed.

Lemma local_replacement_real_path_witness :
  _resolve_path_for_local_replacement sample_main_module
    (mkParsedModule "example.com/d" None false
       (Some (mkParsedModule "./../sibling/pkg" None false None)))
  = Ok "example.com/sibling/pkg".
Proof.
  apply (local_replacement_real_path sample_main_module
           (mkParsedModule "example.com/d" None false
              (Some (mkParsedModule "./../sibling/pkg" None false None)))
           (mkParsedModule "./../sibling/pkg" None false None)
           ["example.com"; "a"] ["."; ".."] ["sibling"; "pkg"]);
    try reflexivity; try discriminate.
  vm_compute. lia.
Defined.

(** ** Resolution of one module directory *)

Lemma deduplicate_keys_distinct
    (package_modules downloaded_modules : list ParsedModule) :
  NoDup (map get_unique_key
           (_deduplicate_resolved_modules package_modules downloaded_modules)).
Proof.
  unfold _deduplicate_resolved_modules. fold merge_step.
  destruct (merge_fold_spec (package_modules ++ downloaded_modules) [])
    as [Hk [Hnd _]]; [intros k v [] | constructor |].
  now rewrite keyed_values_keys.
Qed.

Lemma deduplicate_subset
    (package_modules downloaded_modules : list ParsedModule) (m : ParsedModule) :
  In m (_deduplicate_resolved_modules package_modules downloaded_modules) ->
  In m package_modules \/ In m downloaded_modules.
Proof.
  unfold _deduplicate_resolved_modules. fold merge_step.
  destruct (merge_fold_spec (package_modules ++ downloaded_modules) [])
    as [_ [_ Hin]]; [intros k v [] | constructor |].
  intro Hm. apply Hin in Hm. destruct Hm as [[] | [_ [i [Hi _]]]].
  apply nth_error_In in Hi. now apply in_app_or in Hi.
Qed.

Lemma package_modules_not_main (packages : list ParsedPackage) :
  Forall (fun m => pm_main m = false) (package_modules_of packages).
Proof.
  apply Forall_forall. intros m Hm. unfold package_modules_of in Hm.
  apply in_flat_map in Hm. destruct Hm as [pkg [_ Hm]].
  destruct (pp_module pkg) as [module|]; [|easy].
  destruct (pm_main module) eqn:E; [easy|].
  destruct Hm as [<- | []]. assumption.
Qed.

(** X21.  What a successful resolution of a module directory hands over:
    a main module flagged as such, without replacement and with a
    version that is not empty; modules with pairwise distinct keys, whose
    replacement paths beginning with a dot all join within the root in
    the directory as the commands left it; and, when dependencies were
    vendored, no module flagged as main.  Success also means that
    [go.mod], [go.sum], [vendor/modules.txt] and every Go file found at
    the start joined within the root. *)
Theorem resolve_gomod_result
    (app_dir : RootedPath) (flags : list string) (strict : bool)
    (tc : Toolchain)
    (main_module : ParsedModule) (modules : list ParsedModule)
    (packages : list ParsedPackage) :
  _resolve_gomod app_dir flags strict tc = Ok (main_module, modules, packages) ->
  (pm_main main_module = true /\ pm_replace main_module = None /\
   exists v, pm_version main_module = Some v /\ v <> "") /\
  NoDup (map get_unique_key modules) /\
  (forall m r,
     In m modules -> pm_replace m = Some r ->
     startswith (pm_path r) "." = true ->
     lookup (tc_final_dir tc) (pm_path r) <> None) /\
  (forall can_make_changes,
     _should_vendor_deps flags app_dir strict = Ok (true, can_make_changes) ->
     Forall (fun m => pm_main m = false) modules) /\
  (forall p,
     In p ["go.mod"; "go.sum"; "vendor/modules.txt"] \/ In p (tc_go_files tc) ->
     lookup app_dir p <> None).
Proof.
  unfold _resolve_gomod.
  destruct (_protect_against_symlinks app_dir (tc_go_files tc)) as [[]|] eqn:Es;
    [|discriminate].
  cbn [bind].
  destruct (_should_vendor_deps flags app_dir strict) as [[sv can]|] eqn:Ev;
    [|discriminate].
  cbn [bind].
  set (fetched :=
         if sv then
           modules <-
             _vendor_deps (tc_vendor tc)
               (fun dir => fst (_vendor_changed (tc_vendor_git tc dir))) can ;;
           Ok (inl modules)
         else stdout <- tc_download tc ;; Ok (inr stdout)).
  destruct fetched as [downloaded|] eqn:Ed; [|discriminate]. cbn [bind].
  destruct (if mem "force-gomod-tidy" flags then _ else _); [|discriminate].
  cbn [bind].
  destruct (_run_gomod_cmd (go_list_cmd sv ++ ["-m"]) _) as [out|];
    [|discriminate].
  cbn [bind].
  destruct (_get_golang_version _ _ _ _ _) as [v|] eqn:Eg; [|discriminate].
  cbn [bind].
  destruct (_run_gomod_cmd (go_list_deps_cmd sv "all") _) as [all_out|];
    [|discriminate].
  cbn [bind].
  destruct (tc_load_packages tc all_out) as [pkgs|]; [|discriminate].
  cbn [bind].
  destruct (match downloaded with
            | inl modules => Ok modules
            | inr stdout => tc_load_modules tc stdout
            end) as [dm|] eqn:Edm; [|discriminate].
  cbn [bind].
  destruct (_run_gomod_cmd (go_list_deps_cmd sv "./...") _) as [here|];
    [|discriminate].
  cbn [bind].
  destruct (tc_load_packages tc here) as [pk|]; [|discriminate].
  cbn [bind].
  destruct (_validate_local_replacements _ _) as [[]|] eqn:Eval;
    [|discriminate].
  cbn [bind]. intro H. inversion H; subst. clear H.
  split; [|split; [|split; [|split]]].
  - cbn. repeat split. exists v. split; [reflexivity|].
    now apply golang_version_nonempty in Eg.
  - apply deduplicate_keys_distinct.
  - intros m r Hm Hr Hdot. unfold _validate_local_replacements in Eval.
    apply (proj1 (check_replaced_paths_ok _ _) Eval (pm_path m)).
    apply replaced_paths_In. exists m, r. auto.
  - intros can' Hcan. inversion Hcan; subst. apply Forall_forall.
    intros m Hm. apply deduplicate_subset in Hm. destruct Hm as [Hm | Hm].
    + pose proof (package_modules_not_main pkgs) as Hp.
      rewrite Forall_forall in Hp. now apply Hp.
    + subst fetched. cbn in Ed.
      destruct (_vendor_deps _ _ _) as [vm|] eqn:Evd; [|discriminate].
      cbn [bind] in Ed. inversion Ed; subst. inversion Edm; subst.
      unfold _vendor_deps in Evd.
      destruct (tc_vendor tc) as [after|]; [|discriminate].
      cbn [bind] in Evd.
      destruct (if negb can' then _ else _) as [[|]|]; cbn [bind] in Evd;
        try discriminate.
      apply parse_vendor_manifest_modules in Evd.
      rewrite Forall_forall in Evd. now destruct (Evd m Hm) as (_ & _ & ? & _).
  - intros p Hp. unfold _protect_against_symlinks in Es.
    apply (proj1 (check_each_ok _ _) Es). apply in_or_app. tauto.
Qed.

Lemma resolve_gomod_result_witness :
  NoDup (map get_unique_key [sample_local_module; sample_replaced_module]) /\
  lookup dir_with_local "./local" <> None.
Proof.
  destruct (resolve_gomod_result empty_dir ["gomod-vendor"] false
              sample_toolchain
              (mkParsedModule "example.com/a" (Some "v1.2.3") true None)
              [sample_local_module; sample_replaced_module]
              [mkParsedPackage "example.com/d/pkg" false
                 (Some sample_local_module)])
    as (_ & Hnd & Hloc & _).
  - vm_compute. reflexivity.
  - split; [exact Hnd|].
    apply (Hloc sample_local_module (mkParsedModule "./local" None false None));
      [now left | reflexivity | reflexivity].
Defined.

(** ** Names of packages *)

Lemma concat_clean_nonempty (first : string) (rest : list string) :
  clean_component first = true -> String.concat "/" (first :: rest) <> "".
Proof.
  intros Hf E. apply clean_component_spec in Hf. destruct Hf as [Hf _].
  destruct first; [contradiction|]. destruct rest; discriminate.
Qed.

(** The relative path of a package below its module, for import paths
    made of clean components: the components after those of the module's
    original name, less one leading dot. *)
Lemma package_relative_path_parts
    (package : ParsedPackage) (module : Module)
    (above below : list string) :
  above <> [] ->
  forallb clean_component (above ++ below) = true ->
  import_path package = String.concat "/" (above ++ below) ->
  original_name module = String.concat "/" above ->
  _resolve_package_relative_path package module
  = Ok (removeprefix (String.concat "/" below) ".").
Proof.
  intros Hne Hclean Hi Ho. unfold _resolve_package_relative_path.
  assert (Ha : forallb clean_component above = true)
    by (rewrite forallb_app in Hclean; now apply andb_true_iff in Hclean).
  rewrite Hi, Ho, (Path_of_components _ Hclean), (Path_of_components _ Ha).
  unfold relative_to. cbn [abs_parts anchor parts].
  destruct (List.length above =? 0)%nat eqn:En.
  { apply Nat.eqb_eq in En. destruct above; [contradiction | discriminate]. }
  rewrite firstn_app_exact, list_eqb_refl, skipn_app_exact. cbn [negb bind].
  f_equal. unfold path_str. cbn [anchor parts].
  destruct below as [|first rest]; reflexivity.
Qed.

Lemma startswith_dot (s : string) :
  startswith s "." = true -> exists r, s = String "." r.
Proof.
  destruct s as [|a r]; cbn [startswith]; [discriminate|].
  rewrite andb_true_r. intro H. apply Ascii.eqb_eq in H. subst a.
  now exists r.
Qed.

(** X22.  For a package that carries a module of the index, with an
    import path of clean components below the module's original name:
    the relative path of the created package is the part of the import
    path below the original name, less one leading dot.  When that part
    does not begin with a dot, the package takes its name from the
    import path by putting the module's name in the place of the
    original name, and its real path by putting the module's real path
    there, so that for a module that kept its name the package is named
    by its import path.  When that part begins with a dot, the name and
    the real path lack that dot, and the name is not the import path
    with the module's name put in. *)
Theorem package_name_from_import_path
    (indexed_modules : @dict string Module) (package : ParsedPackage)
    (parsed : ParsedModule) (module : Module) (above below : list string) :
  standard package = false ->
  pp_module package = Some parsed ->
  dict_get String.eqb indexed_modules (pm_path parsed) = Some module ->
  above <> [] ->
  forallb clean_component (above ++ below) = true ->
  import_path package = String.concat "/" (above ++ below) ->
  original_name module = String.concat "/" above ->
  let relative_path := removeprefix (String.concat "/" below) "." in
  let rest :=
    drop (String.length (original_name module)) (import_path package) in
  _create_package indexed_modules package = Ok (Package relative_path module) /\
  (startswith (String.concat "/" below) "." = false ->
   Package_name relative_path module = (name module ++ rest)%string /\
   Package_real_path relative_path module
   = (real_path module ++ rest)%string /\
   (name module = original_name module ->
    Package_name relative_path module = import_path package)) /\
  (startswith (String.concat "/" below) "." = true ->
   Package_name relative_path module
   = (name module ++ "/" ++ drop 2 rest)%string /\
   Package_real_path relative_path module
   = (real_path module ++ "/" ++ drop 2 rest)%string /\
   Package_name relative_path module <> (name module ++ rest)%string).
Proof.
  intros Hstd Hmod Hget Hne Hclean Hi Ho relative_path rest.
  assert (Hrest : rest
                  = match below with
                    | [] => ""
                    | _ => ("/" ++ String.concat "/" below)%string
                    end).
  { subst rest. rewrite Hi, Ho. destruct below as [|first others].
    - rewrite app_nil_r.
      rewrite <- (append_nil_r (String.concat "/" above)) at 2.
      apply drop_app_exact.
    - rewrite concat_app by (assumption || discriminate).
      apply drop_app_exact. }
  split; [|split].
  - unfold _create_package, dict_lookup. rewrite Hstd, Hmod, Hget.
    cbn [bind].
    now rewrite (package_relative_path_parts package module above below).
  - intro Hdot.
    assert (Hrel : relative_path = String.concat "/" below).
    { subst relative_path. unfold removeprefix. now rewrite Hdot. }
    assert (Hname : forall prefix : string,
              match relative_path with
              | EmptyString => prefix
              | _ => (prefix ++ "/" ++ relative_path)%string
              end
              = (prefix ++ rest)%string).
    { intro prefix. rewrite Hrest, Hrel. destruct below as [|first others].
      - cbn [String.concat]. now rewrite append_nil_r.
      - destruct (String.concat "/" (first :: others)) eqn:E; [|reflexivity].
        exfalso. revert E. apply concat_clean_nonempty.
        rewrite forallb_app in Hclean.
        apply andb_true_iff in Hclean as [_ Hb]. cbn [forallb] in Hb.
        now apply andb_true_iff in Hb as [Hf _]. }
    split; [apply Hname|]. split; [apply Hname|].
    intro Hsame. unfold Package_name. rewrite Hname, Hsame, Hrest, Hi, Ho.
    destruct below as [|first others].
    + now rewrite app_nil_r, append_nil_r.
    + now rewrite concat_app by (assumption || discriminate).
  - intro Hdot.
    destruct below as [|first others]; [discriminate|].
    destruct (startswith_dot _ Hdot) as [r Hr].
    assert (Hrel : relative_path = r).
    { subst relative_path. unfold removeprefix. rewrite Hdot, Hr.
      reflexivity. }
    assert (Hnonempty : r <> "").
    { intro Hempty. rewrite Hempty in Hr.
      rewrite forallb_app in Hclean.
      apply andb_true_iff in Hclean as [_ Hb]. cbn [forallb] in Hb.
      apply andb_true_iff in Hb as [Hf _].
      apply clean_component_spec in Hf. destruct Hf as (_ & Hnd & _).
      destruct others as [|second others].
      - cbn [String.concat] in Hr. exact (Hnd Hr).
      - cbn [String.concat] in Hr.
        destruct first as [|a [|b first]]; cbn [append] in Hr;
          discriminate. }
    assert (Hdrop : drop 2 rest = r).
    { rewrite Hrest, Hr. reflexivity. }
    rewrite Hdrop, Hrel. unfold Package_name, Package_real_path.
    destruct r as [|c r]; [contradiction|].
    split; [reflexivity|]. split; [reflexivity|].
    rewrite Hrest, Hr. intro Heq.
    apply (f_equal String.length) in Heq.
    rewrite !length_append in Heq. cbn [String.length] in Heq. lia.
Qed.

Lemma package_name_from_import_path_witness :
  _create_package (index_modules [sample_main_module; sample_replaced_created])
    (mkParsedPackage "example.com/b/sub/deep" false
       (Some sample_replaced_module))
  = Ok (Package "sub/deep" sample_replaced_created) /\
  Package_name "sub/deep" sample_replaced_created = "example.com/c/sub/deep" /\
  Package_real_path "sub/deep" sample_replaced_created
  = "example.com/c/sub/deep".
Proof.
  destruct (package_name_from_import_path
              (index_modules [sample_main_module; sample_replaced_created])
              (mkParsedPackage "example.com/b/sub/deep" false
                 (Some sample_replaced_module))
              sample_replaced_module sample_replaced_created
              ["example.com"; "b"] ["sub"; "deep"])
    as (H1 & H2 & _); try reflexivity; try discriminate.
  destruct (H2 eq_refl) as (H3 & H4 & _).
  split; [exact H1|]. split; [exact H3 | exact H4].
Defined.

Example package_name_of_dotted_directory :
  _create_package (index_modules [sample_main_module; sample_replaced_created])
    (mkParsedPackage "example.com/b/.sub" false (Some sample_replaced_module))
  = Ok (Package "sub" sample_replaced_created) /\
  Package_name "sub" sample_replaced_created = "example.com/c/sub".
Proof. split; reflexivity. Qed.
